(** * iframe-communicator: the channel handshake and the dispatch layer

    A shallow embedding of the [MessagingService] class, in the two protocol
    generations the repository holds:

    - [Connection]: [src/connection.ts], where a channel record has no
      [state] field and handshake replies are ignored for a channel that is
      already initialized;
    - [Handshake]: the generation with [MINIMUM_TIMEOUT], a [state] field in
      every channel record, the terminal state [FIN] and a guarded
      [connectToFrame] that clears the registry.

    Two earlier generations of the same file as [Handshake] are embedded
    for the properties of their own: [Registry], whose handshake message is
    [{token, source}], and [Probe], which finds one window by a fixed token.

    Conventions of the embedding.

    - A method becomes a function from the service to a [Result]: the service
      after the call, the trace of effects on the outside world in the order
      they happened, and the way the call completed ([Normal] or [Throw e]).
      What was mutated before an exception stays mutated, as in the source.
    - A JavaScript [Map] is an association list in insertion order: [forEach]
      and [for .. of] visit it from the head, [set] on a present key replaces
      the value in place, [set] on an absent key appends.
    - Inbound payloads are typed by the interfaces of the source
      ([ChannelInitializationMessage], [ChannelMessage]) or are primitives:
      a handshake message carries its token, its source and its state as
      strings, and a message without one of them is outside the model; so
      the registry holds no channel under [undefined], and a payload that
      has no token finds none.
      [frame] is a JavaScript number, that is a binary64 float, and
      [frame + 1] is the addition of floats: exact up to [2^53], absorbed
      from there on, [NaN] on [NaN].
    - [Math.random] is the environment's: a fresh token, handler id or timer
      handle is an argument of the function that draws it.
    - [window.postMessage] and a message handler may throw: the transport is
      the section variable [transport], which tells whether a post to a
      window returns, and a handler is a function that tells whether it
      returns on the data it is given. A handler does not call back into
      the service.
    - The optional [logger] is a diagnostic sink: its calls are left out
      of [Connection] and [Handshake], and [Logged] embeds the path of an
      inbound event of [src/connection.ts] with them. *)

From Stdlib Require Import List String ZArith Bool Lia PeanoNat PrimFloat.
Import ListNotations.
Local Open Scope string_scope.
Local Open Scope list_scope.

Set Implicit Arguments.

(** ** JavaScript values *)

(** Primitive values, as far as truthiness tells them apart. *)
Inductive JsPrim : Type :=
| JUndefined
| JNull
| JBool (b : bool)
| JNum (n : Z)
| JNaN
| JStr (s : string).

(** A value of type [any] carried as application data. *)
Inductive JsVal : Type :=
| VPrim (p : JsPrim)
| VObj (o : JsFields)
with JsFields : Type :=
| FNil
| FCons (key : string) (v : JsVal) (rest : JsFields).

Definition str_truthy (s : string) : bool :=
  match s with
  | EmptyString => false
  | String _ _ => true
  end.

(** [if (v)] on a primitive. *)
Definition prim_truthy (p : JsPrim) : bool :=
  match p with
  | JUndefined => false
  | JNull => false
  | JBool b => b
  | JNum n => negb (Z.eqb n 0)
  | JNaN => false
  | JStr s => str_truthy s
  end.

(** How a call completes. *)
Inductive Completion (E : Type) : Type :=
| Normal
| Throw (e : E).
Arguments Normal {E}.
Arguments Throw {E} e.

(** ** Insertion-ordered maps

    [Map<K, V>] with the key equality [eqb] (strings and numbers are compared
    by value). *)

Section JsMap.
Variables K V : Type.
Variable eqb : K -> K -> bool.

Definition JsMap := list (K * V).

Fixpoint map_get (k : K) (m : JsMap) : option V :=
  match m with
  | [] => None
  | (k', v) :: m' => if eqb k k' then Some v else map_get k m'
  end.

Definition map_has (k : K) (m : JsMap) : bool :=
  match map_get k m with
  | Some _ => true
  | None => false
  end.

Fixpoint map_set (k : K) (v : V) (m : JsMap) : JsMap :=
  match m with
  | [] => [(k, v)]
  | (k', v') :: m' =>
      if eqb k k' then (k, v) :: m' else (k', v') :: map_set k v m'
  end.

Fixpoint map_delete (k : K) (m : JsMap) : JsMap :=
  match m with
  | [] => []
  | (k', v') :: m' =>
      if eqb k k' then m' else (k', v') :: map_delete k m'
  end.

Definition map_size (m : JsMap) : nat := List.length m.

Definition map_values (m : JsMap) : list V := map snd m.

(** How many values satisfy [p]. *)
Definition map_count (p : V -> bool) (m : JsMap) : nat :=
  List.length (filter p (map_values m)).
End JsMap.

Arguments map_get {K V} eqb k m.
Arguments map_has {K V} eqb k m.
Arguments map_set {K V} eqb k v m.
Arguments map_delete {K V} eqb k m.
Arguments map_size {K V} m.
Arguments map_values {K V} m.
Arguments map_count {K V} p m.

(** ** What the two generations share *)

Definition WILDCARD_TARGET : string := "*".
Definition UNKNOWN_DESTINATION : string := "UNKNOWN_DESTINATION".

(** A [WindowProxy]: an opaque handle of the host. *)
Definition WindowProxy := nat.

Record HTMLIFrameElement : Type := {
  contentWindow : option WindowProxy
}.

(** [interface ChannelInitializationMessage extends TokenMessage] *)
Module Init.
Record Message : Type := {
  token : string;
  source : string;
  state : string;
  frame : float
}.
End Init.

(** [interface ChannelMessage extends TokenMessage] *)
Module App.
Record Message : Type := {
  token : string;
  data : JsVal
}.
End App.

(** [event.data]: a primitive, or an object of one of the two shapes. *)
Inductive EventData : Type :=
| DPrim (p : JsPrim)
| DInit (m : Init.Message)
| DApp (m : App.Message).

Record MessageEvent : Type := {
  origin : string;
  data : EventData;
  source : option WindowProxy
}.

(** [if (event.data)]: an object is truthy. *)
Definition truthy (d : EventData) : bool :=
  match d with
  | DPrim p => prim_truthy p
  | DInit _ => true
  | DApp _ => true
  end.

(** [message.token] read through the cast to [ChannelMessage]. *)
Definition token_of (d : EventData) : option string :=
  match d with
  | DPrim _ => None
  | DInit m => Some (Init.token m)
  | DApp m => Some (App.token m)
  end.

(** [message.data] read through the cast to [ChannelMessage]. *)
Definition data_of (d : EventData) : JsVal :=
  match d with
  | DPrim _ => VPrim JUndefined
  | DInit _ => VPrim JUndefined
  | DApp m => App.data m
  end.

Inductive Error : Type :=
| WildcardTarget          (* "Don't use '*' as target." *)
| NoChannel               (* "No channel." *)
| NoInitializedChannel    (* "No channel initialized" *)
| MissingFrameReference   (* "Frame or contentWindow is null." *)
| OriginMismatch          (* "Origin does not match expected target" *)
| UnexistingChannel (token : string)
                          (* "Unexitisting channel for the given token: " *)
| SendFailed (w : WindowProxy)  (* thrown by window.postMessage *)
| HandlerFailed (id : Z).       (* thrown by a message handler *)

(** What is posted to a window. *)
Inductive Posted : Type :=
| PInit (m : Init.Message)
| PApp (m : App.Message).

Inductive Effect : Type :=
| Sent (w : WindowProxy) (m : Posted) (targetOrigin : string)
| Called (id : Z) (d : JsVal)
| ClearInterval (h : positive)
| SetTimer (h : positive).

(** A handler returns ([true]) or throws ([false]). *)
Definition MessageHandler := JsVal -> bool.

(** The service after a call, what the call did to the outside world, and
    how it completed. *)
Record Result (S : Type) : Type := {
  after : S;
  trace : list Effect;
  completion : Completion Error
}.

Definition returns {S : Type} (s : S) (tr : list Effect) : Result S :=
  {| after := s; trace := tr; completion := Normal |}.

Definition throws {S : Type} (s : S) (tr : list Effect) (e : Error)
  : Result S :=
  {| after := s; trace := tr; completion := Throw e |}.

(** [handlers.forEach(handler => handler(data))]: in insertion order, until
    a handler throws. *)
Fixpoint call_handlers (hs : JsMap Z MessageHandler) (d : JsVal)
  : list Effect * Completion Error :=
  match hs with
  | [] => ([], Normal)
  | (i, h) :: hs' =>
      if h d then
        let '(tr, c) := call_handlers hs' d in (Called i d :: tr, c)
      else ([Called i d], Throw (HandlerFailed i))
  end.

(** One call per handler of [hs], in order. *)
Definition calls (hs : JsMap Z MessageHandler) (d : JsVal) : list Effect :=
  map (fun ih => Called (fst ih) d) hs.

(** The host's table of scheduled timers, driven by the effects of a call. *)
Fixpoint apply_effects (tr : list Effect) (live : list positive)
  : list positive :=
  match tr with
  | [] => live
  | ClearInterval h :: tr' =>
      apply_effects tr' (filter (fun h' => negb (Pos.eqb h h')) live)
  | SetTimer h :: tr' => apply_effects tr' (h :: live)
  | _ :: tr' => apply_effects tr' live
  end.

(** ** [src/connection.ts] *)

Module Connection.

Record Channel : Type := {
  destination : string;
  initialized : bool;
  token : string;
  window : option WindowProxy
}.

Record MessagingService : Type := {
  target : string;
  frame : option HTMLIFrameElement;
  id : string;
  interval : option positive;
  handlers : JsMap Z MessageHandler;
  channels : JsMap string Channel
}.

Definition set_channels (s : MessagingService) (c : JsMap string Channel)
  : MessagingService :=
  {| target := target s; frame := frame s; id := id s;
     interval := interval s; handlers := handlers s; channels := c |}.

Definition set_handlers (s : MessagingService) (h : JsMap Z MessageHandler)
  : MessagingService :=
  {| target := target s; frame := frame s; id := id s;
     interval := interval s; handlers := h; channels := channels s |}.

(** [constructor]: [random] is the draw of [GetRandomNumber], [h] the handle
    [setInterval] returns. The registration of [listener] is the [Deliver]
    input of [step] below. *)
Definition constructor (target : string) (frame : option HTMLIFrameElement)
  (overrideId : option string) (random : string) (h : positive)
  : Error + MessagingService * list Effect :=
  if String.eqb target WILDCARD_TARGET then inl WildcardTarget
  else
    let id := match overrideId with Some i => i | None => random end in
    match frame with
    | Some f =>
        inr ({| target := target; frame := Some f; id := id;
                interval := Some h; handlers := []; channels := [] |},
             [SetTimer h])
    | None =>
        inr ({| target := target; frame := None; id := id;
                interval := None; handlers := []; channels := [] |}, [])
    end.

(** [handlerId] is [parseInt(this.GetRandomNumber())]. *)
Definition addMessageHandler (s : MessagingService) (handler : MessageHandler)
  (handlerId : Z) : MessagingService * Z :=
  (set_handlers s (map_set Z.eqb handlerId handler (handlers s)), handlerId).

Definition removeMessageHandler (s : MessagingService) (handlerId : Z)
  : MessagingService :=
  if map_has Z.eqb handlerId (handlers s)
  then set_handlers s (map_delete Z.eqb handlerId (handlers s))
  else s.

Definition AtLeastOneInitializedChannel (s : MessagingService) : bool :=
  fold_left (fun atLeastOne element =>
               if initialized element then true else atLeastOne)
            (map_values (channels s)) false.

(** The registry holds an initialized channel under the token [t]. *)
Definition is_initialized (s : MessagingService) (t : string) : bool :=
  match map_get String.eqb t (channels s) with
  | Some channel => initialized channel
  | None => false
  end.

(** What [postMessage(data)] posts when every send returns: one wrapped
    message per channel that has a window, in registry order. *)
Definition deliveries (s : MessagingService) (data : JsVal)
  (cs : list Channel) : list Effect :=
  flat_map (fun channel =>
              match window channel with
              | Some w =>
                  [Sent w (PApp {| App.token := token channel;
                                   App.data := data |}) (target s)]
              | None => []
              end) cs.

Section Transport.
(** [transport w m] tells whether [w.postMessage(m, target)] returns. *)
Variable transport : WindowProxy -> Posted -> bool.

Definition postMessageInternal (s : MessagingService) (data : Posted)
  (channel : Channel) : list Effect * Completion Error :=
  match window channel with
  | None => ([], Normal)
  | Some w =>
      if transport w data then ([Sent w data (target s)], Normal)
      else ([], Throw (SendFailed w))
  end.

Definition postInitializationMessage (s : MessagingService)
  (data : Init.Message) (channel : Channel) : list Effect * Completion Error :=
  postMessageInternal s (PInit data) channel.

(** The body of [this.channels.forEach(channel => ...)] in [postMessage]. *)
Fixpoint post_each (s : MessagingService) (data : JsVal)
  (cs : list Channel) : list Effect * Completion Error :=
  match cs with
  | [] => ([], Normal)
  | channel :: cs' =>
      let message := {| App.token := token channel; App.data := data |} in
      match postMessageInternal s (PApp message) channel with
      | (tr, Normal) =>
          let '(tr', c) := post_each s data cs' in (tr ++ tr', c)
      | (tr, Throw e) => (tr, Throw e)
      end
  end.

Definition postMessage (s : MessagingService) (data : JsVal)
  : Result MessagingService :=
  if Nat.eqb (map_size (channels s)) 0 then throws s [] NoChannel
  else if negb (AtLeastOneInitializedChannel s)
  then throws s [] NoInitializedChannel
  else
    let '(tr, c) := post_each s data (map_values (channels s)) in
    {| after := s; trace := tr; completion := c |}.

Definition connectToFrame (s : MessagingService) (random : string)
  : Result MessagingService :=
  match frame s with
  | None => throws s [] MissingFrameReference
  | Some f =>
      match contentWindow f with
      | None => throws s [] MissingFrameReference
      | Some w =>
          let token := random in
          let channel := {| token := token;
                            destination := UNKNOWN_DESTINATION;
                            initialized := false;
                            window := Some w |} in
          let s1 := set_channels s (map_set String.eqb token channel
                                            (channels s)) in
          let '(tr, c) :=
            postInitializationMessage s1
              {| Init.source := id s; Init.token := token;
                 Init.state := "SYN"; Init.frame := 1 |} channel in
          {| after := s1; trace := tr; completion := c |}
      end
  end.

(** [if (this.interval) clearInterval(this.interval)] *)
Definition clear_interval (s : MessagingService) : list Effect :=
  match interval s with
  | Some h => [ClearInterval h]
  | None => []
  end.

(** [initialize(event)], with [message = event.data] and [src =
    event.source]. *)
Definition initialize (s : MessagingService) (message : Init.Message)
  (src : option WindowProxy) : Result MessagingService :=
  if String.eqb (Init.state message) "SYN+ACK" then
    if map_has String.eqb (Init.token message) (channels s) then
      match map_get String.eqb (Init.token message) (channels s) with
      | None => returns s []
      | Some channel =>
          if initialized channel then returns s []
          else
            let updatedOrNewChannel :=
              {| token := Init.token message;
                 destination := Init.source message;
                 initialized := true;
                 window := window channel |} in
            let s1 := set_channels s
                        (map_set String.eqb (Init.token message)
                                 updatedOrNewChannel (channels s)) in
            match postInitializationMessage s1
                    {| Init.token := Init.token message;
                       Init.source := id s;
                       Init.state := "ACK";
                       Init.frame := (Init.frame message + 1)%float |}
                    updatedOrNewChannel with
            | (tr, Throw e) => throws s1 tr e
            | (tr, Normal) => returns s1 (tr ++ clear_interval s1)
            end
      end
    else returns s []
  else if String.eqb (Init.state message) "SYN" then
    let updatedOrNewChannel :=
      {| token := Init.token message;
         destination := UNKNOWN_DESTINATION;
         initialized := false;
         window := src |} in
    let s1 := set_channels s
                (map_set String.eqb (Init.token message)
                         updatedOrNewChannel (channels s)) in
    let '(tr, c) :=
      postInitializationMessage s1
        {| Init.token := Init.token message;
           Init.source := id s;
           Init.state := "SYN+ACK";
           Init.frame := (Init.frame message + 1)%float |}
        updatedOrNewChannel in
    {| after := s1; trace := tr; completion := c |}
  else if String.eqb (Init.state message) "ACK" then
    if map_has String.eqb (Init.token message) (channels s) then
      match map_get String.eqb (Init.token message) (channels s) with
      | None => returns s []
      | Some channel =>
          if initialized channel then returns s []
          else
            let updatedOrNewChannel :=
              {| token := Init.token message;
                 destination := Init.source message;
                 initialized := true;
                 window := window channel |} in
            returns (set_channels s
                       (map_set String.eqb (Init.token message)
                                updatedOrNewChannel (channels s))) []
      end
    else returns s []
  else returns s [].

(** A sequence of inbound handshake messages, each with the [event.source]
    it came from, processed in order. *)
Definition initialize_all (s : MessagingService)
  (messages : list (Init.Message * option WindowProxy)) : MessagingService :=
  fold_left (fun s' m => after (initialize s' (fst m) (snd m))) messages s.

Definition dispatchEvent (s : MessagingService) (message : EventData)
  : Result MessagingService :=
  match token_of message with
  | None => returns s []
  | Some t =>
      if negb (map_has String.eqb t (channels s)) then returns s []
      else
        let '(tr, c) := call_handlers (handlers s) (data_of message) in
        {| after := s; trace := tr; completion := c |}
  end.

Definition listener (s : MessagingService) (event : MessageEvent)
  : Result MessagingService :=
  if negb (String.eqb (origin event) (target s))
  then throws s [] OriginMismatch
  else if truthy (data event) then
    match data event with
    | DInit initializationMessage =>
        if str_truthy (Init.state initializationMessage)
        then initialize s initializationMessage (source event)
        else dispatchEvent s (data event)
    | _ => dispatchEvent s (data event)
    end
  else returns s [].

(** *** The service in its host

    The host owns the timers: [live] lists the handles still scheduled. *)

Record System : Type := {
  service : MessagingService;
  live : list positive
}.

Inductive Input : Type :=
| Tick (h : positive) (random : string)   (* the interval [h] elapses *)
| Deliver (event : MessageEvent)          (* a "message" event *)
| AddHandler (handler : MessageHandler) (handlerId : Z)
| RemoveHandler (handlerId : Z)
| Post (d : JsVal).

(** The peer behind an inbound handshake message does not announce the
    sentinel [UNKNOWN_DESTINATION] as its identity. *)
Definition announces_identity (i : Input) : Prop :=
  match i with
  | Deliver event =>
      match data event with
      | DInit m => Init.source m <> UNKNOWN_DESTINATION
      | _ => True
      end
  | _ => True
  end.

Definition settle (sys : System) (r : Result MessagingService) : System :=
  {| service := after r; live := apply_effects (trace r) (live sys) |}.

Definition step (sys : System) (i : Input) : System :=
  match i with
  | Tick h random =>
      if existsb (Pos.eqb h) (live sys)
      then settle sys (connectToFrame (service sys) random)
      else sys
  | Deliver event => settle sys (listener (service sys) event)
  | AddHandler handler handlerId =>
      {| service := fst (addMessageHandler (service sys) handler handlerId);
         live := live sys |}
  | RemoveHandler handlerId =>
      {| service := removeMessageHandler (service sys) handlerId;
         live := live sys |}
  | Post d => settle sys (postMessage (service sys) d)
  end.

Definition run (sys : System) (inputs : list Input) : System :=
  fold_left step inputs sys.

Definition boot (target : string) (frame : option HTMLIFrameElement)
  (overrideId : option string) (random : string) (h : positive)
  : option System :=
  match constructor target frame overrideId random h with
  | inl _ => None
  | inr (s, tr) => Some {| service := s; live := apply_effects tr [] |}
  end.

End Transport.

End Connection.

(** ** [src/connection.ts] with its logger

    [Connection] leaves the calls of [this.logger?.log] out. Here the path
    of an inbound event is embedded once more with them: [logger] tells
    whether the constructor was given a logger, and a trace holds the log
    lines among the effects, in the order of the source. A log line is the
    string the source concatenates; the number [message.frame] is kept as a
    piece of its own, rendered by the [+] of JavaScript. The logger is taken
    to return. *)

Module Logged.

Inductive Piece : Type :=
| Text (s : string)
| Number (n : float).

Definition LogLine := list Piece.

Inductive Event : Type :=
| Did (e : Effect)
| Log (line : LogLine).

(** The effects of a trace, without its log lines. *)
Fixpoint erase (tr : list Event) : list Effect :=
  match tr with
  | [] => []
  | Did e :: tr' => e :: erase tr'
  | Log _ :: tr' => erase tr'
  end.

Record Result : Type := {
  after : Connection.MessagingService;
  trace : list Event;
  completion : Completion Error
}.

Definition returns (s : Connection.MessagingService) (tr : list Event)
  : Result :=
  {| after := s; trace := tr; completion := Normal |}.

Definition throws (s : Connection.MessagingService) (tr : list Event)
  (e : Error) : Result :=
  {| after := s; trace := tr; completion := Throw e |}.

(** [GetType()]: the values of [enum WindowType]. *)
Definition GetType (s : Connection.MessagingService) : string :=
  match Connection.frame s with
  | Some _ => "Window"
  | None => "Frame"
  end.

Fixpoint call_handlers (hs : JsMap Z MessageHandler) (d : JsVal)
  : list Event * Completion Error :=
  match hs with
  | [] => ([], Normal)
  | (i, h) :: hs' =>
      if h d then
        let '(tr, c) := call_handlers hs' d in (Did (Called i d) :: tr, c)
      else ([Did (Called i d)], Throw (HandlerFailed i))
  end.

Section Logger.
Variable logger : bool.
Variable transport : WindowProxy -> Posted -> bool.

(** [this.logger?.log(line)] *)
Definition log (line : LogLine) : list Event :=
  if logger then [Log line] else [].

Definition postMessageInternal (s : Connection.MessagingService)
  (data : Posted) (channel : Connection.Channel)
  : list Event * Completion Error :=
  match Connection.window channel with
  | None => ([], Normal)
  | Some w =>
      let lines :=
        log [Text ("send message to: " ++ Connection.destination channel
                   ++ " with token: " ++ Connection.token channel)%string]
        ++ log [Text ("send message using: " ++ GetType s)%string] in
      if transport w data
      then (lines ++ [Did (Sent w data (Connection.target s))], Normal)
      else (lines, Throw (SendFailed w))
  end.

Definition postInitializationMessage (s : Connection.MessagingService)
  (data : Init.Message) (channel : Connection.Channel)
  : list Event * Completion Error :=
  let line :=
    log [Text ("send handshake with state: " ++ Init.state data)%string] in
  let '(tr, c) := postMessageInternal s (PInit data) channel in
  (line ++ tr, c).

Definition clear_interval (s : Connection.MessagingService) : list Event :=
  map Did (Connection.clear_interval s).

Definition initialize (s : Connection.MessagingService)
  (message : Init.Message) (src : option WindowProxy) : Result :=
  let line :=
    log [Text ("receive initialization with state: " ++ Init.state message
               ++ ", frame: ")%string;
         Number (Init.frame message)] in
  if String.eqb (Init.state message) "SYN+ACK" then
    if map_has String.eqb (Init.token message) (Connection.channels s) then
      match map_get String.eqb (Init.token message)
              (Connection.channels s) with
      | None => returns s line
      | Some channel =>
          if Connection.initialized channel then returns s line
          else
            let updatedOrNewChannel :=
              {| Connection.token := Init.token message;
                 Connection.destination := Init.source message;
                 Connection.initialized := true;
                 Connection.window := Connection.window channel |} in
            let s1 := Connection.set_channels s
                        (map_set String.eqb (Init.token message)
                                 updatedOrNewChannel
                                 (Connection.channels s)) in
            match postInitializationMessage s1
                    {| Init.token := Init.token message;
                       Init.source := Connection.id s;
                       Init.state := "ACK";
                       Init.frame := (Init.frame message + 1)%float |}
                    updatedOrNewChannel with
            | (tr, Throw e) => throws s1 (line ++ tr) e
            | (tr, Normal) => returns s1 (line ++ tr ++ clear_interval s1)
            end
      end
    else returns s line
  else if String.eqb (Init.state message) "SYN" then
    let updatedOrNewChannel :=
      {| Connection.token := Init.token message;
         Connection.destination := UNKNOWN_DESTINATION;
         Connection.initialized := false;
         Connection.window := src |} in
    let s1 := Connection.set_channels s
                (map_set String.eqb (Init.token message)
                         updatedOrNewChannel (Connection.channels s)) in
    let '(tr, c) :=
      postInitializationMessage s1
        {| Init.token := Init.token message;
           Init.source := Connection.id s;
           Init.state := "SYN+ACK";
           Init.frame := (Init.frame message + 1)%float |}
        updatedOrNewChannel in
    {| after := s1; trace := line ++ tr; completion := c |}
  else if String.eqb (Init.state message) "ACK" then
    if map_has String.eqb (Init.token message) (Connection.channels s) then
      match map_get String.eqb (Init.token message)
              (Connection.channels s) with
      | None => returns s line
      | Some channel =>
          if Connection.initialized channel then returns s line
          else
            let updatedOrNewChannel :=
              {| Connection.token := Init.token message;
                 Connection.destination := Init.source message;
                 Connection.initialized := true;
                 Connection.window := Connection.window channel |} in
            returns (Connection.set_channels s
                       (map_set String.eqb (Init.token message)
                                updatedOrNewChannel
                                (Connection.channels s))) line
      end
    else returns s line
  else returns s line.

Definition dispatchEvent (s : Connection.MessagingService)
  (message : EventData) : Result :=
  let drop := log [Text "receive a message with no valid token. drop."] in
  match token_of message with
  | None => returns s drop
  | Some t =>
      if negb (map_has String.eqb t (Connection.channels s))
      then returns s drop
      else
        let destination :=
          match map_get String.eqb t (Connection.channels s) with
          | Some channel => Connection.destination channel
          | None => "undefined"
          end in
        let line :=
          log [Text ("receive a message from: " ++ destination)%string] in
        let '(tr, c) :=
          call_handlers (Connection.handlers s) (data_of message) in
        {| after := s; trace := line ++ tr; completion := c |}
  end.

Definition prefixed (line : list Event) (r : Result) : Result :=
  {| after := after r; trace := line ++ trace r;
     completion := completion r |}.

Definition listener (s : Connection.MessagingService) (event : MessageEvent)
  : Result :=
  if negb (String.eqb (origin event) (Connection.target s))
  then throws s [] OriginMismatch
  else
    let line :=
      log [Text ("receive message on " ++ Connection.id s ++ ", type: "
                 ++ GetType s)%string] in
    if truthy (data event) then
      match data event with
      | DInit initializationMessage =>
          if str_truthy (Init.state initializationMessage)
          then prefixed line
                 (initialize s initializationMessage (source event))
          else prefixed line (dispatchEvent s (data event))
      | _ => prefixed line (dispatchEvent s (data event))
      end
    else returns s line.

End Logger.

End Logged.

(** ** The generation with channel states and [FIN] *)

Module Handshake.

(** [type State = "SYN" | "ACK" | "SYN+ACK" | "FIN"] *)
Inductive State : Type := SYN | ACK | SYN_ACK | FIN.

Definition state_name (st : State) : string :=
  match st with
  | SYN => "SYN"
  | ACK => "ACK"
  | SYN_ACK => "SYN+ACK"
  | FIN => "FIN"
  end.

Definition is_SYN (st : State) : bool :=
  match st with
  | SYN => true
  | _ => false
  end.

Record Channel : Type := {
  destination : string;
  initialized : bool;
  token : string;
  state : State;
  window : option WindowProxy
}.

Record MessagingService : Type := {
  target : string;
  frame : option HTMLIFrameElement;
  id : string;
  interval : option positive;
  handlers : JsMap Z MessageHandler;
  channels : JsMap string Channel
}.

Definition set_channels (s : MessagingService) (c : JsMap string Channel)
  : MessagingService :=
  {| target := target s; frame := frame s; id := id s;
     interval := interval s; handlers := handlers s; channels := c |}.

Definition set_handlers (s : MessagingService) (h : JsMap Z MessageHandler)
  : MessagingService :=
  {| target := target s; frame := frame s; id := id s;
     interval := interval s; handlers := h; channels := channels s |}.

Definition set_interval (s : MessagingService) (i : option positive)
  : MessagingService :=
  {| target := target s; frame := frame s; id := id s;
     interval := i; handlers := handlers s; channels := channels s |}.

(** [delayConnectToFrame]: [h] is the handle [setTimeout] returns; the
    delay drawn from [Math.random] is the host's. *)
Definition delayConnectToFrame (s : MessagingService) (h : positive)
  : MessagingService * list Effect :=
  (set_interval s (Some h), [SetTimer h]).

Definition constructor (target : string) (frame : option HTMLIFrameElement)
  (overrideId : option string) (random : string) (h : positive)
  : Error + MessagingService * list Effect :=
  if String.eqb target WILDCARD_TARGET then inl WildcardTarget
  else
    let id := match overrideId with Some i => i | None => random end in
    let s := {| target := target; frame := frame; id := id;
                interval := None; handlers := []; channels := [] |} in
    match frame with
    | Some _ => inr (delayConnectToFrame s h)
    | None => inr (s, [])
    end.

Definition addMessageHandler (s : MessagingService) (handler : MessageHandler)
  (handlerId : Z) : MessagingService * Z :=
  (set_handlers s (map_set Z.eqb handlerId handler (handlers s)), handlerId).

Definition removeMessageHandler (s : MessagingService) (handlerId : Z)
  : MessagingService :=
  if map_has Z.eqb handlerId (handlers s)
  then set_handlers s (map_delete Z.eqb handlerId (handlers s))
  else s.

Definition AtLeastOneInitializedChannel (s : MessagingService) : bool :=
  fold_left (fun atLeastOne element =>
               if initialized element then true else atLeastOne)
            (map_values (channels s)) false.

(** The registry holds an initialized channel under the token [t]. *)
Definition is_initialized (s : MessagingService) (t : string) : bool :=
  match map_get String.eqb t (channels s) with
  | Some channel => initialized channel
  | None => false
  end.

(** The channels in state [SYN]: created by [connectToFrame] and awaiting
    their first reply. *)
Definition awaiting_first_reply (s : MessagingService) : nat :=
  map_count (fun channel => is_SYN (state channel)) (channels s).

(** What [postMessage(data)] posts when every send returns: one wrapped
    message per initialized channel that has a window, in registry order. *)
Definition deliveries (s : MessagingService) (data : JsVal)
  (cs : list Channel) : list Effect :=
  flat_map (fun channel =>
              if initialized channel then
                match window channel with
                | Some w =>
                    [Sent w (PApp {| App.token := token channel;
                                     App.data := data |}) (target s)]
                | None => []
                end
              else []) cs.

Section Transport.
Variable transport : WindowProxy -> Posted -> bool.

Definition postMessageInternal (s : MessagingService) (data : Posted)
  (channel : Channel) : list Effect * Completion Error :=
  match window channel with
  | None => ([], Normal)
  | Some w =>
      if transport w data then ([Sent w data (target s)], Normal)
      else ([], Throw (SendFailed w))
  end.

Definition postInitializationMessage (s : MessagingService)
  (data : Init.Message) (channel : Channel) : list Effect * Completion Error :=
  postMessageInternal s (PInit data) channel.

(** The body of [this.channels.forEach(channel => ...)] in [postMessage]. *)
Fixpoint post_each (s : MessagingService) (data : JsVal)
  (cs : list Channel) : list Effect * Completion Error :=
  match cs with
  | [] => ([], Normal)
  | channel :: cs' =>
      if negb (initialized channel) then post_each s data cs'
      else
        let message := {| App.token := token channel; App.data := data |} in
        match postMessageInternal s (PApp message) channel with
        | (tr, Normal) =>
            let '(tr', c) := post_each s data cs' in (tr ++ tr', c)
        | (tr, Throw e) => (tr, Throw e)
        end
  end.

Definition postMessage (s : MessagingService) (data : JsVal)
  : Result MessagingService :=
  if Nat.eqb (map_size (channels s)) 0 then throws s [] NoChannel
  else if negb (AtLeastOneInitializedChannel s)
  then throws s [] NoInitializedChannel
  else
    let '(tr, c) := post_each s data (map_values (channels s)) in
    {| after := s; trace := tr; completion := c |}.

(** The guard of [connectToFrame]: [for (let [key, value] of this.channels)
    if (value.state != "SYN") return]. *)
Fixpoint initialization_ongoing (cs : list Channel) : bool :=
  match cs with
  | [] => false
  | value :: cs' =>
      if negb (is_SYN (state value)) then true else initialization_ongoing cs'
  end.

(** [connectToFrame(frame)]: [random] is the token drawn, [h] the handle of
    the timeout set by [delayConnectToFrame]. *)
Definition connectToFrame (s : MessagingService) (frame : HTMLIFrameElement)
  (random : string) (h : positive) : Result MessagingService :=
  if initialization_ongoing (map_values (channels s)) then returns s []
  else
    let s0 := set_channels s [] in
    let token := random in
    let channel := {| token := token;
                      destination := UNKNOWN_DESTINATION;
                      initialized := false;
                      window := contentWindow frame;
                      state := SYN |} in
    let s1 := set_channels s0 (map_set String.eqb token channel
                                       (channels s0)) in
    match postInitializationMessage s1
            {| Init.source := id s; Init.token := token;
               Init.state := "SYN"; Init.frame := 1 |} channel with
    | (tr, Throw e) => throws s1 tr e
    | (tr, Normal) =>
        let '(s2, tr') := delayConnectToFrame s1 h in
        returns s2 (tr ++ tr')
    end.

Definition clear_interval (s : MessagingService) : list Effect :=
  match interval s with
  | Some h => [ClearInterval h]
  | None => []
  end.

Definition initialize (s : MessagingService) (message : Init.Message)
  (src : option WindowProxy) : Result MessagingService :=
  if String.eqb (Init.state message) "SYN+ACK" then
    if negb (map_has String.eqb (Init.token message) (channels s))
    then returns s []
    else
      match map_get String.eqb (Init.token message) (channels s) with
      | None => throws s [] (UnexistingChannel (Init.token message))
      | Some channel =>
          let updatedOrNewChannel :=
            {| token := Init.token message;
               destination := Init.source message;
               initialized := true;
               window := window channel;
               state := ACK |} in
          let nextState := ACK in
          let s1 := set_channels s
                      (map_set String.eqb (Init.token message)
                               updatedOrNewChannel (channels s)) in
          match postInitializationMessage s1
                  {| Init.token := Init.token message;
                     Init.source := id s;
                     Init.state := state_name nextState;
                     Init.frame := (Init.frame message + 1)%float |}
                  updatedOrNewChannel with
          | (tr, Throw e) => throws s1 tr e
          | (tr, Normal) => returns s1 (tr ++ clear_interval s1)
          end
      end
  else if String.eqb (Init.state message) "SYN" then
    let updatedOrNewChannel :=
      {| token := Init.token message;
         destination := UNKNOWN_DESTINATION;
         initialized := false;
         window := src;
         state := SYN_ACK |} in
    let nextState := SYN_ACK in
    let s1 := set_channels s
                (map_set String.eqb (Init.token message)
                         updatedOrNewChannel (channels s)) in
    let '(tr, c) :=
      postInitializationMessage s1
        {| Init.token := Init.token message;
           Init.source := id s;
           Init.state := state_name nextState;
           Init.frame := (Init.frame message + 1)%float |}
        updatedOrNewChannel in
    {| after := s1; trace := tr; completion := c |}
  else if String.eqb (Init.state message) "ACK" then
    if negb (map_has String.eqb (Init.token message) (channels s))
    then returns s []
    else
      match map_get String.eqb (Init.token message) (channels s) with
      | None => throws s [] (UnexistingChannel (Init.token message))
      | Some channel =>
          let updatedOrNewChannel :=
            {| token := Init.token message;
               destination := Init.source message;
               initialized := true;
               window := window channel;
               state := FIN |} in
          returns (set_channels s
                     (map_set String.eqb (Init.token message)
                              updatedOrNewChannel (channels s))) []
      end
  else returns s [].

(** A sequence of inbound handshake messages, each with the [event.source]
    it came from, processed in order. *)
Definition initialize_all (s : MessagingService)
  (messages : list (Init.Message * option WindowProxy)) : MessagingService :=
  fold_left (fun s' m => after (initialize s' (fst m) (snd m))) messages s.

Definition dispatchEvent (s : MessagingService) (message : EventData)
  : Result MessagingService :=
  match token_of message with
  | None => returns s []
  | Some t =>
      if negb (map_has String.eqb t (channels s)) then returns s []
      else
        let '(tr, c) := call_handlers (handlers s) (data_of message) in
        {| after := s; trace := tr; completion := c |}
  end.

Definition listener (s : MessagingService) (event : MessageEvent)
  : Result MessagingService :=
  if negb (String.eqb (origin event) (target s))
  then throws s [] OriginMismatch
  else if truthy (data event) then
    match data event with
    | DInit initializationMessage =>
        if str_truthy (Init.state initializationMessage)
        then initialize s initializationMessage (source event)
        else dispatchEvent s (data event)
    | _ => dispatchEvent s (data event)
    end
  else returns s [].

(** *** The service in its host *)

Record System : Type := {
  service : MessagingService;
  live : list positive
}.

Inductive Input : Type :=
| Tick (h : positive) (random : string) (h' : positive)
    (* the timeout [h] elapses; [h'] is the next handle of the host *)
| Deliver (event : MessageEvent)
| AddHandler (handler : MessageHandler) (handlerId : Z)
| RemoveHandler (handlerId : Z)
| Post (d : JsVal).

Definition settle (timers : list positive) (r : Result MessagingService)
  : System :=
  {| service := after r; live := apply_effects (trace r) timers |}.

(** A timeout fires once: [h] leaves the table before its callback runs,
    with [this.frame] as the argument bound at [setTimeout]. *)
Definition step (sys : System) (i : Input) : System :=
  match i with
  | Tick h random h' =>
      if existsb (Pos.eqb h) (live sys) then
        let timers := filter (fun x => negb (Pos.eqb h x)) (live sys) in
        match frame (service sys) with
        | Some f => settle timers (connectToFrame (service sys) f random h')
        | None => {| service := service sys; live := timers |}
        end
      else sys
  | Deliver event => settle (live sys) (listener (service sys) event)
  | AddHandler handler handlerId =>
      {| service := fst (addMessageHandler (service sys) handler handlerId);
         live := live sys |}
  | RemoveHandler handlerId =>
      {| service := removeMessageHandler (service sys) handlerId;
         live := live sys |}
  | Post d => settle (live sys) (postMessage (service sys) d)
  end.

Definition run (sys : System) (inputs : list Input) : System :=
  fold_left step inputs sys.

Definition boot (target : string) (frame : option HTMLIFrameElement)
  (overrideId : option string) (random : string) (h : positive)
  : option System :=
  match constructor target frame overrideId random h with
  | inl _ => None
  | inr (s, tr) => Some {| service := s; live := apply_effects tr [] |}
  end.

End Transport.

End Handshake.

(** ** The generation before the states: channels opened by [{token,
    source}]

    The second [MessagingService] of [src/unnamed/part_002] (lines 102 to
    350): a handshake message carries a token and a source only, the first
    message for a token files a channel and the second one initializes it,
    and every accepted message is answered to [event.source]. It has its own
    wire messages, so its own effects and results. *)

Module Registry.

(** [interface ChannelInitializationMessage extends TokenMessage] *)
Record Hello : Type := {
  hello_token : string;
  hello_source : string
}.

Inductive EventData : Type :=
| DPrim (p : JsPrim)
| DHello (m : Hello)
| DApp (m : App.Message).

Record MessageEvent : Type := {
  origin : string;
  data : EventData;
  source : option WindowProxy
}.

Definition truthy (d : EventData) : bool :=
  match d with
  | DPrim p => prim_truthy p
  | DHello _ => true
  | DApp _ => true
  end.

Definition token_of (d : EventData) : option string :=
  match d with
  | DPrim _ => None
  | DHello m => Some (hello_token m)
  | DApp m => Some (App.token m)
  end.

Definition data_of (d : EventData) : JsVal :=
  match d with
  | DApp m => App.data m
  | _ => VPrim JUndefined
  end.

Inductive Error : Type :=
| WildcardTarget          (* "Don't use '*' as target." *)
| NoChannel               (* "No channel." *)
| NoInitializedChannel    (* "No channel initialized" *)
| NoFrameWindow           (* [throw new Error()] of connectToFrame *)
| OriginMismatch          (* "Origin does not match expected target" *)
| NullWindow              (* [postMessage] called on a null [event.source] *)
| SendFailed (w : WindowProxy)
| HandlerFailed (id : Z).

Inductive Posted : Type :=
| PHello (m : Hello)
| PData (m : App.Message).

Inductive Effect : Type :=
| Sent (w : WindowProxy) (m : Posted) (targetOrigin : string)
| Called (id : Z) (d : JsVal)
| ClearInterval (h : positive)
| SetTimer (h : positive).

Record Result (S : Type) : Type := {
  after : S;
  trace : list Effect;
  completion : Completion Error
}.

Definition returns {S : Type} (s : S) (tr : list Effect) : Result S :=
  {| after := s; trace := tr; completion := Normal |}.

Definition throws {S : Type} (s : S) (tr : list Effect) (e : Error)
  : Result S :=
  {| after := s; trace := tr; completion := Throw e |}.

Record Channel : Type := {
  destination : string;
  initialized : bool;
  token : string;
  window : option WindowProxy
}.

Record MessagingService : Type := {
  target : string;
  frame : option HTMLIFrameElement;
  id : string;
  interval : option positive;
  handlers : JsMap Z MessageHandler;
  channels : JsMap string Channel
}.

Definition set_channels (s : MessagingService) (c : JsMap string Channel)
  : MessagingService :=
  {| target := target s; frame := frame s; id := id s;
     interval := interval s; handlers := handlers s; channels := c |}.

Definition set_handlers (s : MessagingService) (h : JsMap Z MessageHandler)
  : MessagingService :=
  {| target := target s; frame := frame s; id := id s;
     interval := interval s; handlers := h; channels := channels s |}.

Definition constructor (target : string) (frame : option HTMLIFrameElement)
  (overrideId : option string) (random : string) (h : positive)
  : Error + MessagingService * list Effect :=
  if String.eqb target WILDCARD_TARGET then inl WildcardTarget
  else
    let id := match overrideId with Some i => i | None => random end in
    match frame with
    | Some f =>
        inr ({| target := target; frame := Some f; id := id;
                interval := Some h; handlers := []; channels := [] |},
             [SetTimer h])
    | None =>
        inr ({| target := target; frame := None; id := id;
                interval := None; handlers := []; channels := [] |}, [])
    end.

Definition addMessageHandler (s : MessagingService) (handler : MessageHandler)
  (handlerId : Z) : MessagingService * Z :=
  (set_handlers s (map_set Z.eqb handlerId handler (handlers s)), handlerId).

Definition removeMessageHandler (s : MessagingService) (handlerId : Z)
  : MessagingService :=
  if map_has Z.eqb handlerId (handlers s)
  then set_handlers s (map_delete Z.eqb handlerId (handlers s))
  else s.

Definition AtLeastOneInitializedChannel (s : MessagingService) : bool :=
  fold_left (fun atLeastOne element =>
               if initialized element then true else atLeastOne)
            (map_values (channels s)) false.

Definition is_initialized (s : MessagingService) (t : string) : bool :=
  match map_get String.eqb t (channels s) with
  | Some channel => initialized channel
  | None => false
  end.

Fixpoint call_handlers (hs : JsMap Z MessageHandler) (d : JsVal)
  : list Effect * Completion Error :=
  match hs with
  | [] => ([], Normal)
  | (i, h) :: hs' =>
      if h d then
        let '(tr, c) := call_handlers hs' d in (Called i d :: tr, c)
      else ([Called i d], Throw (HandlerFailed i))
  end.

Section Transport.
Variable transport : WindowProxy -> Posted -> bool.

(** [postMessageInternal(data, window)]: the window is not tested here. *)
Definition postMessageInternal (s : MessagingService) (data : Posted)
  (window : WindowProxy) : list Effect * Completion Error :=
  if transport window data then ([Sent window data (target s)], Normal)
  else ([], Throw (SendFailed window)).

Definition postInitializationMessage (s : MessagingService) (data : Hello)
  (window : WindowProxy) : list Effect * Completion Error :=
  postMessageInternal s (PHello data) window.

Fixpoint post_each (s : MessagingService) (data : JsVal)
  (cs : list Channel) : list Effect * Completion Error :=
  match cs with
  | [] => ([], Normal)
  | channel :: cs' =>
      match window channel with
      | None => post_each s data cs'
      | Some w =>
          let message := {| App.token := token channel; App.data := data |} in
          match postMessageInternal s (PData message) w with
          | (tr, Normal) =>
              let '(tr', c) := post_each s data cs' in (tr ++ tr', c)
          | (tr, Throw e) => (tr, Throw e)
          end
      end
  end.

Definition postMessage (s : MessagingService) (data : JsVal)
  : Result MessagingService :=
  if Nat.eqb (map_size (channels s)) 0 then throws s [] NoChannel
  else if negb (AtLeastOneInitializedChannel s)
  then throws s [] NoInitializedChannel
  else
    let '(tr, c) := post_each s data (map_values (channels s)) in
    {| after := s; trace := tr; completion := c |}.

Definition connectToFrame (s : MessagingService) (random : string)
  : Result MessagingService :=
  match frame s with
  | None => throws s [] NoFrameWindow
  | Some f =>
      match contentWindow f with
      | None => throws s [] NoFrameWindow
      | Some w =>
          let token := random in
          let channel := {| token := token;
                            destination := UNKNOWN_DESTINATION;
                            initialized := false;
                            window := Some w |} in
          let s1 := set_channels s (map_set String.eqb token channel
                                            (channels s)) in
          let '(tr, c) :=
            postInitializationMessage s1
              {| hello_source := id s; hello_token := token |} w in
          {| after := s1; trace := tr; completion := c |}
      end
  end.

Definition clear_interval (s : MessagingService) : list Effect :=
  match interval s with
  | Some h => [ClearInterval h]
  | None => []
  end.

(** The end of [initialize]: the answer to [event.source], cast to a
    window without a test, and the [clearInterval] after it. *)
Definition answer (s1 : MessagingService) (message : Hello)
  (src : option WindowProxy) : Result MessagingService :=
  match src with
  | None => throws s1 [] NullWindow
  | Some w =>
      match postInitializationMessage s1
              {| hello_token := hello_token message;
                 hello_source := id s1 |} w with
      | (tr, Throw e) => throws s1 tr e
      | (tr, Normal) => returns s1 (tr ++ clear_interval s1)
      end
  end.

Definition initialize (s : MessagingService) (message : Hello)
  (src : option WindowProxy) : Result MessagingService :=
  if map_has String.eqb (hello_token message) (channels s) then
    match map_get String.eqb (hello_token message) (channels s) with
    | None => returns s []
    | Some channel =>
        if initialized channel then returns s []
        else
          answer (set_channels s
                    (map_set String.eqb (hello_token message)
                       {| token := hello_token message;
                          destination := hello_source message;
                          initialized := true;
                          window := window channel |} (channels s)))
                 message src
    end
  else
    let newChannel := {| token := hello_token message;
                         destination := UNKNOWN_DESTINATION;
                         initialized := false;
                         window := src |} in
    answer (set_channels s
              (map_set String.eqb (hello_token message) newChannel
                       (channels s)))
           message src.

Definition dispatchEvent (s : MessagingService) (message : EventData)
  : Result MessagingService :=
  match token_of message with
  | None => returns s []
  | Some t =>
      if negb (map_has String.eqb t (channels s)) then returns s []
      else
        let '(tr, c) := call_handlers (handlers s) (data_of message) in
        {| after := s; trace := tr; completion := c |}
  end.

Definition listener (s : MessagingService) (event : MessageEvent)
  : Result MessagingService :=
  if negb (String.eqb (origin event) (target s))
  then throws s [] OriginMismatch
  else if truthy (data event) then
    match data event with
    | DHello initializationMessage =>
        if str_truthy (hello_source initializationMessage)
        then initialize s initializationMessage (source event)
        else dispatchEvent s (data event)
    | _ => dispatchEvent s (data event)
    end
  else returns s [].

(** A sequence of inbound events, processed in order. *)
Definition listen_all (s : MessagingService) (events : list MessageEvent)
  : MessagingService :=
  fold_left (fun s' event => after (listener s' event)) events s.

End Transport.

End Registry.

(** ** The first generation: one window found by a fixed token

    The first [MessagingService] of [src/unnamed/part_002] (lines 1 to 102):
    no registry, one flag [initialized] and one window [mainWindow]; the
    holder of the frame posts [{token: TOKEN}] every 10 ms until it is
    answered. Data is posted as it is given and handed to the handlers as it
    arrives, so a payload is a value of its own here. *)

Module Probe.

Definition TOKEN : string := "INITALIZATION_TOKEN".

(** [event.data] and the data given to [postMessage]: a primitive, or an
    object with or without a [token] property. *)
Inductive Payload : Type :=
| Prim (p : JsPrim)
| Obj (token : option string) (rest : JsFields).

Definition truthy (d : Payload) : bool :=
  match d with
  | Prim p => prim_truthy p
  | Obj _ _ => true
  end.

(** [(event.data as InitializationMessage).token == TOKEN] *)
Definition is_token_message (d : Payload) : bool :=
  match d with
  | Obj (Some t) _ => String.eqb t TOKEN
  | _ => false
  end.

(** [{token: TOKEN} as InitializationMessage] *)
Definition token_message : Payload := Obj (Some TOKEN) FNil.

Record MessageEvent : Type := {
  origin : string;
  data : Payload;
  source : option WindowProxy
}.

Inductive Error : Type :=
| WildcardTarget          (* "Don't use '*' as target." *)
| OriginMismatch          (* "Origin does not match expected target" *)
| NotInitialized          (* "Not initialized yet." *)
| NoFrame                 (* [throw new Error()] of initialize *)
| SendFailed (w : WindowProxy)
| HandlerFailed (index : nat).

(** A post with its [targetOrigin], when one is given. *)
Inductive Effect : Type :=
| Sent (w : WindowProxy) (m : Payload) (targetOrigin : option string)
| Called (index : nat) (d : Payload)
| ClearInterval (h : positive)
| SetTimer (h : positive).

Record Result (S : Type) : Type := {
  after : S;
  trace : list Effect;
  completion : Completion Error
}.

Definition returns {S : Type} (s : S) (tr : list Effect) : Result S :=
  {| after := s; trace := tr; completion := Normal |}.

Definition throws {S : Type} (s : S) (tr : list Effect) (e : Error)
  : Result S :=
  {| after := s; trace := tr; completion := Throw e |}.

Definition MessageHandler := Payload -> bool.

Record MessagingService : Type := {
  target : string;
  frame : option HTMLIFrameElement;
  mainWindow : option WindowProxy;
  initialized : bool;
  interval : option positive;
  handlers : list MessageHandler
}.

Definition constructor (target : string) (frame : option HTMLIFrameElement)
  (h : positive) : Error + MessagingService * list Effect :=
  if String.eqb target WILDCARD_TARGET then inl WildcardTarget
  else
    match frame with
    | Some f =>
        inr ({| target := target; frame := Some f; mainWindow := None;
                initialized := false; interval := Some h; handlers := [] |},
             [SetTimer h])
    | None =>
        inr ({| target := target; frame := None; mainWindow := None;
                initialized := false; interval := None; handlers := [] |},
             [])
    end.

Definition addMessageHandler (s : MessagingService) (handler : MessageHandler)
  : MessagingService :=
  {| target := target s; frame := frame s; mainWindow := mainWindow s;
     initialized := initialized s; interval := interval s;
     handlers := handlers s ++ [handler] |}.

(** [handlers.forEach(handler => handler(data))], from the index [i] on. *)
Fixpoint call_handlers (i : nat) (hs : list MessageHandler) (d : Payload)
  : list Effect * Completion Error :=
  match hs with
  | [] => ([], Normal)
  | h :: hs' =>
      if h d then
        let '(tr, c) := call_handlers (S i) hs' d in (Called i d :: tr, c)
      else ([Called i d], Throw (HandlerFailed i))
  end.

Definition dispatchEvent (s : MessagingService) (d : Payload)
  : Result MessagingService :=
  let '(tr, c) := call_handlers 0 (handlers s) d in
  {| after := s; trace := tr; completion := c |}.

Section Transport.
Variable transport : WindowProxy -> Payload -> bool.

(** [w?.postMessage(m, targetOrigin)] *)
Definition post (w : option WindowProxy) (m : Payload)
  (targetOrigin : option string) : list Effect * Completion Error :=
  match w with
  | None => ([], Normal)
  | Some w' =>
      if transport w' m then ([Sent w' m targetOrigin], Normal)
      else ([], Throw (SendFailed w'))
  end.

Definition clear_interval (s : MessagingService) : list Effect :=
  match interval s with
  | Some h => [ClearInterval h]
  | None => []
  end.

Definition listener (s : MessagingService) (event : MessageEvent)
  : Result MessagingService :=
  if negb (String.eqb (origin event) (target s))
  then throws s [] OriginMismatch
  else if truthy (data event) then
    if is_token_message (data event) then
      if initialized s then returns s []
      else
        let s1 := {| target := target s; frame := frame s;
                     mainWindow := source event;
                     initialized := initialized s; interval := interval s;
                     handlers := handlers s |} in
        match post (mainWindow s1) token_message None with
        | (tr, Throw e) => throws s1 tr e
        | (tr, Normal) =>
            let s2 := {| target := target s1; frame := frame s1;
                         mainWindow := mainWindow s1;
                         initialized := true; interval := interval s1;
                         handlers := handlers s1 |} in
            returns s2 (tr ++ clear_interval s2)
        end
    else dispatchEvent s (data event)
  else returns s [].

Definition postMessage (s : MessagingService) (d : Payload)
  : Result MessagingService :=
  if negb (initialized s) then throws s [] NotInitialized
  else
    match frame s with
    | Some f =>
        let '(tr, c) := post (contentWindow f) d (Some (target s)) in
        {| after := s; trace := tr; completion := c |}
    | None =>
        let '(tr, c) := post (mainWindow s) d None in
        {| after := s; trace := tr; completion := c |}
    end.

(** [initialize()], the callback of the interval. *)
Definition initialize (s : MessagingService) : Result MessagingService :=
  match frame s with
  | None => throws s [] NoFrame
  | Some f =>
      match mainWindow s with
      | Some _ => returns s []
      | None =>
          let '(tr, c) :=
            post (contentWindow f) token_message (Some (target s)) in
          {| after := s; trace := tr; completion := c |}
      end
  end.

Inductive Input : Type :=
| Tick
| Deliver (event : MessageEvent)
| AddHandler (handler : MessageHandler)
| Post (d : Payload).

Definition step (s : MessagingService) (i : Input) : MessagingService :=
  match i with
  | Tick => after (initialize s)
  | Deliver event => after (listener s event)
  | AddHandler handler => addMessageHandler s handler
  | Post d => after (postMessage s d)
  end.

Definition run (s : MessagingService) (inputs : list Input)
  : MessagingService :=
  fold_left step inputs s.

End Transport.

End Probe.

(** ** Sample parties

    The window "A" holds the frame of "B"; both trust the origin
    [sample_origin]. *)

Definition sample_origin : string := "http://127.0.0.1:8080".

Definition accept_all : WindowProxy -> Posted -> bool := fun _ _ => true.

(** A transport that refuses to post to window [1]. *)
Definition refuse_first : WindowProxy -> Posted -> bool :=
  fun w _ => negb (Nat.eqb w 1).

Definition handshake_event (t src st : string) (fr : float)
  (from : option WindowProxy) : MessageEvent :=
  {| origin := sample_origin;
     data := DInit {| Init.token := t; Init.source := src;
                      Init.state := st; Init.frame := fr |};
     source := from |}.

Definition syn_from_A : MessageEvent := handshake_event "t1" "A" "SYN" 1 (Some 7).
Definition synack_from_B : MessageEvent :=
  handshake_event "t1" "B" "SYN+ACK" 2 (Some 9).
Definition ack_from_A : MessageEvent := handshake_event "t1" "A" "ACK" 3 (Some 7).

Definition frame_of_B : HTMLIFrameElement := {| contentWindow := Some 9 |}.

Definition one_channel_service (hs : JsMap Z MessageHandler)
  : Connection.MessagingService :=
  {| Connection.target := sample_origin;
     Connection.frame := None;
     Connection.id := "B";
     Connection.interval := None;
     Connection.handlers := hs;
     Connection.channels :=
       [("t1", {| Connection.token := "t1";
                  Connection.destination := "A";
                  Connection.initialized := true;
                  Connection.window := Some 7 |})] |}.

Definition application_message : EventData :=
  DApp {| App.token := "t1"; App.data := VPrim (JStr "hello") |}.

(** The events by which a responder completes the handshake with the
    windows [1] and [2]. *)
Definition two_handshakes : list Handshake.Input :=
  [Handshake.Deliver (handshake_event "t1" "A" "SYN" 1 (Some 1));
   Handshake.Deliver (handshake_event "t1" "A" "ACK" 3 (Some 1));
   Handshake.Deliver (handshake_event "t2" "C" "SYN" 1 (Some 2));
   Handshake.Deliver (handshake_event "t2" "C" "ACK" 3 (Some 2))].

Definition handshake_responder : Handshake.System :=
  {| Handshake.service :=
       {| Handshake.target := sample_origin; Handshake.frame := None;
          Handshake.id := "B"; Handshake.interval := None;
          Handshake.handlers := []; Handshake.channels := [] |};
     Handshake.live := [] |}.

Definition connection_responder : Connection.System :=
  {| Connection.service :=
       {| Connection.target := sample_origin; Connection.frame := None;
          Connection.id := "B"; Connection.interval := None;
          Connection.handlers := []; Connection.channels := [] |};
     Connection.live := [] |}.

Definition wrapped (t : string) (w : WindowProxy) : Effect :=
  Sent w (PApp {| App.token := t; App.data := VPrim (JStr "x") |})
       sample_origin.

Definition message_of (event : MessageEvent)
  : list (Init.Message * option WindowProxy) :=
  match data event with
  | DInit m => [(m, source event)]
  | _ => []
  end.

Definition connection_initiator : Connection.System :=
  {| Connection.service :=
       {| Connection.target := sample_origin;
          Connection.frame := Some frame_of_B;
          Connection.id := "A"; Connection.interval := Some 1%positive;
          Connection.handlers := []; Connection.channels := [] |};
     Connection.live := [1%positive] |}.

Definition handshake_initiator : Handshake.System :=
  {| Handshake.service :=
       {| Handshake.target := sample_origin;
          Handshake.frame := Some frame_of_B;
          Handshake.id := "A"; Handshake.interval := Some 1%positive;
          Handshake.handlers := []; Handshake.channels := [] |};
     Handshake.live := [1%positive] |}.

(** ** Notions the statements use *)

(** The reply to a [SYN]: the frame is [message.frame + 1], a sum of
    JavaScript numbers. *)
Definition syn_ack_reply (self : string) (message : Init.Message) : Posted :=
  PInit {| Init.token := Init.token message;
           Init.source := self;
           Init.state := "SYN+ACK";
           Init.frame := (Init.frame message + 1)%float |}.

(** The reply to a [SYN+ACK], with the same sum. *)
Definition ack_reply (self : string) (message : Init.Message) : Posted :=
  PInit {| Init.token := Init.token message;
           Init.source := self;
           Init.state := "ACK";
           Init.frame := (Init.frame message + 1)%float |}.

(** [initialized == true] implies [destination != UNKNOWN_DESTINATION]. *)
Definition knows_destination (c : Connection.Channel) : Prop :=
  Connection.initialized c = true ->
  Connection.destination c <> UNKNOWN_DESTINATION.

Definition registry_knows (s : Connection.MessagingService) : Prop :=
  forall c, In c (map_values (Connection.channels s)) -> knows_destination c.

(** The responder "B" of the generation before the states, and the two
    messages of "A" that open the channel "t1". *)
Definition registry_responder : Registry.MessagingService :=
  {| Registry.target := sample_origin; Registry.frame := None;
     Registry.id := "B"; Registry.interval := None;
     Registry.handlers := []; Registry.channels := [] |}.

Definition registry_accept_all : WindowProxy -> Registry.Posted -> bool :=
  fun _ _ => true.

Definition hello_from_A (from : option WindowProxy) : Registry.MessageEvent :=
  {| Registry.origin := sample_origin;
     Registry.data := Registry.DHello {| Registry.hello_token := "t1";
                                         Registry.hello_source := "A" |};
     Registry.source := from |}.

(** A frame of the first generation that nobody has reached yet. *)
Definition probe_frame_side : Probe.MessagingService :=
  {| Probe.target := sample_origin; Probe.frame := None;
     Probe.mainWindow := None; Probe.initialized := false;
     Probe.interval := None; Probe.handlers := [] |}.

Definition probe_accept_all : WindowProxy -> Probe.Payload -> bool :=
  fun _ _ => true.

Definition probe_event (from : option WindowProxy) : Probe.MessageEvent :=
  {| Probe.origin := sample_origin; Probe.data := Probe.token_message;
     Probe.source := from |}.

(** The line the listener of [src/connection.ts] logs on every event of
    the trusted origin. *)
Definition receive_line (s : Connection.MessagingService) : Logged.LogLine :=
  [Logged.Text ("receive message on " ++ Connection.id s ++ ", type: "
                ++ Logged.GetType s)%string].

(** The number zero arrives at the responder "B". *)
Definition zero_event : MessageEvent :=
  {| origin := sample_origin; data := DPrim (JNum 0); source := Some 3 |}.

(** ** Notions the further statements use *)

(** The keys of a map, in insertion order. *)
Definition map_keys {K V : Type} (m : JsMap K V) : list K := map fst m.

(** Every post of the trace goes to the origin [o]. *)
Definition posts_only_to (o : string) (tr : list Effect) : Prop :=
  forall w m o', In (Sent w m o') tr -> o' = o.


(** The trace holds handler calls only: nothing is posted and no timer is
    set or cleared. *)
Definition only_calls_handlers (tr : list Effect) : Prop :=
  forall e, In e tr -> exists i d, e = Called i d.

(** Every registry entry of [src/connection.ts] is filed under its own
    token, and no token is filed twice. *)
Definition connection_registry_keyed (s : Connection.MessagingService)
  : Prop :=
  (forall k c, In (k, c) (Connection.channels s) -> Connection.token c = k) /\
  NoDup (map_keys (Connection.channels s)).

Definition handshake_registry_keyed (s : Handshake.MessagingService)
  : Prop :=
  (forall k c, In (k, c) (Handshake.channels s) -> Handshake.token c = k) /\
  NoDup (map_keys (Handshake.channels s)).

(** [initialized] follows the state of the record: false and without a
    destination in [SYN] and [SYN+ACK], true in [ACK] and [FIN]. *)
Definition state_coherent (c : Handshake.Channel) : Prop :=
  match Handshake.state c with
  | Handshake.SYN | Handshake.SYN_ACK =>
      Handshake.initialized c = false /\
      Handshake.destination c = UNKNOWN_DESTINATION
  | Handshake.ACK | Handshake.FIN => Handshake.initialized c = true
  end.

(** The host holds no timer but the one the service remembers. *)
Definition handshake_timer_known (sys : Handshake.System) : Prop :=
  Handshake.live sys = [] \/
  exists h, Handshake.live sys = [h] /\
            Handshake.interval (Handshake.service sys) = Some h.

(** The [SYN] that [connectToFrame] posts. *)
Definition syn_message (self token : string) : Posted :=
  PInit {| Init.source := self; Init.token := token;
           Init.state := "SYN"; Init.frame := 1 |}.

(** The trace sets no timer. *)
Definition sets_no_timer (tr : list Effect) : Prop :=
  forall h, ~ In (SetTimer h) tr.

(** Every inbound handshake message of the input satisfies [ok]. *)
Definition handshake_input_ok (ok : Init.Message -> Prop)
  (i : Handshake.Input) : Prop :=
  match i with
  | Handshake.Deliver event =>
      match data event with
      | DInit m => ok m
      | _ => True
      end
  | _ => True
  end.

(** The input is a call of the user: no timer and no inbound event. *)
Definition user_call (i : Connection.Input) : Prop :=
  match i with
  | Connection.AddHandler _ _ => True
  | Connection.RemoveHandler _ => True
  | Connection.Post _ => True
  | _ => False
  end.

(** The service with the channel [c] filed under its own token. *)
Definition connection_files (s : Connection.MessagingService)
  (c : Connection.Channel) : Connection.MessagingService :=
  Connection.set_channels s
    (map_set String.eqb (Connection.token c) c (Connection.channels s)).

Definition handshake_files (s : Handshake.MessagingService)
  (c : Handshake.Channel) : Handshake.MessagingService :=
  Handshake.set_channels s
    (map_set String.eqb (Handshake.token c) c (Handshake.channels s)).

(** The channel [connectToFrame] creates in the generation with states. *)
Definition syn_channel (f : HTMLIFrameElement) (token : string)
  : Handshake.Channel :=
  {| Handshake.destination := UNKNOWN_DESTINATION;
     Handshake.initialized := false;
     Handshake.token := token;
     Handshake.state := Handshake.SYN;
     Handshake.window := contentWindow f |}.

(** * Properties *)

Unset Implicit Arguments.

(** ** The sample parties are constructed services *)

Lemma sample_parties_are_constructed :
  Connection.boot sample_origin None (Some "B") "0" 1%positive
  = Some connection_responder /\
  Connection.boot sample_origin (Some frame_of_B) (Some "A") "0" 1%positive
  = Some connection_initiator /\
  Handshake.boot sample_origin None (Some "B") "0" 1%positive
  = Some handshake_responder /\
  Handshake.boot sample_origin (Some frame_of_B) (Some "A") "0" 1%positive
  = Some handshake_initiator.
Proof. repeat split. Qed.

(** The any-origin target is refused at construction. *)
Lemma wildcard_target_is_refused :
  forall frame overrideId random h,
    Connection.constructor WILDCARD_TARGET frame overrideId random h
    = inl WildcardTarget /\
    Handshake.constructor WILDCARD_TARGET frame overrideId random h
    = inl WildcardTarget.
Proof. intros. split; reflexivity. Qed.

(** The full handshake of the two parties, in the generation with channel
    states: the initiator's timer fires and posts [SYN]; the responder
    answers [SYN+ACK]; the initiator answers [ACK] and cancels its timer. *)
Lemma full_handshake :
  let a1 := Handshake.step accept_all handshake_initiator
              (Handshake.Tick 1%positive "t1" 2%positive) in
  let b1 := Handshake.listener accept_all
              (Handshake.service handshake_responder) syn_from_A in
  let a2 := Handshake.listener accept_all (Handshake.service a1)
              synack_from_B in
  let b2 := Handshake.listener accept_all (after b1) ack_from_A in
  trace b1 = [Sent 7 (syn_ack_reply "B" {| Init.token := "t1";
                                           Init.source := "A";
                                           Init.state := "SYN";
                                           Init.frame := 1 |})
                   sample_origin] /\
  trace a2 = [Sent 9 (PInit {| Init.token := "t1"; Init.source := "A";
                               Init.state := "ACK"; Init.frame := 3 |})
                   sample_origin;
              ClearInterval 2%positive] /\
  Handshake.live (Handshake.settle (Handshake.live a1) a2) = [] /\
  Handshake.channels (after a2)
  = [("t1", {| Handshake.destination := "B";
               Handshake.initialized := true;
               Handshake.token := "t1";
               Handshake.state := Handshake.ACK;
               Handshake.window := Some 9 |})] /\
  Handshake.channels (after b2)
  = [("t1", {| Handshake.destination := "A";
               Handshake.initialized := true;
               Handshake.token := "t1";
               Handshake.state := Handshake.FIN;
               Handshake.window := Some 7 |})].
Proof. repeat split. Qed.

(** ** Maps *)

Section JsMapFacts.
Variables K V : Type.
Variable eqb : K -> K -> bool.
Hypothesis eqb_spec : forall a b, eqb a b = true <-> a = b.

Lemma key_eqb_refl : forall k, eqb k k = true.
Proof. intro k. apply eqb_spec. reflexivity. Qed.

Lemma key_eqb_neq : forall a b, a <> b -> eqb a b = false.
Proof.
  intros a b Hne. destruct (eqb a b) eqn:E; [|reflexivity].
  apply eqb_spec in E. contradiction.
Qed.

Lemma map_get_set_same :
  forall k (v : V) m, map_get eqb k (map_set eqb k v m) = Some v.
Proof.
  intros k v m. induction m as [|[k' v'] m IH]; simpl.
  - rewrite key_eqb_refl. reflexivity.
  - destruct (eqb k k') eqn:E; simpl.
    + rewrite key_eqb_refl. reflexivity.
    + rewrite E. exact IH.
Qed.

Lemma map_get_set_other :
  forall k k' (v : V) m,
    k' <> k -> map_get eqb k' (map_set eqb k v m) = map_get eqb k' m.
Proof.
  intros k k' v m Hne. induction m as [|[k0 v0] m IH]; simpl.
  - rewrite (key_eqb_neq _ _ Hne). reflexivity.
  - destruct (eqb k k0) eqn:E; simpl.
    + apply eqb_spec in E. subst k0. rewrite (key_eqb_neq _ _ Hne). reflexivity.
    + rewrite IH. reflexivity.
Qed.

Lemma map_set_values_in :
  forall k (v : V) m x,
    In x (map_values (map_set eqb k v m)) -> x = v \/ In x (map_values m).
Proof.
  intros k v m x. unfold map_values.
  induction m as [|[k0 v0] m IH]; simpl.
  - intros [H|[]]. left. symmetry. exact H.
  - destruct (eqb k k0); simpl.
    + intros [H|H]; [left; symmetry; exact H | right; right; exact H].
    + intros [H|H]; [right; left; exact H|].
      destruct (IH H) as [H1|H1]; [left; exact H1 | right; right; exact H1].
Qed.

Lemma map_count_set_false :
  forall p k (v : V) m,
    p v = false -> map_count p (map_set eqb k v m) <= map_count p m.
Proof.
  intros p k v m Hv. unfold map_count, map_values.
  induction m as [|[k0 v0] m IH]; simpl.
  - rewrite Hv. simpl. lia.
  - destruct (eqb k k0); simpl.
    + rewrite Hv. destruct (p v0); simpl; lia.
    + destruct (p v0); simpl; lia.
Qed.
End JsMapFacts.

Lemma string_eqb_spec : forall a b : string, String.eqb a b = true <-> a = b.
Proof. exact String.eqb_eq. Qed.

(** [forEach] with a flag is [existsb]. *)
Lemma flag_fold_existsb :
  forall (A : Type) (p : A -> bool) (l : list A) (acc : bool),
    fold_left (fun atLeastOne x => if p x then true else atLeastOne) l acc
    = orb acc (existsb p l).
Proof.
  intros A p l. induction l as [|x l IH]; intro acc; simpl.
  - rewrite orb_false_r. reflexivity.
  - rewrite IH. destruct (p x), acc; reflexivity.
Qed.

(** ** The listener's gates ([src/connection.ts]) *)

(** C8. An inbound event whose origin differs from the configured target
    makes [listener] throw "Origin does not match expected target" before any
    routing: the service is left as it was and nothing is posted, no handler
    is called and no timer is touched (the trace of effects is empty). *)
Theorem listener_rejects_foreign_origin :
  forall transport (s : Connection.MessagingService) (event : MessageEvent),
    origin event <> Connection.target s ->
    Connection.listener transport s event = throws s [] OriginMismatch.
Proof.
  intros transport s event Hne. unfold Connection.listener.
  destruct (String.eqb (origin event) (Connection.target s)) eqn:E.
  - apply String.eqb_eq in E. contradiction.
  - reflexivity.
Qed.

(** Logger apart, an inbound event of the configured origin whose payload
    is one of the falsy values [null], [undefined], [0], the empty string or
    [false] makes [listener] return with the service as it was: no channel
    created or changed, no handler called, no reply posted, the retry timer
    untouched. *)
Lemma listener_ignores_falsy_payload :
  forall transport (s : Connection.MessagingService) (event : MessageEvent)
         (p : JsPrim),
    origin event = Connection.target s ->
    data event = DPrim p ->
    In p [JNull; JUndefined; JNum 0; JStr ""; JBool false] ->
    Connection.listener transport s event = returns s [].
Proof.
  intros transport s event p Ho Hd Hp. unfold Connection.listener.
  rewrite Ho, String.eqb_refl, Hd. simpl.
  assert (Hf : prim_truthy p = false).
  { simpl in Hp.
    destruct Hp as [<-|[<-|[<-|[<-|[<-|[]]]]]]; reflexivity. }
  rewrite Hf. reflexivity.
Qed.

(** A [SYN] from another origin is refused by the responder. *)
Lemma listener_rejects_foreign_origin_witness :
  let s := {| Connection.target := sample_origin;
              Connection.frame := None;
              Connection.id := "B";
              Connection.interval := None;
              Connection.handlers := [(5%Z, fun _ => true)];
              Connection.channels := [] |} in
  let event := {| origin := "http://evil.example";
                  data := data syn_from_A;
                  source := Some 3 |} in
  Connection.listener accept_all s event = throws s [] OriginMismatch.
Proof.
  intros s event.
  apply (@listener_rejects_foreign_origin accept_all s event).
  simpl. discriminate.
Defined.


(** ** Posting application data ([src/connection.ts]) *)

Lemma connection_at_least_one_existsb :
  forall s : Connection.MessagingService,
    Connection.AtLeastOneInitializedChannel s
    = existsb Connection.initialized (map_values (Connection.channels s)).
Proof.
  intro s. unfold Connection.AtLeastOneInitializedChannel.
  rewrite flag_fold_existsb. reflexivity.
Qed.

Lemma connection_post_each_completion :
  forall transport s d cs,
    snd (Connection.post_each transport s d cs) = Normal \/
    exists w, snd (Connection.post_each transport s d cs)
              = Throw (SendFailed w).
Proof.
  intros transport s d cs. induction cs as [|c cs IH]; simpl.
  - left. reflexivity.
  - unfold Connection.postMessageInternal.
    destruct (Connection.window c) as [w|].
    + destruct (transport w _).
      * destruct (Connection.post_each transport s d cs) as [tr' c'].
        exact IH.
      * right. exists w. reflexivity.
    + destruct (Connection.post_each transport s d cs) as [tr' c'].
      exact IH.
Qed.

Lemma connection_postMessage_after :
  forall transport s d,
    after (Connection.postMessage transport s d) = s.
Proof.
  intros transport s d. unfold Connection.postMessage.
  destruct (Nat.eqb _ 0); [reflexivity|].
  destruct (negb _); [reflexivity|].
  destruct (Connection.post_each _ _ _ _). reflexivity.
Qed.

Lemma connection_postMessage_cases :
  forall transport (s : Connection.MessagingService) (d : JsVal),
    (Connection.channels s = [] /\
     Connection.postMessage transport s d = throws s [] NoChannel) \/
    (Connection.channels s <> [] /\
     existsb Connection.initialized (map_values (Connection.channels s))
     = false /\
     Connection.postMessage transport s d
     = throws s [] NoInitializedChannel) \/
    (Connection.channels s <> [] /\
     existsb Connection.initialized (map_values (Connection.channels s))
     = true /\
     (completion (Connection.postMessage transport s d) = Normal \/
      exists w, completion (Connection.postMessage transport s d)
                = Throw (SendFailed w))).
Proof.
  intros transport s d. unfold Connection.postMessage.
  rewrite connection_at_least_one_existsb.
  destruct (Connection.channels s) as [|kv cs] eqn:Hc.
  - left. split; reflexivity.
  - right. unfold map_size. cbn [List.length Nat.eqb].
    destruct (existsb Connection.initialized (map_values (kv :: cs))) eqn:Hex.
    + right. split; [discriminate|]. split; [reflexivity|].
      cbn [negb].
      pose proof (connection_post_each_completion transport s d
                    (map_values (kv :: cs))) as Hpc.
      destruct (Connection.post_each transport s d (map_values (kv :: cs)))
        as [tr c].
      exact Hpc.
    + left. split; [discriminate|]. split; reflexivity.
Qed.

(** C3. [postMessage(data)] throws "No channel." exactly when the registry
    is empty, and "No channel initialized" exactly when the registry is not
    empty and no channel in it is initialized; when it throws either, the
    service is as before and the trace of effects is empty (nothing was
    posted). *)
Theorem postMessage_failures :
  forall transport (s : Connection.MessagingService) (d : JsVal),
    let r := Connection.postMessage transport s d in
    (completion r = Throw NoChannel <-> Connection.channels s = []) /\
    (completion r = Throw NoInitializedChannel <->
       Connection.channels s <> [] /\
       forall c, In c (map_values (Connection.channels s)) ->
                 Connection.initialized c = false) /\
    (completion r = Throw NoChannel \/
     completion r = Throw NoInitializedChannel ->
       after r = s /\ trace r = []).
Proof.
  intros transport s d r. subst r.
  destruct (connection_postMessage_cases transport s d)
    as [[Hc Hr] | [[Hc [Hex Hr]] | [Hc [Hex Hr]]]].
  - rewrite Hr. simpl. split; [split; [intros _; exact Hc | reflexivity]|].
    split.
    + split; [discriminate | intros [H _]; contradiction].
    + intros _. split; reflexivity.
  - rewrite Hr. simpl. split; [split; [discriminate | intro; contradiction]|].
    split.
    + split; [|reflexivity]. intros _. split; [exact Hc|].
      intros c Hin.
      destruct (Connection.initialized c) eqn:Hi; [|reflexivity].
      assert (existsb Connection.initialized
                (map_values (Connection.channels s)) = true)
        by (apply existsb_exists; exists c; split; assumption).
      congruence.
    + intros _. split; reflexivity.
  - assert (Hn1 : completion (Connection.postMessage transport s d)
                  <> Throw NoChannel).
    { destruct Hr as [-> | [w ->]]; discriminate. }
    assert (Hn2 : completion (Connection.postMessage transport s d)
                  <> Throw NoInitializedChannel).
    { destruct Hr as [-> | [w ->]]; discriminate. }
    split; [split; intro; contradiction|]. split.
    + split; [intro; contradiction|]. intros [_ Hall].
      apply existsb_exists in Hex. destruct Hex as [x [Hin Hx]].
      rewrite (Hall x Hin) in Hx. discriminate.
    + intros [H|H]; contradiction.
Qed.

(** ** Dispatching to handlers ([src/connection.ts]) *)

Lemma call_handlers_all_return :
  forall hs d,
    (forall i h, In (i, h) hs -> h d = true) ->
    call_handlers hs d = (calls hs d, Normal).
Proof.
  intros hs d. induction hs as [|[i h] hs IH]; intro Hall; simpl.
  - reflexivity.
  - rewrite (Hall i h) by (left; reflexivity).
    rewrite IH by (intros j g Hin; apply (Hall j g); right; exact Hin).
    reflexivity.
Qed.

Lemma call_handlers_first_throw :
  forall pre i h post d,
    (forall j g, In (j, g) pre -> g d = true) ->
    h d = false ->
    call_handlers (pre ++ (i, h) :: post) d
    = (calls pre d ++ [Called i d], Throw (HandlerFailed i)).
Proof.
  intros pre i h post d. induction pre as [|[j g] pre IH]; intros Hall Hh.
  - simpl. rewrite Hh. reflexivity.
  - simpl. rewrite (Hall j g) by (left; reflexivity).
    rewrite IH; [reflexivity | | exact Hh].
    intros j' g' Hin. apply (Hall j' g'). right. exact Hin.
Qed.

(** C9 (as the code has it). An inbound application message whose token has
    a registry entry makes [dispatchEvent] call the registered handlers with
    the message's [data], in the order of registration: all of them when none
    throws; up to and including the first one that throws otherwise, whose
    exception ends the dispatch, so the handlers registered after it are not
    called. *)
Theorem dispatch_calls_handlers_until_throw :
  forall (s : Connection.MessagingService) (message : EventData) (t : string),
    token_of message = Some t ->
    map_has String.eqb t (Connection.channels s) = true ->
    ((forall i h, In (i, h) (Connection.handlers s) ->
                  h (data_of message) = true) ->
     Connection.dispatchEvent s message
     = returns s (calls (Connection.handlers s) (data_of message))) /\
    (forall pre i h post,
        Connection.handlers s = pre ++ (i, h) :: post ->
        (forall j g, In (j, g) pre -> g (data_of message) = true) ->
        h (data_of message) = false ->
        Connection.dispatchEvent s message
        = throws s (calls pre (data_of message)
                    ++ [Called i (data_of message)])
                 (HandlerFailed i)).
Proof.
  intros s message t Ht Hhas. unfold Connection.dispatchEvent.
  rewrite Ht, Hhas. cbn [negb]. split.
  - intro Hall. rewrite (call_handlers_all_return _ _ Hall). reflexivity.
  - intros pre i h post Hhs Hpre Hh. rewrite Hhs.
    rewrite (call_handlers_first_throw _ _ _ _ _ Hpre Hh). reflexivity.
Qed.

(** Two handlers that return are both called, in order. *)
Lemma dispatch_calls_handlers_until_throw_witness :
  Connection.dispatchEvent
    (one_channel_service [(1%Z, fun _ => true); (2%Z, fun _ => true)])
    application_message
  = returns
      (one_channel_service [(1%Z, fun _ => true); (2%Z, fun _ => true)])
      [Called 1 (VPrim (JStr "hello")); Called 2 (VPrim (JStr "hello"))].
Proof.
  apply (proj1 (@dispatch_calls_handlers_until_throw
                  (one_channel_service
                     [(1%Z, fun _ => true); (2%Z, fun _ => true)])
                  application_message "t1" eq_refl eq_refl)).
  simpl. intros i h [H|[H|[]]]; inversion H; reflexivity.
Defined.

(** C9, the claim as stated, fails: the first registered handler throws and
    the second one, registered as well, is never called. *)
Lemma dispatch_throwing_handler_blocks_the_rest :
  let s := one_channel_service [(1%Z, fun _ => false); (2%Z, fun _ => true)] in
  map_has String.eqb "t1" (Connection.channels s) = true /\
  map_has Z.eqb 2%Z (Connection.handlers s) = true /\
  Connection.dispatchEvent s application_message
  = throws s [Called 1 (VPrim (JStr "hello"))] (HandlerFailed 1) /\
  ~ In (Called 2 (VPrim (JStr "hello")))
       (trace (Connection.dispatchEvent s application_message)).
Proof.
  simpl. repeat split. intros [H|[]]. discriminate H.
Qed.

(** ** Posting application data (the generation with channel states) *)

Lemma handshake_at_least_one_existsb :
  forall s : Handshake.MessagingService,
    Handshake.AtLeastOneInitializedChannel s
    = existsb Handshake.initialized (map_values (Handshake.channels s)).
Proof.
  intro s. unfold Handshake.AtLeastOneInitializedChannel.
  rewrite flag_fold_existsb. reflexivity.
Qed.

Lemma handshake_post_each_delivers :
  forall transport s d cs,
    (forall w m, transport w m = true) ->
    Handshake.post_each transport s d cs
    = (Handshake.deliveries s d cs, Normal).
Proof.
  intros transport s d cs Hok. induction cs as [|c cs IH].
  - reflexivity.
  - cbn [Handshake.post_each Handshake.deliveries flat_map].
    destruct (Handshake.initialized c); cbn [negb].
    + unfold Handshake.postMessageInternal.
      destruct (Handshake.window c) as [w|].
      * rewrite Hok, IH. reflexivity.
      * rewrite IH. reflexivity.
    + exact IH.
Qed.

Lemma handshake_post_each_throws :
  forall transport s d pre c w post,
    (forall w' m, In (Sent w' m (Handshake.target s))
                     (Handshake.deliveries s d pre) ->
                  transport w' m = true) ->
    Handshake.initialized c = true ->
    Handshake.window c = Some w ->
    transport w (PApp {| App.token := Handshake.token c; App.data := d |})
    = false ->
    Handshake.post_each transport s d (pre ++ c :: post)
    = (Handshake.deliveries s d pre, Throw (SendFailed w)).
Proof.
  intros transport s d pre c w post Hpre Hi Hw Hno.
  induction pre as [|x pre IH].
  - cbn [app Handshake.post_each Handshake.deliveries flat_map].
    rewrite Hi. cbn [negb]. unfold Handshake.postMessageInternal.
    rewrite Hw, Hno. reflexivity.
  - cbn [app Handshake.post_each Handshake.deliveries flat_map] in *.
    destruct (Handshake.initialized x); cbn [negb].
    + unfold Handshake.postMessageInternal.
      destruct (Handshake.window x) as [wx|].
      * rewrite (Hpre wx _) by (left; reflexivity).
        rewrite IH; [reflexivity|].
        intros w' m Hin. apply Hpre. right. exact Hin.
      * rewrite IH; [reflexivity | exact Hpre].
    + apply IH. exact Hpre.
Qed.

Lemma connection_post_each_delivers :
  forall transport s d cs,
    (forall w m, transport w m = true) ->
    Connection.post_each transport s d cs
    = (Connection.deliveries s d cs, Normal).
Proof.
  intros transport s d cs Hok. induction cs as [|c cs IH].
  - reflexivity.
  - cbn [Connection.post_each Connection.deliveries flat_map].
    unfold Connection.postMessageInternal.
    destruct (Connection.window c) as [w|].
    + rewrite Hok, IH. reflexivity.
    + rewrite IH. reflexivity.
Qed.

(** C4 (as the code has it). In the generation that skips in [postMessage],
    when at least one channel is initialized: if no send throws,
    [postMessage(data)] posts the wrapped message [{token, data}] to the
    window of every initialized channel that has one, in registry order, and
    nothing to an uninitialized channel; if the send to an initialized
    channel throws, the channels before it have been posted to and the
    channels after it are not. In [src/connection.ts], if no send throws,
    every channel that has a window is posted to, initialized or not. The
    service is unchanged in each case. *)
Theorem postMessage_reaches_initialized_channels :
  forall transport (s : Handshake.MessagingService)
         (s0 : Connection.MessagingService) (d : JsVal),
    Handshake.AtLeastOneInitializedChannel s = true ->
    ((forall w m, transport w m = true) ->
     Handshake.postMessage transport s d
     = returns s (Handshake.deliveries s d
                    (map_values (Handshake.channels s)))) /\
    (forall pre c w post,
        map_values (Handshake.channels s) = pre ++ c :: post ->
        (forall w' m, In (Sent w' m (Handshake.target s))
                         (Handshake.deliveries s d pre) ->
                      transport w' m = true) ->
        Handshake.initialized c = true ->
        Handshake.window c = Some w ->
        transport w (PApp {| App.token := Handshake.token c;
                             App.data := d |}) = false ->
        Handshake.postMessage transport s d
        = throws s (Handshake.deliveries s d pre) (SendFailed w)) /\
    ((forall w m, transport w m = true) ->
     Connection.AtLeastOneInitializedChannel s0 = true ->
     Connection.postMessage transport s0 d
     = returns s0 (Connection.deliveries s0 d
                     (map_values (Connection.channels s0)))).
Proof.
  intros transport s s0 d Hone. split; [|split].
  - intro Hok. unfold Handshake.postMessage.
    rewrite Hone. cbn [negb].
    rewrite handshake_at_least_one_existsb in Hone.
    destruct (Handshake.channels s) as [|kv cs] eqn:Hc.
    + discriminate Hone.
    + unfold map_size. cbn [List.length Nat.eqb].
      rewrite (handshake_post_each_delivers transport s d _ Hok).
      reflexivity.
  - intros pre c w post Hvals Hpre Hi Hw Hno. unfold Handshake.postMessage.
    rewrite Hone. cbn [negb].
    destruct (Handshake.channels s) as [|kv cs] eqn:Hc.
    + destruct pre; discriminate Hvals.
    + unfold map_size. cbn [List.length Nat.eqb].
      rewrite Hvals.
      rewrite (handshake_post_each_throws transport s d pre c w post
                 Hpre Hi Hw Hno).
      reflexivity.
  - intros Hok Hone0. unfold Connection.postMessage.
    rewrite Hone0. cbn [negb].
    rewrite connection_at_least_one_existsb in Hone0.
    destruct (Connection.channels s0) as [|kv cs] eqn:Hc.
    + discriminate Hone0.
    + unfold map_size. cbn [List.length Nat.eqb].
      rewrite (connection_post_each_delivers transport s0 d _ Hok).
      reflexivity.
Qed.

(** A responder with two initialized channels posts to both. *)
Lemma postMessage_reaches_initialized_channels_witness :
  let s := Handshake.service
             (Handshake.run accept_all handshake_responder two_handshakes) in
  Handshake.postMessage accept_all s (VPrim (JStr "x"))
  = returns s [wrapped "t1" 1; wrapped "t2" 2].
Proof.
  intro s.
  apply (proj1 (postMessage_reaches_initialized_channels accept_all s
                  (Connection.service connection_responder)
                  (VPrim (JStr "x")) eq_refl)).
  reflexivity.
Defined.

(** C4, the claim as stated, fails twice. In [src/connection.ts] the channel
    "t2", not initialized, is posted to like the initialized "t1". In the
    generation that skips, once the transport refuses window [1], the send
    to the first initialized channel throws and the second initialized
    channel is never posted to. *)
Lemma postMessage_no_skip_no_isolation :
  (Handshake.boot sample_origin None (Some "B") "0" 1%positive
   = Some handshake_responder /\
   Connection.boot sample_origin None (Some "B") "0" 1%positive
   = Some connection_responder) /\
  (let s := Connection.service
              (Connection.run accept_all connection_responder
                 [Connection.Deliver (handshake_event "t1" "A" "SYN" 1 (Some 1));
                  Connection.Deliver (handshake_event "t1" "A" "ACK" 3 (Some 1));
                  Connection.Deliver (handshake_event "t2" "C" "SYN" 1 (Some 2))])
   in
   Connection.is_initialized s "t1" = true /\
   Connection.is_initialized s "t2" = false /\
   Connection.postMessage accept_all s (VPrim (JStr "x"))
   = returns s [wrapped "t1" 1; wrapped "t2" 2]) /\
  (let s := Handshake.service
              (Handshake.run accept_all handshake_responder two_handshakes)
   in
   Handshake.is_initialized s "t1" = true /\
   Handshake.is_initialized s "t2" = true /\
   Handshake.postMessage refuse_first s (VPrim (JStr "x"))
   = throws s [] (SendFailed 1)).
Proof.
  repeat split.
Qed.

(** ** The handshake: what a message does to the [initialized] flag *)

Ltac same_or_other t t' :=
  destruct (String.eqb_spec t t') as [?|?];
  [ subst; rewrite (map_get_set_same _ _ String.eqb string_eqb_spec)
  | rewrite (map_get_set_other _ _ String.eqb string_eqb_spec) by assumption ].

Lemma connection_initialize_keeps_initialized :
  forall transport (s : Connection.MessagingService) t message src,
    Init.state message <> "SYN" \/ Init.token message <> t ->
    Connection.is_initialized s t = true ->
    Connection.is_initialized
      (after (Connection.initialize transport s message src)) t = true.
Proof.
  intros transport s t message src Hm Hinit.
  unfold Connection.initialize.
  destruct (String.eqb_spec (Init.state message) "SYN+ACK") as [E1|E1].
  - destruct (map_has String.eqb (Init.token message)
                (Connection.channels s)); [|exact Hinit].
    destruct (map_get String.eqb (Init.token message)
                (Connection.channels s)) as [c|]; [|exact Hinit].
    destruct (Connection.initialized c); [exact Hinit|].
    assert (Hs1 : Connection.is_initialized
              (Connection.set_channels s
                 (map_set String.eqb (Init.token message)
                    {| Connection.destination := Init.source message;
                       Connection.initialized := true;
                       Connection.token := Init.token message;
                       Connection.window := Connection.window c |}
                    (Connection.channels s))) t = true).
    { unfold Connection.is_initialized in *. cbn [Connection.set_channels
        Connection.channels].
      same_or_other t (Init.token message); [reflexivity | exact Hinit]. }
    destruct (Connection.postInitializationMessage _ _ _ _) as [tr [|e]];
      exact Hs1.
  - destruct (String.eqb_spec (Init.state message) "SYN") as [E2|E2].
    + destruct Hm as [Hm|Hm]; [contradiction|].
      destruct (Connection.postInitializationMessage _ _ _ _) as [tr c].
      unfold Connection.is_initialized in *.
      cbn [after Connection.set_channels Connection.channels].
      rewrite (map_get_set_other _ _ String.eqb string_eqb_spec)
        by (intro H; apply Hm; symmetry; exact H).
      exact Hinit.
    + destruct (String.eqb_spec (Init.state message) "ACK") as [E3|E3];
        [|exact Hinit].
      destruct (map_has String.eqb (Init.token message)
                  (Connection.channels s)); [|exact Hinit].
      destruct (map_get String.eqb (Init.token message)
                  (Connection.channels s)) as [c|]; [|exact Hinit].
      destruct (Connection.initialized c); [exact Hinit|].
      unfold Connection.is_initialized in *.
      cbn [after returns Connection.set_channels Connection.channels].
      same_or_other t (Init.token message); [reflexivity | exact Hinit].
Qed.

Lemma handshake_initialize_keeps_initialized :
  forall transport (s : Handshake.MessagingService) t message src,
    Init.state message <> "SYN" \/ Init.token message <> t ->
    Handshake.is_initialized s t = true ->
    Handshake.is_initialized
      (after (Handshake.initialize transport s message src)) t = true.
Proof.
  intros transport s t message src Hm Hinit.
  unfold Handshake.initialize.
  destruct (String.eqb_spec (Init.state message) "SYN+ACK") as [E1|E1].
  - destruct (map_has String.eqb (Init.token message)
                (Handshake.channels s)); cbn [negb]; [|exact Hinit].
    destruct (map_get String.eqb (Init.token message)
                (Handshake.channels s)) as [c|]; [|exact Hinit].
    assert (Hs1 : Handshake.is_initialized
              (Handshake.set_channels s
                 (map_set String.eqb (Init.token message)
                    {| Handshake.destination := Init.source message;
                       Handshake.initialized := true;
                       Handshake.token := Init.token message;
                       Handshake.state := Handshake.ACK;
                       Handshake.window := Handshake.window c |}
                    (Handshake.channels s))) t = true).
    { unfold Handshake.is_initialized in *. cbn [Handshake.set_channels
        Handshake.channels].
      same_or_other t (Init.token message); [reflexivity | exact Hinit]. }
    destruct (Handshake.postInitializationMessage _ _ _ _) as [tr [|e]];
      exact Hs1.
  - destruct (String.eqb_spec (Init.state message) "SYN") as [E2|E2].
    + destruct Hm as [Hm|Hm]; [contradiction|].
      destruct (Handshake.postInitializationMessage _ _ _ _) as [tr c].
      unfold Handshake.is_initialized in *.
      cbn [after Handshake.set_channels Handshake.channels].
      rewrite (map_get_set_other _ _ String.eqb string_eqb_spec)
        by (intro H; apply Hm; symmetry; exact H).
      exact Hinit.
    + destruct (String.eqb_spec (Init.state message) "ACK") as [E3|E3];
        [|exact Hinit].
      destruct (map_has String.eqb (Init.token message)
                  (Handshake.channels s)); cbn [negb]; [|exact Hinit].
      destruct (map_get String.eqb (Init.token message)
                  (Handshake.channels s)) as [c|]; [|exact Hinit].
      unfold Handshake.is_initialized in *.
      cbn [after returns Handshake.set_channels Handshake.channels].
      same_or_other t (Init.token message); [reflexivity | exact Hinit].
Qed.

Lemma connection_syn_resets :
  forall transport (s : Connection.MessagingService) message src,
    Init.state message = "SYN" ->
    Connection.is_initialized
      (after (Connection.initialize transport s message src))
      (Init.token message) = false.
Proof.
  intros transport s message src Hst. unfold Connection.initialize.
  rewrite Hst. cbn [String.eqb Ascii.eqb Bool.eqb].
  destruct (Connection.postInitializationMessage _ _ _ _) as [tr c].
  unfold Connection.is_initialized.
  cbn [after Connection.set_channels Connection.channels].
  rewrite (map_get_set_same _ _ String.eqb string_eqb_spec). reflexivity.
Qed.

Lemma handshake_syn_resets :
  forall transport (s : Handshake.MessagingService) message src,
    Init.state message = "SYN" ->
    Handshake.is_initialized
      (after (Handshake.initialize transport s message src))
      (Init.token message) = false.
Proof.
  intros transport s message src Hst. unfold Handshake.initialize.
  rewrite Hst. cbn [String.eqb Ascii.eqb Bool.eqb].
  destruct (Handshake.postInitializationMessage _ _ _ _) as [tr c].
  unfold Handshake.is_initialized.
  cbn [after Handshake.set_channels Handshake.channels].
  rewrite (map_get_set_same _ _ String.eqb string_eqb_spec). reflexivity.
Qed.

Lemma connection_syn_record :
  forall transport (s : Connection.MessagingService) message src,
    Init.state message = "SYN" ->
    map_get String.eqb (Init.token message)
      (Connection.channels
         (after (Connection.initialize transport s message src)))
    = Some {| Connection.destination := UNKNOWN_DESTINATION;
              Connection.initialized := false;
              Connection.token := Init.token message;
              Connection.window := src |}.
Proof.
  intros transport s message src Hst. unfold Connection.initialize.
  rewrite Hst. cbn [String.eqb Ascii.eqb Bool.eqb].
  destruct (Connection.postInitializationMessage _ _ _ _) as [tr c].
  cbn [after Connection.set_channels Connection.channels].
  apply (map_get_set_same _ _ String.eqb string_eqb_spec).
Qed.

Lemma handshake_syn_record :
  forall transport (s : Handshake.MessagingService) message src,
    Init.state message = "SYN" ->
    map_get String.eqb (Init.token message)
      (Handshake.channels
         (after (Handshake.initialize transport s message src)))
    = Some {| Handshake.destination := UNKNOWN_DESTINATION;
              Handshake.initialized := false;
              Handshake.token := Init.token message;
              Handshake.state := Handshake.SYN_ACK;
              Handshake.window := src |}.
Proof.
  intros transport s message src Hst. unfold Handshake.initialize.
  rewrite Hst. cbn [String.eqb Ascii.eqb Bool.eqb].
  destruct (Handshake.postInitializationMessage _ _ _ _) as [tr c].
  cbn [after Handshake.set_channels Handshake.channels].
  apply (map_get_set_same _ _ String.eqb string_eqb_spec).
Qed.

(** C1 (as the code has it). Once the registry holds an initialized channel
    under a token, it still does after any sequence of inbound handshake
    messages none of which is a [SYN] carrying that token, in both
    generations; a [SYN] carrying the token overwrites the record: what the
    registry holds under the token afterwards is the record with destination
    [UNKNOWN_DESTINATION], [initialized == false] and the window of the
    event (in state "SYN+ACK" in the generation with states), so the token
    is not initialized any more. *)
Theorem initialized_survives_all_but_syn :
  forall transport (s : Connection.MessagingService)
         (s' : Handshake.MessagingService) (t : string)
         (messages : list (Init.Message * option WindowProxy)),
    Forall (fun m => Init.state (fst m) <> "SYN" \/ Init.token (fst m) <> t)
           messages ->
    (Connection.is_initialized s t = true ->
     Connection.is_initialized
       (Connection.initialize_all transport s messages) t = true) /\
    (Handshake.is_initialized s' t = true ->
     Handshake.is_initialized
       (Handshake.initialize_all transport s' messages) t = true) /\
    (forall syn src,
        Init.state syn = "SYN" -> Init.token syn = t ->
        let after_syn :=
          after (Connection.initialize transport
                   (Connection.initialize_all transport s messages)
                   syn src) in
        let after_syn' :=
          after (Handshake.initialize transport
                   (Handshake.initialize_all transport s' messages)
                   syn src) in
        map_get String.eqb t (Connection.channels after_syn)
        = Some {| Connection.destination := UNKNOWN_DESTINATION;
                  Connection.initialized := false;
                  Connection.token := t;
                  Connection.window := src |} /\
        Connection.is_initialized after_syn t = false /\
        map_get String.eqb t (Handshake.channels after_syn')
        = Some {| Handshake.destination := UNKNOWN_DESTINATION;
                  Handshake.initialized := false;
                  Handshake.token := t;
                  Handshake.state := Handshake.SYN_ACK;
                  Handshake.window := src |} /\
        Handshake.is_initialized after_syn' t = false).
Proof.
  intros transport s s' t messages Hall.
  split; [|split].
  - revert s. induction Hall as [|m ms Hm _ IH]; intros s Hinit.
    + exact Hinit.
    + cbn [Connection.initialize_all fold_left].
      apply IH. apply connection_initialize_keeps_initialized; assumption.
  - revert s'. induction Hall as [|m ms Hm _ IH]; intros s' Hinit.
    + exact Hinit.
    + cbn [Handshake.initialize_all fold_left].
      apply IH. apply handshake_initialize_keeps_initialized; assumption.
  - intros syn src Hst Htok after_syn after_syn'. subst t after_syn after_syn'.
    split; [apply connection_syn_record; exact Hst|].
    split; [apply connection_syn_resets; exact Hst|].
    split; [apply handshake_syn_record; exact Hst|].
    apply handshake_syn_resets; exact Hst.
Qed.

(** "t1" stays initialized through a second [ACK], a [SYN+ACK] and the
    [SYN] of another token. *)
Lemma initialized_survives_all_but_syn_witness :
  let s := Connection.service
             (Connection.run accept_all connection_responder
                [Connection.Deliver syn_from_A;
                 Connection.Deliver ack_from_A]) in
  Connection.is_initialized s "t1" = true /\
  Connection.is_initialized
    (Connection.initialize_all accept_all s
       (message_of ack_from_A ++ message_of synack_from_B
        ++ message_of (handshake_event "t2" "C" "SYN" 1 (Some 2))))
    "t1" = true.
Proof.
  intro s. split; [reflexivity|].
  refine (proj1 (initialized_survives_all_but_syn accept_all s
                   (Handshake.service handshake_responder) "t1" _ _) _).
  - simpl.
    constructor; [left; discriminate|].
    constructor; [left; discriminate|].
    constructor; [right; discriminate|].
    constructor.
  - reflexivity.
Defined.

(** C1, the claim as stated, fails in both generations: a responder that
    completed the handshake for "t1" receives the [SYN] of "t1" once more
    and holds "t1" with [initialized == false]. *)
Lemma syn_reverts_initialized :
  (let s := Connection.service
              (Connection.run accept_all connection_responder
                 [Connection.Deliver syn_from_A;
                  Connection.Deliver ack_from_A]) in
   let s' := after (Connection.listener accept_all s syn_from_A) in
   Connection.is_initialized s "t1" = true /\
   map_get String.eqb "t1" (Connection.channels s')
   = Some {| Connection.destination := UNKNOWN_DESTINATION;
             Connection.initialized := false;
             Connection.token := "t1";
             Connection.window := Some 7 |}) /\
  (let s := Handshake.service
              (Handshake.run accept_all handshake_responder
                 [Handshake.Deliver syn_from_A;
                  Handshake.Deliver ack_from_A]) in
   let s' := after (Handshake.listener accept_all s syn_from_A) in
   Handshake.is_initialized s "t1" = true /\
   map_get String.eqb "t1" (Handshake.channels s')
   = Some {| Handshake.destination := UNKNOWN_DESTINATION;
             Handshake.initialized := false;
             Handshake.token := "t1";
             Handshake.state := Handshake.SYN_ACK;
             Handshake.window := Some 7 |}).
Proof.
  repeat split.
Qed.

(** ** The handshake: replies that come twice or for no channel *)

(** C2 (as the code has it). A [SYN+ACK] or [ACK] whose token has no entry
    in the registry changes nothing and posts nothing, in both generations;
    in [src/connection.ts] the same holds when the token's channel is
    already initialized ([returns s []] is the service as it was with an
    empty trace of effects). In the generation with channel states a reply
    for a token that has a channel, initialized or not, rewrites the record
    from the message, and a [SYN+ACK] is answered by an [ACK] followed by
    [clearInterval]; the frame of that [ACK] is the received frame plus one
    as JavaScript adds numbers. *)
Theorem stray_reply_is_ignored :
  forall transport (s : Connection.MessagingService)
         (s' : Handshake.MessagingService) (message : Init.Message)
         (src : option WindowProxy),
    Init.state message = "SYN+ACK" \/ Init.state message = "ACK" ->
    (map_has String.eqb (Init.token message) (Connection.channels s) = false \/
     Connection.is_initialized s (Init.token message) = true ->
     Connection.initialize transport s message src = returns s []) /\
    (map_has String.eqb (Init.token message) (Handshake.channels s') = false ->
     Handshake.initialize transport s' message src = returns s' []) /\
    (forall c,
        map_get String.eqb (Init.token message) (Handshake.channels s')
        = Some c ->
        let r := Handshake.initialize transport s' message src in
        map_get String.eqb (Init.token message) (Handshake.channels (after r))
        = Some {| Handshake.destination := Init.source message;
                  Handshake.initialized := true;
                  Handshake.token := Init.token message;
                  Handshake.state :=
                    if String.eqb (Init.state message) "ACK"
                    then Handshake.FIN else Handshake.ACK;
                  Handshake.window := Handshake.window c |} /\
        (Init.state message = "ACK" -> trace r = []) /\
        (forall w,
            Init.state message = "SYN+ACK" ->
            Handshake.window c = Some w ->
            transport w (ack_reply (Handshake.id s') message) = true ->
            trace r = Sent w (ack_reply (Handshake.id s') message)
                           (Handshake.target s')
                      :: Handshake.clear_interval s')).
Proof.
  intros transport s s' message src Hst. split; [|split].
  - intros Hcase. unfold Connection.initialize, Connection.is_initialized in *.
    destruct Hst as [-> | ->]; cbn [String.eqb Ascii.eqb Bool.eqb].
    + destruct Hcase as [-> | Hi]; [reflexivity|].
      destruct (map_has String.eqb (Init.token message)
                  (Connection.channels s)); [|reflexivity].
      destruct (map_get String.eqb (Init.token message)
                  (Connection.channels s)) as [c|]; [|discriminate Hi].
      rewrite Hi. reflexivity.
    + destruct Hcase as [-> | Hi]; [reflexivity|].
      destruct (map_has String.eqb (Init.token message)
                  (Connection.channels s)); [|reflexivity].
      destruct (map_get String.eqb (Init.token message)
                  (Connection.channels s)) as [c|]; [|discriminate Hi].
      rewrite Hi. reflexivity.
  - intros Hno. unfold Handshake.initialize.
    destruct Hst as [-> | ->]; cbn [String.eqb Ascii.eqb Bool.eqb];
      rewrite Hno; reflexivity.
  - intros c Hget r. subst r. unfold Handshake.initialize, map_has.
    rewrite Hget. cbn [negb].
    unfold Handshake.postInitializationMessage,
      Handshake.postMessageInternal, ack_reply.
    cbn [Handshake.window Handshake.state_name Handshake.set_channels
         Handshake.target Handshake.id].
    destruct Hst as [Hs | Hs]; rewrite Hs;
      cbn [String.eqb Ascii.eqb Bool.eqb].
    + split; [|split].
      * destruct (Handshake.window c) as [w|]; [destruct (transport w _)|];
          cbn [after returns throws Handshake.channels];
          apply (map_get_set_same _ _ String.eqb string_eqb_spec).
      * discriminate.
      * intros w _ Hw Hok. rewrite Hw, Hok. reflexivity.
    + split; [|split].
      * cbn [after returns Handshake.set_channels Handshake.channels].
        apply (map_get_set_same _ _ String.eqb string_eqb_spec).
      * reflexivity.
      * discriminate.
Qed.

(** The initiator of [src/connection.ts] ignores the [SYN+ACK] that comes
    a second time. *)
Lemma stray_reply_is_ignored_witness :
  let s := Connection.service
             (Connection.run accept_all connection_initiator
                [Connection.Tick 1%positive "t1";
                 Connection.Deliver synack_from_B]) in
  Connection.is_initialized s "t1" = true /\
  Connection.listener accept_all s synack_from_B = returns s [].
Proof.
  intro s. split; [reflexivity|].
  apply (proj1 (stray_reply_is_ignored accept_all s
                  (Handshake.service handshake_initiator)
                  {| Init.token := "t1"; Init.source := "B";
                     Init.state := "SYN+ACK"; Init.frame := 2 |}
                  (Some 9) (or_introl eq_refl))).
  right. reflexivity.
Defined.

(** C2, the claim as stated, fails in the generation with channel states:
    the initiator "A" has completed the handshake of "t1" with "B", and the
    same [SYN+ACK] delivered once more is answered by a second [ACK] and a
    second [clearInterval]; a [SYN+ACK] of "t1" announcing "Z" rewrites the
    destination of the initialized channel. *)
Lemma duplicate_synack_is_answered_again :
  Handshake.boot sample_origin (Some frame_of_B) (Some "A") "0" 1%positive
  = Some handshake_initiator /\
  let s := Handshake.service
             (Handshake.run accept_all handshake_initiator
                [Handshake.Tick 1%positive "t1" 2%positive;
                 Handshake.Deliver synack_from_B]) in
  Handshake.is_initialized s "t1" = true /\
  Handshake.listener accept_all s synack_from_B
  = returns s
      [Sent 9 (PInit {| Init.token := "t1"; Init.source := "A";
                        Init.state := "ACK"; Init.frame := 3 |})
            sample_origin;
       ClearInterval 2%positive] /\
  map_get String.eqb "t1" (Handshake.channels s)
  = Some {| Handshake.destination := "B";
            Handshake.initialized := true;
            Handshake.token := "t1";
            Handshake.state := Handshake.ACK;
            Handshake.window := Some 9 |} /\
  map_get String.eqb "t1"
    (Handshake.channels
       (after (Handshake.listener accept_all s
                 (handshake_event "t1" "Z" "SYN+ACK" 2 (Some 9)))))
  = Some {| Handshake.destination := "Z";
            Handshake.initialized := true;
            Handshake.token := "t1";
            Handshake.state := Handshake.ACK;
            Handshake.window := Some 9 |}.
Proof.
  repeat split.
Qed.

(** ** The handshake: receiving [SYN] *)

(** C6 (as the code has it). On a [SYN], in any role, [initialize] creates
    or overwrites the channel record of the message's token with destination
    [UNKNOWN_DESTINATION], [initialized == false] and the window taken from
    the event (and state [SYN+ACK] in the generation whose records carry
    one), leaves the records of other tokens alone, and, when the event
    carries a window and the transport takes the message, posts to that
    window a [SYN+ACK] with the same token, its own identity as source and
    the received frame plus one as JavaScript adds numbers (the sum of
    binary64 floats: [2^53 + 1] is [2^53]). *)
Theorem syn_creates_channel_and_replies :
  forall transport (s : Connection.MessagingService)
         (s' : Handshake.MessagingService) (message : Init.Message)
         (src : option WindowProxy),
    Init.state message = "SYN" ->
    let r := Connection.initialize transport s message src in
    let r' := Handshake.initialize transport s' message src in
    (map_get String.eqb (Init.token message) (Connection.channels (after r))
     = Some {| Connection.destination := UNKNOWN_DESTINATION;
               Connection.initialized := false;
               Connection.token := Init.token message;
               Connection.window := src |} /\
     (forall t, t <> Init.token message ->
                map_get String.eqb t (Connection.channels (after r))
                = map_get String.eqb t (Connection.channels s)) /\
     (forall w, src = Some w ->
                transport w (syn_ack_reply (Connection.id s) message) = true ->
                trace r = [Sent w (syn_ack_reply (Connection.id s) message)
                                (Connection.target s)] /\
                completion r = Normal)) /\
    (map_get String.eqb (Init.token message) (Handshake.channels (after r'))
     = Some {| Handshake.destination := UNKNOWN_DESTINATION;
               Handshake.initialized := false;
               Handshake.token := Init.token message;
               Handshake.state := Handshake.SYN_ACK;
               Handshake.window := src |} /\
     (forall t, t <> Init.token message ->
                map_get String.eqb t (Handshake.channels (after r'))
                = map_get String.eqb t (Handshake.channels s')) /\
     (forall w, src = Some w ->
                transport w (syn_ack_reply (Handshake.id s') message) = true ->
                trace r' = [Sent w (syn_ack_reply (Handshake.id s') message)
                                 (Handshake.target s')] /\
                completion r' = Normal)).
Proof.
  intros transport s s' message src Hst r r'. subst r r'.
  unfold Connection.initialize, Handshake.initialize.
  rewrite Hst. cbn [String.eqb Ascii.eqb Bool.eqb].
  unfold Connection.postInitializationMessage,
    Handshake.postInitializationMessage,
    Connection.postMessageInternal, Handshake.postMessageInternal,
    syn_ack_reply.
  cbn [Connection.window Handshake.window Handshake.state_name
       Connection.set_channels Handshake.set_channels
       Connection.target Handshake.target Connection.id Handshake.id].
  split.
  - split; [|split].
    + destruct src as [w|]; [destruct (transport w _)|];
        cbn [after Connection.channels];
        apply (map_get_set_same _ _ String.eqb string_eqb_spec).
    + intros t Hne.
      destruct src as [w|]; [destruct (transport w _)|];
        cbn [after Connection.channels];
        apply (map_get_set_other _ _ String.eqb string_eqb_spec); exact Hne.
    + intros w -> Hok. rewrite Hok. split; reflexivity.
  - split; [|split].
    + destruct src as [w|]; [destruct (transport w _)|];
        cbn [after Handshake.channels];
        apply (map_get_set_same _ _ String.eqb string_eqb_spec).
    + intros t Hne.
      destruct src as [w|]; [destruct (transport w _)|];
        cbn [after Handshake.channels];
        apply (map_get_set_other _ _ String.eqb string_eqb_spec); exact Hne.
    + intros w -> Hok. rewrite Hok. split; reflexivity.
Qed.

(** The record a responder creates on the [SYN] of "t1". *)
Lemma syn_creates_channel_and_replies_witness :
  let r := Connection.listener accept_all
             (Connection.service connection_responder) syn_from_A in
  map_get String.eqb "t1" (Connection.channels (after r))
  = Some {| Connection.destination := UNKNOWN_DESTINATION;
            Connection.initialized := false;
            Connection.token := "t1";
            Connection.window := Some 7 |}.
Proof.
  intro r.
  exact (proj1 (proj1 (syn_creates_channel_and_replies accept_all
                         (Connection.service connection_responder)
                         (Handshake.service handshake_responder)
                         {| Init.token := "t1"; Init.source := "A";
                            Init.state := "SYN"; Init.frame := 1 |}
                         (Some 7) eq_refl))).
Defined.

(** C6, the claim as stated, fails in both generations: the [SYN] of "t1"
    announces the source "A", and the record created for "t1" has the
    destination [UNKNOWN_DESTINATION], not "A". *)
Lemma syn_does_not_record_the_source :
  Init.source {| Init.token := "t1"; Init.source := "A";
                 Init.state := "SYN"; Init.frame := 1 |} = "A" /\
  option_map Connection.destination
    (map_get String.eqb "t1"
       (Connection.channels
          (after (Connection.listener accept_all
                    (Connection.service connection_responder) syn_from_A))))
  = Some "UNKNOWN_DESTINATION" /\
  option_map Handshake.destination
    (map_get String.eqb "t1"
       (Handshake.channels
          (after (Handshake.listener accept_all
                    (Handshake.service handshake_responder) syn_from_A))))
  = Some "UNKNOWN_DESTINATION" /\
  "UNKNOWN_DESTINATION" <> "A".
Proof.
  repeat split. discriminate.
Qed.

(** ** The bootstrap timer (the generation with channel states) *)

Lemma initialization_ongoing_exists :
  forall cs,
    Handshake.initialization_ongoing cs = true <->
    exists c, In c cs /\ Handshake.state c <> Handshake.SYN.
Proof.
  induction cs as [|c cs IH]; simpl.
  - split; [discriminate | intros [c [[] _]]].
  - destruct (Handshake.state c) eqn:Hst; simpl.
    + rewrite IH. split.
      * intros [x [Hin Hx]]. exists x. split; [right; exact Hin | exact Hx].
      * intros [x [[<-|Hin] Hx]]; [congruence | exists x; split; assumption].
    + split; [intros _; exists c; split; [left; reflexivity | congruence]
             | reflexivity].
    + split; [intros _; exists c; split; [left; reflexivity | congruence]
             | reflexivity].
    + split; [intros _; exists c; split; [left; reflexivity | congruence]
             | reflexivity].
Qed.

Lemma connectToFrame_channels :
  forall transport (s : Handshake.MessagingService) f random h,
    let r := Handshake.connectToFrame transport s f random h in
    r = returns s [] \/
    Handshake.channels (after r)
    = [(random, {| Handshake.destination := UNKNOWN_DESTINATION;
                   Handshake.initialized := false;
                   Handshake.token := random;
                   Handshake.state := Handshake.SYN;
                   Handshake.window := contentWindow f |})].
Proof.
  intros transport s f random h r. subst r.
  unfold Handshake.connectToFrame.
  destruct (Handshake.initialization_ongoing _); [left; reflexivity|].
  right.
  destruct (Handshake.postInitializationMessage _ _ _ _) as [tr [|e]];
    reflexivity.
Qed.

Lemma handshake_initialize_awaiting :
  forall transport (s : Handshake.MessagingService) message src,
    Handshake.awaiting_first_reply
      (after (Handshake.initialize transport s message src))
    <= Handshake.awaiting_first_reply s.
Proof.
  intros transport s message src. unfold Handshake.initialize.
  destruct (String.eqb (Init.state message) "SYN+ACK").
  - destruct (map_has String.eqb _ _); cbn [negb]; [|apply Nat.le_refl].
    destruct (map_get String.eqb _ _) as [c|]; [|apply Nat.le_refl].
    destruct (Handshake.postInitializationMessage _ _ _ _) as [tr [|e]];
      apply map_count_set_false; reflexivity.
  - destruct (String.eqb (Init.state message) "SYN").
    + destruct (Handshake.postInitializationMessage _ _ _ _) as [tr c].
      apply map_count_set_false. reflexivity.
    + destruct (String.eqb (Init.state message) "ACK"); [|apply Nat.le_refl].
      destruct (map_has String.eqb _ _); cbn [negb]; [|apply Nat.le_refl].
      destruct (map_get String.eqb _ _) as [c|]; [|apply Nat.le_refl].
      apply map_count_set_false. reflexivity.
Qed.

Lemma handshake_listener_awaiting :
  forall transport (s : Handshake.MessagingService) event,
    Handshake.awaiting_first_reply
      (after (Handshake.listener transport s event))
    <= Handshake.awaiting_first_reply s.
Proof.
  intros transport s event. unfold Handshake.listener.
  assert (Hd : forall d,
             after (Handshake.dispatchEvent s d) = s).
  { intro d. unfold Handshake.dispatchEvent.
    destruct (token_of d); [|reflexivity].
    destruct (negb _); [reflexivity|].
    destruct (call_handlers _ _). reflexivity. }
  destruct (negb _); [apply Nat.le_refl|].
  destruct (truthy (data event)); [|apply Nat.le_refl].
  destruct (data event) as [p|m|m]; try (rewrite Hd; apply Nat.le_refl).
  destruct (str_truthy (Init.state m)).
  - apply handshake_initialize_awaiting.
  - rewrite Hd. apply Nat.le_refl.
Qed.

Lemma handshake_postMessage_after :
  forall transport s d, after (Handshake.postMessage transport s d) = s.
Proof.
  intros transport s d. unfold Handshake.postMessage.
  destruct (Nat.eqb _ 0); [reflexivity|].
  destruct (negb _); [reflexivity|].
  destruct (Handshake.post_each _ _ _ _). reflexivity.
Qed.

Lemma handshake_step_awaiting :
  forall transport sys i,
    Handshake.awaiting_first_reply (Handshake.service sys) <= 1 ->
    Handshake.awaiting_first_reply
      (Handshake.service (Handshake.step transport sys i)) <= 1.
Proof.
  intros transport sys i Hinv. destruct i as [h random h'|event|f k|k|d];
    cbn [Handshake.step].
  - destruct (existsb _ _); [|exact Hinv].
    destruct (Handshake.frame (Handshake.service sys)) as [f|]; [|exact Hinv].
    cbn [Handshake.settle Handshake.service].
    destruct (connectToFrame_channels transport (Handshake.service sys)
                f random h') as [-> | Hc].
    + exact Hinv.
    + unfold Handshake.awaiting_first_reply. rewrite Hc.
      apply Nat.le_refl.
  - cbn [Handshake.settle Handshake.service].
    eapply Nat.le_trans; [apply handshake_listener_awaiting | exact Hinv].
  - exact Hinv.
  - cbn [Handshake.service]. unfold Handshake.removeMessageHandler.
    destruct (map_has Z.eqb _ _); exact Hinv.
  - cbn [Handshake.settle Handshake.service].
    rewrite handshake_postMessage_after. exact Hinv.
Qed.

Lemma handshake_run_awaiting :
  forall transport inputs sys,
    Handshake.awaiting_first_reply (Handshake.service sys) <= 1 ->
    Handshake.awaiting_first_reply
      (Handshake.service (Handshake.run transport sys inputs)) <= 1.
Proof.
  intros transport inputs. unfold Handshake.run.
  induction inputs as [|i inputs IH]; intros sys Hinv.
  - exact Hinv.
  - cbn [fold_left]. apply IH. apply handshake_step_awaiting. exact Hinv.
Qed.

Lemma handshake_boot_channels :
  forall target frame overrideId random h sys,
    Handshake.boot target frame overrideId random h = Some sys ->
    Handshake.channels (Handshake.service sys) = [].
Proof.
  intros target frame overrideId random h sys.
  unfold Handshake.boot, Handshake.constructor.
  destruct (String.eqb target WILDCARD_TARGET); [discriminate|].
  destruct frame as [f|]; cbn; intros [= <-]; reflexivity.
Qed.

(** C5 (as the code has it). In the generation whose channel records carry
    a state, in every state the service reaches, when the bootstrap timer
    fires ([connectToFrame] runs): if some channel has left the state [SYN]
    the call changes nothing and has no effect; otherwise the registry
    afterwards holds exactly one channel, under the token just drawn, in
    state [SYN], with destination [UNKNOWN_DESTINATION] and [initialized ==
    false]. Before and after, at most one channel is in state [SYN]. In
    [src/connection.ts], whose [connectToFrame] has no guard and no
    [clear], a firing with the frame's window at hand sets one more such
    channel into the registry it finds. *)
Theorem bootstrap_restarts_only_from_syn :
  forall transport target frame overrideId random0 h0 sys inputs
         (s0 : Connection.MessagingService)
         (f : HTMLIFrameElement) (random : string) (h : positive),
    Handshake.boot target frame overrideId random0 h0 = Some sys ->
    let s := Handshake.service (Handshake.run transport sys inputs) in
    let r := Handshake.connectToFrame transport s f random h in
    ((exists c, In c (map_values (Handshake.channels s)) /\
                Handshake.state c <> Handshake.SYN) ->
     r = returns s []) /\
    ((forall c, In c (map_values (Handshake.channels s)) ->
                Handshake.state c = Handshake.SYN) ->
     Handshake.channels (after r)
     = [(random, {| Handshake.destination := UNKNOWN_DESTINATION;
                    Handshake.initialized := false;
                    Handshake.token := random;
                    Handshake.state := Handshake.SYN;
                    Handshake.window := contentWindow f |})]) /\
    Handshake.awaiting_first_reply s <= 1 /\
    Handshake.awaiting_first_reply (after r) <= 1 /\
    (forall f0 w,
        Connection.frame s0 = Some f0 -> contentWindow f0 = Some w ->
        Connection.channels
          (after (Connection.connectToFrame transport s0 random))
        = map_set String.eqb random
            {| Connection.destination := UNKNOWN_DESTINATION;
               Connection.initialized := false;
               Connection.token := random;
               Connection.window := Some w |}
            (Connection.channels s0)).
Proof.
  intros transport target frame overrideId random0 h0 sys inputs s0 f random h
         Hboot s r.
  assert (Hs : Handshake.awaiting_first_reply s <= 1).
  { subst s. apply handshake_run_awaiting.
    unfold Handshake.awaiting_first_reply.
    rewrite (handshake_boot_channels _ _ _ _ _ _ Hboot). cbn. lia. }
  split; [|split; [|split; [|split]]].
  - intro Hex. apply initialization_ongoing_exists in Hex.
    subst r. unfold Handshake.connectToFrame. rewrite Hex. reflexivity.
  - intro Hall.
    assert (Hno : Handshake.initialization_ongoing
                    (map_values (Handshake.channels s)) = false).
    { destruct (Handshake.initialization_ongoing _) eqn:E; [|reflexivity].
      apply initialization_ongoing_exists in E.
      destruct E as [c [Hin Hc]]. elim Hc. apply Hall. exact Hin. }
    subst r. unfold Handshake.connectToFrame. rewrite Hno.
    destruct (Handshake.postInitializationMessage _ _ _ _) as [tr [|e]];
      reflexivity.
  - exact Hs.
  - destruct (connectToFrame_channels transport s f random h) as [Hr | Hc].
    + fold r in Hr. rewrite Hr. exact Hs.
    + fold r in Hc. unfold Handshake.awaiting_first_reply. rewrite Hc.
      apply Nat.le_refl.
  - intros f0 w Hf Hw. unfold Connection.connectToFrame.
    rewrite Hf, Hw.
    destruct (Connection.postInitializationMessage _ _ _ _) as [tr c].
    reflexivity.
Qed.

(** The timeout fires a second time before any reply: "t1" is dropped and
    "t2" is the one channel left. *)
Lemma bootstrap_restarts_only_from_syn_witness :
  let s := Handshake.service
             (Handshake.run accept_all handshake_initiator
                [Handshake.Tick 1%positive "t1" 2%positive]) in
  let r := Handshake.connectToFrame accept_all s frame_of_B "t2" 3%positive in
  Handshake.awaiting_first_reply s = 1 /\
  Handshake.channels (after r)
  = [("t2", {| Handshake.destination := UNKNOWN_DESTINATION;
               Handshake.initialized := false;
               Handshake.token := "t2";
               Handshake.state := Handshake.SYN;
               Handshake.window := Some 9 |})].
Proof.
  intros s r. split; [reflexivity|].
  refine (proj1 (proj2 (bootstrap_restarts_only_from_syn accept_all
                          sample_origin (Some frame_of_B) (Some "A") "0"
                          1%positive handshake_initiator
                          [Handshake.Tick 1%positive "t1" 2%positive]
                          (Connection.service connection_initiator)
                          frame_of_B "t2" 3%positive eq_refl)) _).
  simpl. intros c [<-|[]]. reflexivity.
Defined.

(** C5, the claim as stated, fails in [src/connection.ts]: [connectToFrame]
    has no guard and clears nothing, so the interval that elapses twice
    before any reply leaves two channels awaiting their first reply. *)
Lemma interval_piles_up_channels :
  Connection.boot sample_origin (Some frame_of_B) (Some "A") "0" 1%positive
  = Some connection_initiator /\
  Connection.channels
    (Connection.service
       (Connection.run accept_all connection_initiator
          [Connection.Tick 1%positive "t1"; Connection.Tick 1%positive "t2"]))
  = [("t1", {| Connection.destination := UNKNOWN_DESTINATION;
               Connection.initialized := false;
               Connection.token := "t1";
               Connection.window := Some 9 |});
     ("t2", {| Connection.destination := UNKNOWN_DESTINATION;
               Connection.initialized := false;
               Connection.token := "t2";
               Connection.window := Some 9 |})].
Proof.
  split; reflexivity.
Qed.

(** ** An initialized channel knows its destination ([src/connection.ts]) *)

Lemma registry_knows_set :
  forall (s : Connection.MessagingService) k c,
    registry_knows s -> knows_destination c ->
    registry_knows
      (Connection.set_channels s
         (map_set String.eqb k c (Connection.channels s))).
Proof.
  intros s k c Hs Hc x Hin. cbn [Connection.set_channels Connection.channels]
    in Hin.
  apply map_set_values_in in Hin. destruct Hin as [-> | Hin].
  - exact Hc.
  - apply Hs. exact Hin.
Qed.

Lemma connectToFrame_knows :
  forall transport s random,
    registry_knows s ->
    registry_knows (after (Connection.connectToFrame transport s random)).
Proof.
  intros transport s random Hs. unfold Connection.connectToFrame.
  destruct (Connection.frame s) as [f|]; [|exact Hs].
  destruct (contentWindow f) as [w|]; [|exact Hs].
  destruct (Connection.postInitializationMessage _ _ _ _) as [tr c].
  cbn [after]. apply registry_knows_set; [exact Hs|].
  intro H. discriminate H.
Qed.

Lemma initialize_knows :
  forall transport s message src,
    Init.source message <> UNKNOWN_DESTINATION ->
    registry_knows s ->
    registry_knows (after (Connection.initialize transport s message src)).
Proof.
  intros transport s message src Hsrc Hs. unfold Connection.initialize.
  destruct (String.eqb (Init.state message) "SYN+ACK").
  - destruct (map_has String.eqb _ _); [|exact Hs].
    destruct (map_get String.eqb _ _) as [c|]; [|exact Hs].
    destruct (Connection.initialized c); [exact Hs|].
    destruct (Connection.postInitializationMessage _ _ _ _) as [tr [|e]];
      cbn [after returns throws]; apply registry_knows_set;
      try exact Hs; intros _; exact Hsrc.
  - destruct (String.eqb (Init.state message) "SYN").
    + destruct (Connection.postInitializationMessage _ _ _ _) as [tr c].
      cbn [after]. apply registry_knows_set; [exact Hs|].
      intro H. discriminate H.
    + destruct (String.eqb (Init.state message) "ACK"); [|exact Hs].
      destruct (map_has String.eqb _ _); [|exact Hs].
      destruct (map_get String.eqb _ _) as [c|]; [|exact Hs].
      destruct (Connection.initialized c); [exact Hs|].
      cbn [after returns]. apply registry_knows_set; [exact Hs|].
      intros _. exact Hsrc.
Qed.

Lemma connection_dispatchEvent_after :
  forall s d, after (Connection.dispatchEvent s d) = s.
Proof.
  intros s d. unfold Connection.dispatchEvent.
  destruct (token_of d); [|reflexivity].
  destruct (negb _); [reflexivity|].
  destruct (call_handlers _ _). reflexivity.
Qed.

Lemma step_knows :
  forall transport sys i,
    Connection.announces_identity i ->
    registry_knows (Connection.service sys) ->
    registry_knows (Connection.service (Connection.step transport sys i)).
Proof.
  intros transport sys i Hi Hs. destruct i as [h random|event|f k|k|d];
    cbn [Connection.step].
  - destruct (existsb _ _); [|exact Hs].
    apply connectToFrame_knows. exact Hs.
  - cbn [Connection.settle Connection.service]. unfold Connection.listener.
    destruct (negb _); [exact Hs|].
    destruct (truthy (data event)); [|exact Hs].
    cbn [Connection.announces_identity] in Hi.
    destruct (data event) as [p|m|m];
      try (rewrite connection_dispatchEvent_after; exact Hs).
    destruct (str_truthy (Init.state m)).
    + apply initialize_knows; assumption.
    + rewrite connection_dispatchEvent_after. exact Hs.
  - exact Hs.
  - cbn [Connection.service]. unfold Connection.removeMessageHandler.
    destruct (map_has Z.eqb _ _); exact Hs.
  - cbn [Connection.settle Connection.service].
    rewrite connection_postMessage_after. exact Hs.
Qed.

(** C7. In every state the service reaches from its construction, through
    timer ticks, inbound events, handler registrations and posts, every
    channel record with [initialized == true] has a destination other than
    [UNKNOWN_DESTINATION], as long as no inbound handshake message announces
    the sentinel itself as its source. *)
Theorem initialized_channel_knows_destination :
  forall transport target frame overrideId random h sys inputs
         (c : Connection.Channel),
    Connection.boot target frame overrideId random h = Some sys ->
    Forall Connection.announces_identity inputs ->
    In c (map_values
            (Connection.channels
               (Connection.service (Connection.run transport sys inputs)))) ->
    Connection.initialized c = true ->
    Connection.destination c <> UNKNOWN_DESTINATION.
Proof.
  intros transport target frame overrideId random h sys inputs c Hboot Hall.
  assert (H0 : registry_knows (Connection.service sys)).
  { unfold Connection.boot, Connection.constructor in Hboot.
    destruct (String.eqb target WILDCARD_TARGET); [discriminate|].
    destruct frame as [f|]; injection Hboot as <-; intros x [].  }
  clear Hboot. revert sys H0. unfold Connection.run.
  induction Hall as [|i inputs Hi _ IH]; intros sys H0 Hin.
  - exact (H0 c Hin).
  - cbn [fold_left] in Hin.
    exact (IH _ (step_knows transport sys i Hi H0) Hin).
Qed.

(** The channel of a responder after [SYN] and [ACK] from "A". *)
Lemma initialized_channel_knows_destination_witness :
  let c := {| Connection.destination := "A";
              Connection.initialized := true;
              Connection.token := "t1";
              Connection.window := Some 7 |} in
  Connection.destination c <> UNKNOWN_DESTINATION.
Proof.
  intro c.
  apply (initialized_channel_knows_destination accept_all
           sample_origin None (Some "B") "0" 1%positive connection_responder
           [Connection.Deliver syn_from_A; Connection.Deliver ack_from_A] c).
  - reflexivity.
  - constructor; [simpl; discriminate|].
    constructor; [simpl; discriminate|]. constructor.
  - simpl. left. reflexivity.
  - reflexivity.
Defined.

(** * Further properties of the two generations *)

(** ** More on maps *)

Section JsMapMore.
Variables K V : Type.
Variable eqb : K -> K -> bool.
Hypothesis eqb_spec : forall a b, eqb a b = true <-> a = b.

Lemma map_get_none_keys :
  forall k (m : JsMap K V), map_get eqb k m = None <-> ~ In k (map_keys m).
Proof.
  intros k m. induction m as [|[k0 v0] m IH]; simpl.
  - split; [intros _ [] | reflexivity].
  - destruct (eqb k k0) eqn:E.
    + apply eqb_spec in E. subst k0. split; [discriminate|].
      intro H. elim H. left. reflexivity.
    + rewrite IH. split.
      * intros Hn [H|H]; [|exact (Hn H)].
        subst k0. rewrite (key_eqb_refl _ eqb eqb_spec) in E. discriminate.
      * intros Hn H. apply Hn. right. exact H.
Qed.

Lemma map_set_in :
  forall k (v : V) m k' v',
    In (k', v') (map_set eqb k v m) -> (k', v') = (k, v) \/ In (k', v') m.
Proof.
  intros k v m k' v'. induction m as [|[k0 v0] m IH]; simpl.
  - intros [H|[]]. left. symmetry. exact H.
  - destruct (eqb k k0); simpl.
    + intros [H|H]; [left; symmetry; exact H | right; right; exact H].
    + intros [H|H]; [right; left; exact H|].
      destruct (IH H) as [H1|H1]; [left; exact H1 | right; right; exact H1].
Qed.

Lemma map_set_keys_in :
  forall k (v : V) m k',
    In k' (map_keys (map_set eqb k v m)) <-> k' = k \/ In k' (map_keys m).
Proof.
  intros k v m k'. induction m as [|[k0 v0] m IH]; simpl.
  - split; [intros [H|[]]; left; symmetry; exact H
           | intros [H|[]]; left; symmetry; exact H].
  - destruct (eqb k k0) eqn:E; simpl.
    + apply eqb_spec in E. subst k0. split.
      * intros [H|H]; [left; symmetry; exact H | right; right; exact H].
      * intros [H|[H|H]]; [left; symmetry; exact H | left; exact H
                          | right; exact H].
    + rewrite IH. split.
      * intros [H|[H|H]]; [right; left; exact H | left; exact H
                          | right; right; exact H].
      * intros [H|[H|H]]; [right; left; exact H | left; exact H
                          | right; right; exact H].
Qed.

Lemma map_set_keys_nodup :
  forall k (v : V) m, NoDup (map_keys m) -> NoDup (map_keys (map_set eqb k v m)).
Proof.
  intros k v m. induction m as [|[k0 v0] m IH]; simpl; intro Hnd.
  - constructor; [intros [] | constructor].
  - inversion Hnd as [|x l Hnin Hnd' Heq]; subst.
    destruct (eqb k k0) eqn:E; simpl.
    + apply eqb_spec in E. subst k0. constructor; assumption.
    + constructor; [|apply IH; exact Hnd'].
      intro Hin. apply map_set_keys_in in Hin. destruct Hin as [H|H].
      * subst k0. rewrite (key_eqb_refl _ eqb eqb_spec) in E. discriminate.
      * exact (Hnin H).
Qed.

Lemma map_set_size :
  forall k (v : V) m,
    map_size (map_set eqb k v m)
    = if map_has eqb k m then map_size m else S (map_size m).
Proof.
  intros k v m. unfold map_size, map_has.
  induction m as [|[k0 v0] m IH]; simpl.
  - reflexivity.
  - destruct (eqb k k0); simpl; [reflexivity|].
    rewrite IH. destruct (map_get eqb k m); reflexivity.
Qed.

Lemma map_delete_set_fresh :
  forall k (v : V) m,
    map_get eqb k m = None -> map_delete eqb k (map_set eqb k v m) = m.
Proof.
  intros k v m. induction m as [|[k0 v0] m IH]; simpl.
  - intros _. rewrite (key_eqb_refl _ eqb eqb_spec). reflexivity.
  - destruct (eqb k k0) eqn:E; [discriminate|]. intro H.
    simpl. rewrite E, (IH H). reflexivity.
Qed.

Lemma map_get_delete_same :
  forall k (m : JsMap K V),
    NoDup (map_keys m) -> map_get eqb k (map_delete eqb k m) = None.
Proof.
  intros k m. induction m as [|[k0 v0] m IH]; simpl; intro Hnd.
  - reflexivity.
  - inversion Hnd as [|x l Hnin Hnd' Heq]; subst.
    destruct (eqb k k0) eqn:E; simpl.
    + apply eqb_spec in E. subst k0. apply map_get_none_keys. exact Hnin.
    + rewrite E. apply IH. exact Hnd'.
Qed.

Lemma map_get_delete_other :
  forall k k' (m : JsMap K V),
    k' <> k -> map_get eqb k' (map_delete eqb k m) = map_get eqb k' m.
Proof.
  intros k k' m Hne. induction m as [|[k0 v0] m IH]; simpl.
  - reflexivity.
  - destruct (eqb k k0) eqn:E; simpl.
    + apply eqb_spec in E. subst k0.
      rewrite (key_eqb_neq _ eqb eqb_spec _ _ Hne). reflexivity.
    + rewrite IH. reflexivity.
Qed.

Lemma map_delete_keys_nodup :
  forall k (m : JsMap K V),
    NoDup (map_keys m) -> NoDup (map_keys (map_delete eqb k m)).
Proof.
  intros k m. induction m as [|[k0 v0] m IH]; simpl; intro Hnd.
  - constructor.
  - inversion Hnd as [|x l Hnin Hnd' Heq]; subst.
    destruct (eqb k k0); simpl; [exact Hnd'|].
    constructor; [|apply IH; exact Hnd'].
    intro Hin. apply Hnin. clear - Hin.
    induction m as [|[k1 v1] m IHm]; simpl in *; [exact Hin|].
    destruct (eqb k k1); simpl in *.
    + right. exact Hin.
    + destruct Hin as [H|H]; [left; exact H | right; exact (IHm H)].
Qed.

Lemma map_delete_size :
  forall k (m : JsMap K V),
    map_has eqb k m = true -> S (map_size (map_delete eqb k m)) = map_size m.
Proof.
  intros k m. unfold map_has, map_size.
  induction m as [|[k0 v0] m IH]; simpl; [discriminate|].
  destruct (eqb k k0); simpl; [reflexivity|].
  intro H. rewrite (IH H). reflexivity.
Qed.
End JsMapMore.

Lemma Z_eqb_spec : forall a b : Z, Z.eqb a b = true <-> a = b.
Proof. exact Z.eqb_eq. Qed.

(** ** The handler table ([src/connection.ts]) *)

Lemma map_set_fresh_app :
  forall (V : Type) (k : Z) (v : V) (m : JsMap Z V),
    map_get Z.eqb k m = None -> map_set Z.eqb k v m = m ++ [(k, v)].
Proof.
  intros V k v m. induction m as [|[k0 v0] m IH]; simpl.
  - reflexivity.
  - destruct (Z.eqb k k0); [discriminate|]. intro H.
    rewrite (IH H). reflexivity.
Qed.

Lemma call_handlers_trace_in :
  forall hs d i d',
    In (Called i d') (fst (call_handlers hs d)) -> In i (map_keys hs).
Proof.
  intros hs d i d'. induction hs as [|[j h] hs IH]; simpl.
  - intros [].
  - destruct (h d).
    + destruct (call_handlers hs d) as [tr c]. simpl in *.
      intros [H|H]; [left; congruence | right; exact (IH H)].
    + simpl. intros [H|[]]. left. congruence.
Qed.

(** X1. [addMessageHandler] returns the id it was given by the random
    draw and files the handler under it: the handler is what the table
    holds for that id afterwards, every other id keeps its handler, and the
    registry is untouched. The table grows by one only when the id was not
    in use: a draw that repeats an id replaces the handler registered
    before. *)
Theorem addMessageHandler_registers :
  forall (s : Connection.MessagingService) (handler : MessageHandler)
         (handlerId : Z),
    let r := Connection.addMessageHandler s handler handlerId in
    snd r = handlerId /\
    map_get Z.eqb handlerId (Connection.handlers (fst r)) = Some handler /\
    (forall j, j <> handlerId ->
               map_get Z.eqb j (Connection.handlers (fst r))
               = map_get Z.eqb j (Connection.handlers s)) /\
    map_size (Connection.handlers (fst r))
    = (if map_has Z.eqb handlerId (Connection.handlers s)
       then map_size (Connection.handlers s)
       else S (map_size (Connection.handlers s))) /\
    Connection.channels (fst r) = Connection.channels s.
Proof.
  intros s handler handlerId r. subst r.
  unfold Connection.addMessageHandler.
  cbn [fst snd Connection.set_handlers Connection.handlers
       Connection.channels].
  split; [reflexivity|]. split.
  - apply (map_get_set_same _ _ Z.eqb Z_eqb_spec).
  - split.
    + intros j Hj. apply (map_get_set_other _ _ Z.eqb Z_eqb_spec). exact Hj.
    + split; [apply map_set_size | reflexivity].
Qed.

(** X2. Registering a handler under an id that was not in use and removing
    it by that id gives back the service as it was. *)
Theorem add_then_remove_handler :
  forall (s : Connection.MessagingService) (handler : MessageHandler)
         (handlerId : Z),
    map_has Z.eqb handlerId (Connection.handlers s) = false ->
    Connection.removeMessageHandler
      (fst (Connection.addMessageHandler s handler handlerId)) handlerId
    = s.
Proof.
  intros s handler handlerId Hfresh.
  unfold Connection.removeMessageHandler, Connection.addMessageHandler.
  cbn [fst Connection.set_handlers Connection.handlers].
  unfold map_has at 1.
  rewrite (map_get_set_same _ _ Z.eqb Z_eqb_spec).
  unfold map_has in Hfresh.
  destruct (map_get Z.eqb handlerId (Connection.handlers s)) eqn:Hg;
    [discriminate|].
  rewrite (map_delete_set_fresh _ _ Z.eqb Z_eqb_spec _ _ _ Hg).
  destruct s as [t f i iv hs cs]. reflexivity.
Qed.

(** A handler is added to the sample service and removed again. *)
Lemma add_then_remove_handler_witness :
  Connection.removeMessageHandler
    (fst (Connection.addMessageHandler
            (one_channel_service [(1%Z, fun _ => true)])
            (fun _ => false) 2%Z)) 2%Z
  = one_channel_service [(1%Z, fun _ => true)].
Proof.
  apply (add_then_remove_handler
           (one_channel_service [(1%Z, fun _ => true)]) (fun _ => false) 2%Z).
  reflexivity.
Defined.

(** X3. [removeMessageHandler] on a table without repeated ids: the id has
    no handler afterwards, every other id keeps its handler, the registry is
    untouched, the table shrinks by one when the id was in use, and the
    service is left as it was when it was not. *)
Theorem removeMessageHandler_removes :
  forall (s : Connection.MessagingService) (handlerId : Z),
    NoDup (map_keys (Connection.handlers s)) ->
    let s' := Connection.removeMessageHandler s handlerId in
    map_get Z.eqb handlerId (Connection.handlers s') = None /\
    (forall j, j <> handlerId ->
               map_get Z.eqb j (Connection.handlers s')
               = map_get Z.eqb j (Connection.handlers s)) /\
    Connection.channels s' = Connection.channels s /\
    (map_has Z.eqb handlerId (Connection.handlers s) = true ->
     S (map_size (Connection.handlers s'))
     = map_size (Connection.handlers s)) /\
    (map_has Z.eqb handlerId (Connection.handlers s) = false -> s' = s).
Proof.
  intros s handlerId Hnd s'. subst s'.
  unfold Connection.removeMessageHandler.
  destruct (map_has Z.eqb handlerId (Connection.handlers s)) eqn:Hhas;
    cbn [Connection.set_handlers Connection.handlers Connection.channels].
  - split; [apply (map_get_delete_same _ _ Z.eqb Z_eqb_spec); exact Hnd|].
    split; [intros j Hj;
            apply (map_get_delete_other _ _ Z.eqb Z_eqb_spec); exact Hj|].
    split; [reflexivity|]. split; [|discriminate].
    intros _. apply map_delete_size. exact Hhas.
  - split.
    + unfold map_has in Hhas.
      destruct (map_get Z.eqb handlerId (Connection.handlers s));
        [discriminate | reflexivity].
    + split; [reflexivity|]. split; [reflexivity|].
      split; [discriminate | reflexivity].
Qed.

(** The second of two handlers is removed. *)
Lemma removeMessageHandler_removes_witness :
  let s := one_channel_service [(1%Z, fun _ => true); (2%Z, fun _ => true)] in
  map_get Z.eqb 2%Z
    (Connection.handlers (Connection.removeMessageHandler s 2%Z)) = None.
Proof.
  intro s.
  refine (proj1 (removeMessageHandler_removes s 2%Z _)).
  simpl. constructor; [intros [H|[]]; discriminate H|].
  constructor; [intros []|]. constructor.
Defined.

(** X4. A handler registered under an id not in use is called after the
    handlers registered before it: when all of them and the new one return,
    the next application message for a known token calls the old handlers
    in order and the new one last. *)
Theorem registered_handler_is_called_last :
  forall (s : Connection.MessagingService) (handler : MessageHandler)
         (handlerId : Z) (message : EventData) (t : string),
    token_of message = Some t ->
    map_has String.eqb t (Connection.channels s) = true ->
    map_has Z.eqb handlerId (Connection.handlers s) = false ->
    (forall i h, In (i, h) (Connection.handlers s) ->
                 h (data_of message) = true) ->
    handler (data_of message) = true ->
    let s' := fst (Connection.addMessageHandler s handler handlerId) in
    Connection.dispatchEvent s' message
    = returns s' (calls (Connection.handlers s) (data_of message)
                  ++ [Called handlerId (data_of message)]).
Proof.
  intros s handler handlerId message t Ht Hhas Hfresh Hall Hh s'. subst s'.
  unfold Connection.dispatchEvent, Connection.addMessageHandler.
  cbn [fst Connection.set_handlers Connection.handlers Connection.channels].
  rewrite Ht, Hhas. cbn [negb].
  unfold map_has in Hfresh.
  destruct (map_get Z.eqb handlerId (Connection.handlers s)) eqn:Hg;
    [discriminate|].
  rewrite (map_set_fresh_app _ _ _ _ Hg).
  rewrite call_handlers_all_return.
  - unfold calls. rewrite map_app. reflexivity.
  - intros i h Hin. apply in_app_or in Hin. destruct Hin as [Hin|[Hin|[]]].
    + exact (Hall i h Hin).
    + injection Hin as <- <-. exact Hh.
Qed.

(** A second handler joins the one of the sample service. *)
Lemma registered_handler_is_called_last_witness :
  let s := one_channel_service [(1%Z, fun _ => true)] in
  let s' := fst (Connection.addMessageHandler s (fun _ => true) 2%Z) in
  Connection.dispatchEvent s' application_message
  = returns s' [Called 1 (VPrim (JStr "hello"));
                Called 2 (VPrim (JStr "hello"))].
Proof.
  intros s s'.
  apply (registered_handler_is_called_last s (fun _ => true) 2%Z
           application_message "t1" eq_refl eq_refl eq_refl).
  - simpl. intros i h [H|[]]. injection H as <- <-. reflexivity.
  - reflexivity.
Defined.

Lemma removeMessageHandler_none :
  forall (s : Connection.MessagingService) (handlerId : Z),
    NoDup (map_keys (Connection.handlers s)) ->
    map_get Z.eqb handlerId
      (Connection.handlers (Connection.removeMessageHandler s handlerId))
    = None.
Proof.
  intros s handlerId Hnd. unfold Connection.removeMessageHandler.
  destruct (map_has Z.eqb handlerId (Connection.handlers s)) eqn:Hhas;
    cbn [Connection.set_handlers Connection.handlers].
  - apply (map_get_delete_same _ _ Z.eqb Z_eqb_spec). exact Hnd.
  - unfold map_has in Hhas.
    destruct (map_get Z.eqb handlerId (Connection.handlers s));
      [discriminate | reflexivity].
Qed.

(** X5. A handler that was removed is not called any more: after
    [removeMessageHandler], on a table without repeated ids, no dispatch
    calls under the removed id, whatever the message. *)
Theorem removed_handler_is_not_called :
  forall (s : Connection.MessagingService) (handlerId : Z)
         (message : EventData) (d : JsVal),
    NoDup (map_keys (Connection.handlers s)) ->
    ~ In (Called handlerId d)
         (trace (Connection.dispatchEvent
                   (Connection.removeMessageHandler s handlerId) message)).
Proof.
  intros s handlerId message d Hnd Hin.
  assert (Hkey : In handlerId
                    (map_keys (Connection.handlers
                                 (Connection.removeMessageHandler s handlerId)))).
  { unfold Connection.dispatchEvent in Hin.
    destruct (token_of message); [|destruct Hin].
    destruct (negb _); [destruct Hin|].
    destruct (call_handlers _ _) as [tr c] eqn:Hc. cbn [trace] in Hin.
    apply (call_handlers_trace_in _ (data_of message) _ d).
    rewrite Hc. exact Hin. }
  pose proof (removeMessageHandler_none s handlerId Hnd) as Hnone.
  apply (map_get_none_keys _ _ Z.eqb Z_eqb_spec) in Hnone.
  exact (Hnone Hkey).
Qed.

(** The removed handler [2] is not called on the sample message. *)
Lemma removed_handler_is_not_called_witness :
  ~ In (Called 2 (VPrim (JStr "hello")))
       (trace (Connection.dispatchEvent
                 (Connection.removeMessageHandler
                    (one_channel_service
                       [(1%Z, fun _ => true); (2%Z, fun _ => true)]) 2%Z)
                 application_message)).
Proof.
  apply (removed_handler_is_not_called
           (one_channel_service [(1%Z, fun _ => true); (2%Z, fun _ => true)])
           2%Z application_message (VPrim (JStr "hello"))).
  simpl. constructor; [intros [H|[]]; discriminate H|].
  constructor; [intros []|]. constructor.
Defined.

(** ** The bootstrap of [src/connection.ts] *)

(** X6. [connectToFrame] of [src/connection.ts] throws "Frame or
    contentWindow is null." when the service has no frame or the frame has no
    window, and then changes and posts nothing. With a window at hand it
    files a fresh uninitialized channel under the drawn token and posts
    [{source: id, token, state: "SYN", frame: 1}] to the frame's window;
    when that post throws, the exception leaves the channel filed. *)
Theorem connectToFrame_needs_window :
  forall transport (s : Connection.MessagingService) (random : string),
    let r := Connection.connectToFrame transport s random in
    let fresh w := {| Connection.destination := UNKNOWN_DESTINATION;
                      Connection.initialized := false;
                      Connection.token := random;
                      Connection.window := Some w |} in
    (Connection.frame s = None \/
     (exists f, Connection.frame s = Some f /\ contentWindow f = None) ->
     r = throws s [] MissingFrameReference) /\
    (forall f w,
        Connection.frame s = Some f -> contentWindow f = Some w ->
        map_get String.eqb random (Connection.channels (after r))
        = Some (fresh w) /\
        (transport w (syn_message (Connection.id s) random) = true ->
         trace r = [Sent w (syn_message (Connection.id s) random)
                         (Connection.target s)] /\
         completion r = Normal) /\
        (transport w (syn_message (Connection.id s) random) = false ->
         trace r = [] /\ completion r = Throw (SendFailed w))).
Proof.
  intros transport s random r fresh. subst r fresh.
  unfold Connection.connectToFrame. split.
  - intros [Hf | [f [Hf Hw]]]; rewrite Hf; [reflexivity|].
    rewrite Hw. reflexivity.
  - intros f w Hf Hw. rewrite Hf, Hw.
    unfold Connection.postInitializationMessage,
      Connection.postMessageInternal, syn_message.
    cbn [Connection.window Connection.set_channels Connection.target
         Connection.id].
    destruct (transport w _); cbn [after trace completion Connection.channels];
      (split; [apply (map_get_set_same _ _ String.eqb string_eqb_spec)|]);
      split; try discriminate; intros _; split; reflexivity.
Qed.

(** ** What the listener lets through ([src/connection.ts]) *)

(** X7. From the trusted origin, an application message (an object
    without a [state]) whose token has no channel in the registry is
    dropped: [listener] returns with the service as it was, no handler
    called and nothing posted. *)
Theorem listener_drops_unknown_token :
  forall transport (s : Connection.MessagingService) (event : MessageEvent)
         (m : App.Message),
    origin event = Connection.target s ->
    data event = DApp m ->
    map_has String.eqb (App.token m) (Connection.channels s) = false ->
    Connection.listener transport s event = returns s [].
Proof.
  intros transport s event m Ho Hm Hno. unfold Connection.listener.
  rewrite Ho, String.eqb_refl, Hm. cbn [negb truthy].
  unfold Connection.dispatchEvent. cbn [token_of]. rewrite Hno. reflexivity.
Qed.

(** A message for the token "t9", of which the service knows nothing. *)
Lemma listener_drops_unknown_token_witness :
  let s := one_channel_service [(1%Z, fun _ => true)] in
  Connection.listener accept_all s
    {| origin := sample_origin;
       data := DApp {| App.token := "t9"; App.data := VPrim (JNum 1) |};
       source := Some 7 |} = returns s [].
Proof.
  intro s.
  apply (listener_drops_unknown_token accept_all s
           {| origin := sample_origin;
              data := DApp {| App.token := "t9";
                              App.data := VPrim (JNum 1) |};
              source := Some 7 |}
           {| App.token := "t9"; App.data := VPrim (JNum 1) |});
    reflexivity.
Defined.

(** X8. A handshake message whose [state] is none of "SYN", "SYN+ACK" and
    "ACK" (the "FIN" of the later generation among them) falls through every
    branch of [initialize]: nothing changes and nothing is posted, in both
    generations. *)
Theorem unknown_state_is_ignored :
  forall transport (s : Connection.MessagingService)
         (s' : Handshake.MessagingService) (message : Init.Message)
         (src : option WindowProxy),
    Init.state message <> "SYN" ->
    Init.state message <> "SYN+ACK" ->
    Init.state message <> "ACK" ->
    Connection.initialize transport s message src = returns s [] /\
    Handshake.initialize transport s' message src = returns s' [].
Proof.
  intros transport s s' message src H1 H2 H3.
  unfold Connection.initialize, Handshake.initialize.
  destruct (String.eqb_spec (Init.state message) "SYN+ACK"); [contradiction|].
  destruct (String.eqb_spec (Init.state message) "SYN"); [contradiction|].
  destruct (String.eqb_spec (Init.state message) "ACK"); [contradiction|].
  split; reflexivity.
Qed.

(** A "FIN" on the wire. *)
Lemma unknown_state_is_ignored_witness :
  Handshake.listener accept_all (Handshake.service handshake_responder)
    (handshake_event "t1" "A" "FIN" 4 (Some 7))
  = returns (Handshake.service handshake_responder) [].
Proof.
  refine (proj2 (unknown_state_is_ignored accept_all
                   (Connection.service connection_responder)
                   (Handshake.service handshake_responder)
                   {| Init.token := "t1"; Init.source := "A";
                      Init.state := "FIN"; Init.frame := 4 |} (Some 7)
                   _ _ _)); discriminate.
Defined.


Lemma call_handlers_only_calls :
  forall hs d, only_calls_handlers (fst (call_handlers hs d)).
Proof.
  intros hs d. induction hs as [|[i h] hs IH]; simpl.
  - intros e [].
  - destruct (h d).
    + destruct (call_handlers hs d) as [tr c]. simpl in *.
      intros e [<-|H]; [exists i, d; reflexivity | exact (IH e H)].
    + intros e [<-|[]]. exists i, d. reflexivity.
Qed.


(** ** Completing the handshake ([src/connection.ts]) *)

(** X10. The first [SYN+ACK] or [ACK] for a channel that is filed and not
    yet initialized marks it initialized with the announced source as
    destination and keeps the window recorded at creation ([event.source] of
    the reply is not used); the other records stay. On [SYN+ACK] the [ACK]
    with the frame plus one (as JavaScript adds numbers) goes to the recorded
    window and the interval is cleared after it; when the post throws the channel is initialized all
    the same and the interval is not cleared. On [ACK] nothing is posted and
    no timer is touched. *)
Theorem first_reply_completes_channel :
  forall transport (s : Connection.MessagingService) (message : Init.Message)
         (src : option WindowProxy) (c : Connection.Channel),
    map_get String.eqb (Init.token message) (Connection.channels s) = Some c ->
    Connection.initialized c = false ->
    Init.state message = "SYN+ACK" \/ Init.state message = "ACK" ->
    let r := Connection.initialize transport s message src in
    map_get String.eqb (Init.token message) (Connection.channels (after r))
    = Some {| Connection.destination := Init.source message;
              Connection.initialized := true;
              Connection.token := Init.token message;
              Connection.window := Connection.window c |} /\
    (forall t, t <> Init.token message ->
               map_get String.eqb t (Connection.channels (after r))
               = map_get String.eqb t (Connection.channels s)) /\
    (Init.state message = "ACK" -> trace r = [] /\ completion r = Normal) /\
    (Init.state message = "SYN+ACK" ->
     match Connection.window c with
     | None => trace r = Connection.clear_interval s /\ completion r = Normal
     | Some w =>
         if transport w (ack_reply (Connection.id s) message)
         then trace r = Sent w (ack_reply (Connection.id s) message)
                             (Connection.target s)
                        :: Connection.clear_interval s /\
              completion r = Normal
         else trace r = [] /\ completion r = Throw (SendFailed w)
     end).
Proof.
  intros transport s message src c Hget Hinit Hst r. subst r.
  unfold Connection.initialize, map_has. rewrite Hget, Hinit.
  unfold Connection.postInitializationMessage,
    Connection.postMessageInternal, ack_reply.
  cbn [Connection.window Connection.set_channels Connection.target
       Connection.id].
  destruct Hst as [Hs | Hs]; rewrite Hs;
    cbn [String.eqb Ascii.eqb Bool.eqb].
  - split; [|split; [|split]].
    + destruct (Connection.window c) as [w|]; [destruct (transport w _)|];
        cbn [after returns throws Connection.channels];
        apply (map_get_set_same _ _ String.eqb string_eqb_spec).
    + intros t Ht.
      destruct (Connection.window c) as [w|]; [destruct (transport w _)|];
        cbn [after returns throws Connection.channels];
        apply (map_get_set_other _ _ String.eqb string_eqb_spec); exact Ht.
    + discriminate.
    + intros _. destruct (Connection.window c) as [w|].
      * destruct (transport w _); split; reflexivity.
      * split; reflexivity.
  - split; [|split; [|split]].
    + cbn [after returns Connection.set_channels Connection.channels].
      apply (map_get_set_same _ _ String.eqb string_eqb_spec).
    + intros t Ht.
      cbn [after returns Connection.set_channels Connection.channels].
      apply (map_get_set_other _ _ String.eqb string_eqb_spec). exact Ht.
    + intros _. split; reflexivity.
    + discriminate.
Qed.

(** The initiator "A" receives the [SYN+ACK] of "B" from another window
    than the frame's, and answers the frame's window. *)
Lemma first_reply_completes_channel_witness :
  let s := Connection.service
             (Connection.run accept_all connection_initiator
                [Connection.Tick 1%positive "t1"]) in
  let r := Connection.listener accept_all s
             (handshake_event "t1" "B" "SYN+ACK" 2 (Some 4)) in
  map_get String.eqb "t1" (Connection.channels (after r))
  = Some {| Connection.destination := "B";
            Connection.initialized := true;
            Connection.token := "t1";
            Connection.window := Some 9 |}.
Proof.
  intros s r.
  exact (proj1 (first_reply_completes_channel accept_all s
                  {| Init.token := "t1"; Init.source := "B";
                     Init.state := "SYN+ACK"; Init.frame := 2 |} (Some 4)
                  {| Connection.destination := UNKNOWN_DESTINATION;
                     Connection.initialized := false;
                     Connection.token := "t1";
                     Connection.window := Some 9 |}
                  eq_refl eq_refl (or_introl eq_refl))).
Defined.

(** ** Where posts go *)

Lemma posts_only_to_nil : forall o, posts_only_to o [].
Proof. intros o w m o' []. Qed.

Lemma posts_only_to_app :
  forall o tr tr',
    posts_only_to o tr -> posts_only_to o tr' -> posts_only_to o (tr ++ tr').
Proof.
  intros o tr tr' H H' w m o' Hin. apply in_app_or in Hin.
  destruct Hin as [Hin|Hin]; [exact (H w m o' Hin) | exact (H' w m o' Hin)].
Qed.

Lemma connection_internal_posts_to_target :
  forall transport s data channel,
    posts_only_to (Connection.target s)
      (fst (Connection.postMessageInternal transport s data channel)).
Proof.
  intros transport s data channel. unfold Connection.postMessageInternal.
  destruct (Connection.window channel) as [w|]; [|apply posts_only_to_nil].
  destruct (transport w data); [|apply posts_only_to_nil].
  intros w' m o' [H|[]]. injection H as _ _ <-. reflexivity.
Qed.

Lemma connection_clear_posts_nothing :
  forall o s, posts_only_to o (Connection.clear_interval s).
Proof.
  intros o s w m o'. unfold Connection.clear_interval.
  destruct (Connection.interval s); [intros [H|[]]; discriminate H | intros []].
Qed.

Lemma calls_post_nothing :
  forall o tr, only_calls_handlers tr -> posts_only_to o tr.
Proof.
  intros o tr H w m o' Hin. destruct (H _ Hin) as [i [d He]]. discriminate He.
Qed.

Lemma connection_post_each_to_target :
  forall transport s d cs,
    posts_only_to (Connection.target s)
      (fst (Connection.post_each transport s d cs)).
Proof.
  intros transport s d cs. induction cs as [|c cs IH]; simpl.
  - apply posts_only_to_nil.
  - pose proof (connection_internal_posts_to_target transport s
                  (PApp {| App.token := Connection.token c; App.data := d |})
                  c) as Hc.
    destruct (Connection.postMessageInternal _ _ _ _) as [tr [|e]].
    + destruct (Connection.post_each transport s d cs) as [tr' c'].
      simpl in *. apply posts_only_to_app; assumption.
    + exact Hc.
Qed.

(** X11. Whatever [src/connection.ts] posts, it posts with the configured
    target as [targetOrigin]: every post made by [listener], by
    [connectToFrame] and by [postMessage] names the target origin of the
    service, whatever the inbound event announces. *)
Theorem every_post_names_the_target :
  forall transport (s : Connection.MessagingService) (event : MessageEvent)
         (random : string) (d : JsVal),
    posts_only_to (Connection.target s)
      (trace (Connection.listener transport s event)) /\
    posts_only_to (Connection.target s)
      (trace (Connection.connectToFrame transport s random)) /\
    posts_only_to (Connection.target s)
      (trace (Connection.postMessage transport s d)).
Proof.
  intros transport s event random d.
  assert (Hinit : forall m src,
             posts_only_to (Connection.target s)
               (trace (Connection.initialize transport s m src))).
  { intros m src. unfold Connection.initialize,
      Connection.postInitializationMessage.
    destruct (String.eqb (Init.state m) "SYN+ACK").
    - destruct (map_has String.eqb _ _); [|apply posts_only_to_nil].
      destruct (map_get String.eqb _ _) as [c|]; [|apply posts_only_to_nil].
      destruct (Connection.initialized c); [apply posts_only_to_nil|].
      match goal with
      | |- context [Connection.postMessageInternal ?t ?s1 ?x ?y] =>
          pose proof (connection_internal_posts_to_target t s1 x y) as Hc;
          destruct (Connection.postMessageInternal t s1 x y) as [tr [|e]]
      end; cbn [fst trace returns throws Connection.set_channels
                Connection.target] in *.
      + apply posts_only_to_app; [exact Hc|].
        apply connection_clear_posts_nothing.
      + exact Hc.
    - destruct (String.eqb (Init.state m) "SYN").
      + match goal with
        | |- context [Connection.postMessageInternal ?t ?s1 ?x ?y] =>
            pose proof (connection_internal_posts_to_target t s1 x y) as Hc;
            destruct (Connection.postMessageInternal t s1 x y) as [tr c]
        end. exact Hc.
      + destruct (String.eqb (Init.state m) "ACK"); [|apply posts_only_to_nil].
        destruct (map_has String.eqb _ _); [|apply posts_only_to_nil].
        destruct (map_get String.eqb _ _) as [c|]; [|apply posts_only_to_nil].
        destruct (Connection.initialized c); apply posts_only_to_nil. }
  assert (Hdisp : forall x,
             posts_only_to (Connection.target s)
               (trace (Connection.dispatchEvent s x))).
  { intro x. apply calls_post_nothing. unfold Connection.dispatchEvent.
    destruct (token_of x); [|intros e []].
    destruct (negb _); [intros e []|].
    pose proof (call_handlers_only_calls (Connection.handlers s) (data_of x))
      as Hc.
    destruct (call_handlers _ _) as [tr c]. exact Hc. }
  split; [|split].
  - unfold Connection.listener.
    destruct (negb _); [apply posts_only_to_nil|].
    destruct (truthy (data event)); [|apply posts_only_to_nil].
    destruct (data event) as [p|m|m]; try apply Hdisp.
    destruct (str_truthy (Init.state m)); [apply Hinit | apply Hdisp].
  - unfold Connection.connectToFrame, Connection.postInitializationMessage.
    destruct (Connection.frame s) as [f|]; [|apply posts_only_to_nil].
    destruct (contentWindow f) as [w|]; [|apply posts_only_to_nil].
    match goal with
    | |- context [Connection.postMessageInternal ?t ?s1 ?x ?y] =>
        pose proof (connection_internal_posts_to_target t s1 x y) as Hc;
        destruct (Connection.postMessageInternal t s1 x y) as [tr c]
    end. exact Hc.
  - unfold Connection.postMessage.
    destruct (Nat.eqb _ 0); [apply posts_only_to_nil|].
    destruct (negb _); [apply posts_only_to_nil|].
    pose proof (connection_post_each_to_target transport s d
                  (map_values (Connection.channels s))) as Hc.
    destruct (Connection.post_each _ _ _ _) as [tr c]. exact Hc.
Qed.

(** ** How a step changes the service ([src/connection.ts]) *)

Ltac filed_channel :=
  match goal with
  | |- context [map_set String.eqb _ ?c _] => exists c
  end.

Lemma connection_initialize_shape :
  forall transport s message src,
    let s' := after (Connection.initialize transport s message src) in
    s' = s \/
    exists c, s' = connection_files s c /\
              Connection.token c = Init.token message.
Proof.
  intros transport s message src s'. subst s'.
  unfold Connection.initialize.
  destruct (String.eqb (Init.state message) "SYN+ACK").
  - destruct (map_has String.eqb _ _); [|left; reflexivity].
    destruct (map_get String.eqb _ _) as [c|]; [|left; reflexivity].
    destruct (Connection.initialized c); [left; reflexivity|].
    right.
    destruct (Connection.postInitializationMessage _ _ _ _) as [tr [|e]];
      cbn [after returns throws]; filed_channel; split; reflexivity.
  - destruct (String.eqb (Init.state message) "SYN").
    + right.
      destruct (Connection.postInitializationMessage _ _ _ _) as [tr c].
      cbn [after]. filed_channel. split; reflexivity.
    + destruct (String.eqb (Init.state message) "ACK"); [|left; reflexivity].
      destruct (map_has String.eqb _ _); [|left; reflexivity].
      destruct (map_get String.eqb _ _) as [c|]; [|left; reflexivity].
      destruct (Connection.initialized c); [left; reflexivity|].
      right. cbn [after returns]. filed_channel. split; reflexivity.
Qed.

Lemma connection_listener_shape :
  forall transport s event,
    let s' := after (Connection.listener transport s event) in
    s' = s \/ exists c, s' = connection_files s c.
Proof.
  intros transport s event s'. subst s'. unfold Connection.listener.
  destruct (negb _); [left; reflexivity|].
  destruct (truthy (data event)); [|left; reflexivity].
  destruct (data event) as [p|m|m];
    try (left; apply connection_dispatchEvent_after).
  destruct (str_truthy (Init.state m));
    [|left; apply connection_dispatchEvent_after].
  destruct (connection_initialize_shape transport s m (source event))
    as [H | [c [H _]]]; [left; exact H | right; exists c; exact H].
Qed.

Lemma connection_connectToFrame_shape :
  forall transport s random,
    let s' := after (Connection.connectToFrame transport s random) in
    s' = s \/ exists c, s' = connection_files s c.
Proof.
  intros transport s random s'. subst s'. unfold Connection.connectToFrame.
  destruct (Connection.frame s) as [f|]; [|left; reflexivity].
  destruct (contentWindow f) as [w|]; [|left; reflexivity].
  right. destruct (Connection.postInitializationMessage _ _ _ _) as [tr c].
  cbn [after]. filed_channel. reflexivity.
Qed.

(** What holds of a service and survives the filing of a channel under its
    token, a [set] and a [delete] of the handler table, holds after every
    run. *)
Lemma connection_run_invariant :
  forall (P : Connection.MessagingService -> Prop),
    (forall s c, P s -> P (connection_files s c)) ->
    (forall s k h, P s ->
       P (Connection.set_handlers s
            (map_set Z.eqb k h (Connection.handlers s)))) ->
    (forall s k, P s ->
       P (Connection.set_handlers s
            (map_delete Z.eqb k (Connection.handlers s)))) ->
    forall transport inputs sys,
      P (Connection.service sys) ->
      P (Connection.service (Connection.run transport sys inputs)).
Proof.
  intros P Hfile Hset Hdel transport inputs. unfold Connection.run.
  induction inputs as [|i inputs IH]; intros sys HP; [exact HP|].
  cbn [fold_left]. apply IH. clear IH.
  destruct i as [h random|event|f k|k|d]; cbn [Connection.step].
  - destruct (existsb _ _); [|exact HP].
    cbn [Connection.settle Connection.service].
    destruct (connection_connectToFrame_shape transport
                (Connection.service sys) random) as [-> | [c ->]];
      [exact HP | apply Hfile; exact HP].
  - cbn [Connection.settle Connection.service].
    destruct (connection_listener_shape transport
                (Connection.service sys) event) as [-> | [c ->]];
      [exact HP | apply Hfile; exact HP].
  - cbn [Connection.service Connection.addMessageHandler fst].
    apply Hset. exact HP.
  - cbn [Connection.service]. unfold Connection.removeMessageHandler.
    destruct (map_has Z.eqb _ _); [apply Hdel; exact HP | exact HP].
  - cbn [Connection.settle Connection.service].
    rewrite connection_postMessage_after. exact HP.
Qed.

Lemma connection_boot_service :
  forall target frame overrideId random h sys,
    Connection.boot target frame overrideId random h = Some sys ->
    target <> WILDCARD_TARGET /\
    Connection.target (Connection.service sys) = target /\
    Connection.frame (Connection.service sys) = frame /\
    Connection.id (Connection.service sys)
    = match overrideId with Some i => i | None => random end /\
    Connection.handlers (Connection.service sys) = [] /\
    Connection.channels (Connection.service sys) = [] /\
    Connection.live sys = match frame with Some _ => [h] | None => [] end.
Proof.
  intros target frame overrideId random h sys.
  unfold Connection.boot, Connection.constructor.
  destruct (String.eqb_spec target WILDCARD_TARGET) as [E|E]; [discriminate|].
  destruct frame as [f|]; intros [= <-]; cbn; repeat split; exact E.
Qed.

(** X12. In every state [src/connection.ts] reaches from its construction,
    every registry entry is filed under the token its record carries, no
    token is filed twice, and no handler id is registered twice. *)
Theorem connection_keys_are_tokens :
  forall transport target frame overrideId random h sys inputs,
    Connection.boot target frame overrideId random h = Some sys ->
    let s := Connection.service (Connection.run transport sys inputs) in
    connection_registry_keyed s /\
    NoDup (map_keys (Connection.handlers s)).
Proof.
  intros transport target frame overrideId random h sys inputs Hboot s.
  subst s.
  apply (connection_run_invariant
           (fun s => connection_registry_keyed s /\
                     NoDup (map_keys (Connection.handlers s)))).
  - intros s c [[Hk Hnd] Hh]. split; [split|exact Hh].
    + intros k x Hin. unfold connection_files in Hin.
      cbn [Connection.set_channels Connection.channels] in Hin.
      apply map_set_in in Hin. destruct Hin as [Hin|Hin].
      * injection Hin as Hkey Hrec. rewrite Hkey, Hrec. reflexivity.
      * exact (Hk k x Hin).
    + unfold connection_files.
      cbn [Connection.set_channels Connection.channels].
      apply (map_set_keys_nodup _ _ String.eqb string_eqb_spec). exact Hnd.
  - intros s k x [Hk Hh]. split; [exact Hk|].
    cbn [Connection.set_handlers Connection.handlers].
    apply (map_set_keys_nodup _ _ Z.eqb Z_eqb_spec). exact Hh.
  - intros s k [Hk Hh]. split; [exact Hk|].
    cbn [Connection.set_handlers Connection.handlers].
    apply map_delete_keys_nodup. exact Hh.
  - destruct (connection_boot_service _ _ _ _ _ _ Hboot)
      as [_ [_ [_ [_ [Hh [Hc _]]]]]].
    unfold connection_registry_keyed. rewrite Hh, Hc. cbn.
    repeat split; try constructor. intros k c [].
Qed.

(** The registry of the initiator after two ticks and a reply. *)
Lemma connection_keys_are_tokens_witness :
  connection_registry_keyed
    (Connection.service
       (Connection.run accept_all connection_initiator
          [Connection.Tick 1%positive "t1"; Connection.Tick 1%positive "t2";
           Connection.Deliver synack_from_B])).
Proof.
  exact (proj1 (connection_keys_are_tokens accept_all sample_origin
                  (Some frame_of_B) (Some "A") "0" 1%positive
                  connection_initiator
                  [Connection.Tick 1%positive "t1";
                   Connection.Tick 1%positive "t2";
                   Connection.Deliver synack_from_B] eq_refl)).
Defined.

(** X13. [src/connection.ts] never takes a channel out of its registry and
    never changes what it was constructed with: after any run a token that
    was filed is still filed, the registry is at least as large, and the
    target origin, the identity and the frame are those of before. *)
Theorem connection_registry_only_grows :
  forall transport (sys : Connection.System) (inputs : list Connection.Input),
    let s := Connection.service sys in
    let s' := Connection.service (Connection.run transport sys inputs) in
    (forall t, map_has String.eqb t (Connection.channels s) = true ->
               map_has String.eqb t (Connection.channels s') = true) /\
    map_size (Connection.channels s) <= map_size (Connection.channels s') /\
    Connection.target s' = Connection.target s /\
    Connection.id s' = Connection.id s /\
    Connection.frame s' = Connection.frame s.
Proof.
  intros transport sys inputs s s'. subst s s'.
  apply (connection_run_invariant
           (fun x =>
              (forall t, map_has String.eqb t
                           (Connection.channels (Connection.service sys))
                         = true ->
                         map_has String.eqb t (Connection.channels x) = true) /\
              map_size (Connection.channels (Connection.service sys))
              <= map_size (Connection.channels x) /\
              Connection.target x = Connection.target (Connection.service sys) /\
              Connection.id x = Connection.id (Connection.service sys) /\
              Connection.frame x
              = Connection.frame (Connection.service sys))).
  - intros x c [Hhas [Hsize Hrest]]. split; [|split; [|exact Hrest]].
    + intros t Ht. specialize (Hhas t Ht). unfold connection_files, map_has.
      cbn [Connection.set_channels Connection.channels].
      destruct (String.eqb_spec t (Connection.token c)) as [->|Hne].
      * rewrite (map_get_set_same _ _ String.eqb string_eqb_spec).
        reflexivity.
      * rewrite (map_get_set_other _ _ String.eqb string_eqb_spec)
          by exact Hne.
        exact Hhas.
    + unfold connection_files.
      cbn [Connection.set_channels Connection.channels].
      rewrite map_set_size. destruct (map_has String.eqb _ _); lia.
  - intros x k hd H. exact H.
  - intros x k H. exact H.
  - repeat split; auto.
Qed.

(** ** The interval of [src/connection.ts] *)

Lemma apply_effects_app :
  forall tr tr' live,
    apply_effects (tr ++ tr') live = apply_effects tr' (apply_effects tr live).
Proof.
  induction tr as [|e tr IH]; intros tr' live; [reflexivity|].
  destruct e; cbn [app apply_effects]; apply IH.
Qed.

Lemma apply_effects_incl :
  forall tr live,
    sets_no_timer tr ->
    forall x, In x (apply_effects tr live) -> In x live.
Proof.
  induction tr as [|e tr IH]; intros live Hno x Hin; [exact Hin|].
  assert (Hno' : sets_no_timer tr).
  { intros h Hh. apply (Hno h). right. exact Hh. }
  destruct e as [w m o|i d|h|h]; cbn [apply_effects] in Hin.
  - exact (IH live Hno' x Hin).
  - exact (IH live Hno' x Hin).
  - apply (IH _ Hno' x) in Hin. apply filter_In in Hin. exact (proj1 Hin).
  - elim (Hno h). left. reflexivity.
Qed.

Lemma sets_no_timer_app :
  forall tr tr',
    sets_no_timer tr -> sets_no_timer tr' -> sets_no_timer (tr ++ tr').
Proof.
  intros tr tr' H H' h Hin. apply in_app_or in Hin.
  destruct Hin as [Hin|Hin]; [exact (H h Hin) | exact (H' h Hin)].
Qed.

Lemma sets_no_timer_nil : sets_no_timer [].
Proof. intros h []. Qed.

Lemma calls_set_no_timer :
  forall tr, only_calls_handlers tr -> sets_no_timer tr.
Proof.
  intros tr H h Hin. destruct (H _ Hin) as [i [d He]]. discriminate He.
Qed.

Lemma connection_internal_sets_no_timer :
  forall transport s data channel,
    sets_no_timer
      (fst (Connection.postMessageInternal transport s data channel)).
Proof.
  intros transport s data channel. unfold Connection.postMessageInternal.
  destruct (Connection.window channel) as [w|]; [|apply sets_no_timer_nil].
  destruct (transport w data); [|apply sets_no_timer_nil].
  intros h [H|[]]. discriminate H.
Qed.

Lemma connection_clear_sets_no_timer :
  forall s, sets_no_timer (Connection.clear_interval s).
Proof.
  intros s h. unfold Connection.clear_interval.
  destruct (Connection.interval s); [intros [H|[]]; discriminate H | intros []].
Qed.

Lemma connection_initialize_sets_no_timer :
  forall transport s m src,
    sets_no_timer (trace (Connection.initialize transport s m src)).
Proof.
  intros transport s m src. unfold Connection.initialize,
    Connection.postInitializationMessage.
  destruct (String.eqb (Init.state m) "SYN+ACK").
  - destruct (map_has String.eqb _ _); [|apply sets_no_timer_nil].
    destruct (map_get String.eqb _ _) as [c|]; [|apply sets_no_timer_nil].
    destruct (Connection.initialized c); [apply sets_no_timer_nil|].
    match goal with
    | |- context [Connection.postMessageInternal ?t ?s1 ?x ?y] =>
        pose proof (connection_internal_sets_no_timer t s1 x y) as Hc;
        destruct (Connection.postMessageInternal t s1 x y) as [tr [|e]]
    end; cbn [fst trace returns throws] in *.
    + apply sets_no_timer_app; [exact Hc|].
      apply connection_clear_sets_no_timer.
    + exact Hc.
  - destruct (String.eqb (Init.state m) "SYN").
    + match goal with
      | |- context [Connection.postMessageInternal ?t ?s1 ?x ?y] =>
          pose proof (connection_internal_sets_no_timer t s1 x y) as Hc;
          destruct (Connection.postMessageInternal t s1 x y) as [tr c]
      end. exact Hc.
    + destruct (String.eqb (Init.state m) "ACK"); [|apply sets_no_timer_nil].
      destruct (map_has String.eqb _ _); [|apply sets_no_timer_nil].
      destruct (map_get String.eqb _ _) as [c|]; [|apply sets_no_timer_nil].
      destruct (Connection.initialized c); apply sets_no_timer_nil.
Qed.

Lemma connection_dispatch_only_calls :
  forall s x, only_calls_handlers (trace (Connection.dispatchEvent s x)).
Proof.
  intros s x. unfold Connection.dispatchEvent.
  destruct (token_of x); [|intros e []].
  destruct (negb _); [intros e []|].
  pose proof (call_handlers_only_calls (Connection.handlers s) (data_of x))
    as Hc.
  destruct (call_handlers _ _) as [tr c]. exact Hc.
Qed.

Lemma connection_listener_sets_no_timer :
  forall transport s event,
    sets_no_timer (trace (Connection.listener transport s event)).
Proof.
  intros transport s event. unfold Connection.listener.
  destruct (negb _); [apply sets_no_timer_nil|].
  destruct (truthy (data event)); [|apply sets_no_timer_nil].
  destruct (data event) as [p|m|m];
    try (apply calls_set_no_timer, connection_dispatch_only_calls).
  destruct (str_truthy (Init.state m)).
  - apply connection_initialize_sets_no_timer.
  - apply calls_set_no_timer, connection_dispatch_only_calls.
Qed.

Lemma connection_connectToFrame_sets_no_timer :
  forall transport s random,
    sets_no_timer (trace (Connection.connectToFrame transport s random)).
Proof.
  intros transport s random. unfold Connection.connectToFrame,
    Connection.postInitializationMessage.
  destruct (Connection.frame s) as [f|]; [|apply sets_no_timer_nil].
  destruct (contentWindow f) as [w|]; [|apply sets_no_timer_nil].
  match goal with
  | |- context [Connection.postMessageInternal ?t ?s1 ?x ?y] =>
      pose proof (connection_internal_sets_no_timer t s1 x y) as Hc;
      destruct (Connection.postMessageInternal t s1 x y) as [tr c]
  end. exact Hc.
Qed.

Lemma connection_post_each_sets_no_timer :
  forall transport s d cs,
    sets_no_timer (fst (Connection.post_each transport s d cs)).
Proof.
  intros transport s d cs. induction cs as [|c cs IH]; simpl.
  - apply sets_no_timer_nil.
  - pose proof (connection_internal_sets_no_timer transport s
                  (PApp {| App.token := Connection.token c; App.data := d |})
                  c) as Hc.
    destruct (Connection.postMessageInternal _ _ _ _) as [tr [|e]].
    + destruct (Connection.post_each transport s d cs) as [tr' c'].
      simpl in *. apply sets_no_timer_app; assumption.
    + exact Hc.
Qed.

Lemma connection_postMessage_sets_no_timer :
  forall transport s d,
    sets_no_timer (trace (Connection.postMessage transport s d)).
Proof.
  intros transport s d. unfold Connection.postMessage.
  destruct (Nat.eqb _ 0); [apply sets_no_timer_nil|].
  destruct (negb _); [apply sets_no_timer_nil|].
  pose proof (connection_post_each_sets_no_timer transport s d
                (map_values (Connection.channels s))) as Hc.
  destruct (Connection.post_each _ _ _ _) as [tr c]. exact Hc.
Qed.

Lemma connection_step_live :
  forall transport sys i x,
    In x (Connection.live (Connection.step transport sys i)) ->
    In x (Connection.live sys).
Proof.
  intros transport sys i x. destruct i as [h random|event|f k|k|d];
    cbn [Connection.step].
  - destruct (existsb _ _); [|exact (fun H => H)].
    cbn [Connection.settle Connection.live].
    apply apply_effects_incl, connection_connectToFrame_sets_no_timer.
  - cbn [Connection.settle Connection.live].
    apply apply_effects_incl, connection_listener_sets_no_timer.
  - exact (fun H => H).
  - exact (fun H => H).
  - cbn [Connection.settle Connection.live].
    apply apply_effects_incl, connection_postMessage_sets_no_timer.
Qed.

Lemma connection_run_live :
  forall transport inputs sys x,
    In x (Connection.live (Connection.run transport sys inputs)) ->
    In x (Connection.live sys).
Proof.
  intros transport inputs. unfold Connection.run.
  induction inputs as [|i inputs IH]; intros sys x Hin; [exact Hin|].
  cbn [fold_left] in Hin. apply IH in Hin.
  exact (connection_step_live transport sys i x Hin).
Qed.

Lemma connection_run_interval :
  forall transport inputs sys,
    Connection.interval (Connection.service
                           (Connection.run transport sys inputs))
    = Connection.interval (Connection.service sys).
Proof.
  intros transport inputs sys.
  apply (connection_run_invariant
           (fun x => Connection.interval x
                     = Connection.interval (Connection.service sys)));
    try (intros; assumption). reflexivity.
Qed.

Lemma filter_all_equal :
  forall (h : positive) (l : list positive),
    (forall x, In x l -> x = h) ->
    filter (fun h' => negb (Pos.eqb h h')) l = [].
Proof.
  intros h l. induction l as [|y l IH]; intro Hall; [reflexivity|].
  simpl. rewrite (Hall y) by (left; reflexivity).
  rewrite Pos.eqb_refl. simpl. apply IH.
  intros x Hx. apply Hall. right. exact Hx.
Qed.

(** X14. Once the initiator of [src/connection.ts] has accepted a
    [SYN+ACK] (for a filed, uninitialized channel, with the [ACK] posted if
    the channel has a window), its interval is cancelled for good: whatever
    comes after, no timer of the service is scheduled, so [connectToFrame]
    does not run again. *)
Theorem accepted_synack_stops_the_interval :
  forall transport target frame overrideId random h sys0 pre
         (event : MessageEvent) (m : Init.Message) (c : Connection.Channel)
         (post : list Connection.Input),
    Connection.boot target frame overrideId random h = Some sys0 ->
    let sys := Connection.run transport sys0 pre in
    origin event = target ->
    data event = DInit m ->
    Init.state m = "SYN+ACK" ->
    map_get String.eqb (Init.token m)
      (Connection.channels (Connection.service sys)) = Some c ->
    Connection.initialized c = false ->
    (forall w, Connection.window c = Some w ->
               transport w (ack_reply (Connection.id (Connection.service sys))
                              m) = true) ->
    Connection.live
      (Connection.run transport sys (Connection.Deliver event :: post)) = [].
Proof.
  intros transport target frame overrideId random h sys0 pre event m c post
         Hboot sys Ho Hd Hst Hget Hinit Hok.
  destruct (connection_boot_service _ _ _ _ _ _ Hboot)
    as [_ [Htgt [Hfr [_ [_ [_ Hlive]]]]]].
  assert (Hsub : forall x, In x (Connection.live sys) ->
                           In x (Connection.live sys0)).
  { intros x. apply connection_run_live. }
  assert (Hiv : Connection.interval (Connection.service sys)
                = Connection.interval (Connection.service sys0)).
  { apply connection_run_interval. }
  assert (Htg : Connection.target (Connection.service sys) = target).
  { rewrite <- Htgt.
    apply (connection_run_invariant
             (fun x => Connection.target x
                       = Connection.target (Connection.service sys0)));
      try (intros; assumption). reflexivity. }
  assert (Hstep : Connection.live
                    (Connection.step transport sys (Connection.Deliver event))
                  = []).
  { cbn [Connection.step Connection.settle Connection.live].
    unfold Connection.listener. rewrite Ho, Htg, String.eqb_refl, Hd.
    cbn [negb truthy]. rewrite Hst. cbn [str_truthy].
    unfold Connection.initialize, map_has. rewrite Hst.
    cbn [String.eqb Ascii.eqb Bool.eqb]. rewrite Hget, Hinit.
    unfold Connection.postInitializationMessage,
      Connection.postMessageInternal.
    cbn [Connection.window Connection.set_channels Connection.id
         Connection.target].
    assert (Hclear : apply_effects
                       (Connection.clear_interval (Connection.service sys))
                       (Connection.live sys) = []).
    { unfold Connection.clear_interval. rewrite Hiv.
      unfold Connection.boot, Connection.constructor in Hboot.
      destruct (String.eqb target WILDCARD_TARGET); [discriminate|].
      destruct frame as [f|]; injection Hboot as <-;
        cbn [Connection.service Connection.interval Connection.live
             apply_effects] in *.
      - apply filter_all_equal. intros x Hx.
        destruct (Hsub x Hx) as [<-|[]]. reflexivity.
      - destruct (Connection.live sys) as [|y l]; [reflexivity|].
        destruct (Hsub y (or_introl eq_refl)). }
    destruct (Connection.window c) as [w|] eqn:Hw.
    - unfold ack_reply in Hok. rewrite (Hok w eq_refl).
      cbn [trace returns app apply_effects]. exact Hclear.
    - cbn [trace returns app]. exact Hclear. }
  change (Connection.run transport sys (Connection.Deliver event :: post))
    with (Connection.run transport
            (Connection.step transport sys (Connection.Deliver event)) post).
  destruct (Connection.live (Connection.run transport
              (Connection.step transport sys (Connection.Deliver event)) post))
    as [|y l] eqn:E; [reflexivity|].
  assert (Hy : In y (Connection.live
                       (Connection.step transport sys
                          (Connection.Deliver event)))).
  { apply (connection_run_live transport post). rewrite E. left. reflexivity. }
  rewrite Hstep in Hy. destruct Hy.
Qed.

(** The initiator "A": one tick, the [SYN+ACK] of "B", and ticks that come
    too late. *)
Lemma accepted_synack_stops_the_interval_witness :
  Connection.live
    (Connection.run accept_all
       (Connection.run accept_all connection_initiator
          [Connection.Tick 1%positive "t1"])
       [Connection.Deliver synack_from_B; Connection.Tick 1%positive "t2"])
  = [].
Proof.
  apply (accepted_synack_stops_the_interval accept_all sample_origin
           (Some frame_of_B) (Some "A") "0" 1%positive connection_initiator
           [Connection.Tick 1%positive "t1"] synack_from_B
           {| Init.token := "t1"; Init.source := "B";
              Init.state := "SYN+ACK"; Init.frame := 2 |}
           {| Connection.destination := UNKNOWN_DESTINATION;
              Connection.initialized := false;
              Connection.token := "t1";
              Connection.window := Some 9 |}
           [Connection.Tick 1%positive "t2"]);
    try reflexivity.
Defined.

(** ** How a step changes the service (the generation with channel states) *)

Lemma handshake_initialize_shape :
  forall transport s message src,
    let s' := after (Handshake.initialize transport s message src) in
    s' = s \/
    exists c, s' = handshake_files s c /\
              Handshake.token c = Init.token message /\
              state_coherent c /\
              Handshake.state c <> Handshake.SYN /\
              (Handshake.initialized c = true ->
               Handshake.destination c = Init.source message).
Proof.
  intros transport s message src s'. subst s'.
  unfold Handshake.initialize.
  destruct (String.eqb (Init.state message) "SYN+ACK").
  - destruct (map_has String.eqb _ _); cbn [negb]; [|left; reflexivity].
    destruct (map_get String.eqb _ _) as [c|]; [|left; reflexivity].
    right.
    destruct (Handshake.postInitializationMessage _ _ _ _) as [tr [|e]];
      cbn [after returns throws]; filed_channel;
      (split; [reflexivity|]); (split; [reflexivity|]);
      (split; [reflexivity|]); (split; [discriminate | reflexivity]).
  - destruct (String.eqb (Init.state message) "SYN").
    + right.
      destruct (Handshake.postInitializationMessage _ _ _ _) as [tr c].
      cbn [after]. filed_channel.
      split; [reflexivity|]. split; [reflexivity|].
      split; [split; reflexivity|]. split; discriminate.
    + destruct (String.eqb (Init.state message) "ACK"); [|left; reflexivity].
      destruct (map_has String.eqb _ _); cbn [negb]; [|left; reflexivity].
      destruct (map_get String.eqb _ _) as [c|]; [|left; reflexivity].
      right. cbn [after returns]. filed_channel.
      split; [reflexivity|]. split; [reflexivity|].
      split; [reflexivity|]. split; [discriminate | reflexivity].
Qed.

Lemma handshake_dispatchEvent_after :
  forall s d, after (Handshake.dispatchEvent s d) = s.
Proof.
  intros s d. unfold Handshake.dispatchEvent.
  destruct (token_of d); [|reflexivity].
  destruct (negb _); [reflexivity|].
  destruct (call_handlers _ _). reflexivity.
Qed.

Lemma handshake_connectToFrame_shape :
  forall transport s f random h,
    let s' := after (Handshake.connectToFrame transport s f random h) in
    s' = s \/
    (Handshake.initialization_ongoing (map_values (Handshake.channels s))
     = false /\
     (s' = Handshake.set_channels s [(random, syn_channel f random)] \/
      s' = Handshake.set_interval
             (Handshake.set_channels s [(random, syn_channel f random)])
             (Some h))).
Proof.
  intros transport s f random h s'. subst s'.
  unfold Handshake.connectToFrame.
  destruct (Handshake.initialization_ongoing _); [left; reflexivity|].
  right. split; [reflexivity|].
  destruct (Handshake.postInitializationMessage _ _ _ _) as [tr [|e]];
    [right | left]; reflexivity.
Qed.

(** What holds of a service and survives the filing of a coherent channel
    that is not in state [SYN], the restart of the registry from a single
    [SYN] channel when no channel has left [SYN], the recording of a timer
    and a [set] and a [delete] of the handler table, holds after every run
    whose inbound handshake messages satisfy [ok]. *)
Lemma handshake_run_invariant :
  forall (ok : Init.Message -> Prop)
         (P : Handshake.MessagingService -> Prop),
    (forall s c m,
        P s -> ok m -> Handshake.token c = Init.token m ->
        state_coherent c -> Handshake.state c <> Handshake.SYN ->
        (Handshake.initialized c = true ->
         Handshake.destination c = Init.source m) ->
        P (handshake_files s c)) ->
    (forall s f random,
        P s ->
        Handshake.initialization_ongoing (map_values (Handshake.channels s))
        = false ->
        P (Handshake.set_channels s [(random, syn_channel f random)])) ->
    (forall s h, P s -> P (Handshake.set_interval s (Some h))) ->
    (forall s k h, P s ->
       P (Handshake.set_handlers s
            (map_set Z.eqb k h (Handshake.handlers s)))) ->
    (forall s k, P s ->
       P (Handshake.set_handlers s
            (map_delete Z.eqb k (Handshake.handlers s)))) ->
    forall transport inputs sys,
      Forall (handshake_input_ok ok) inputs ->
      P (Handshake.service sys) ->
      P (Handshake.service (Handshake.run transport sys inputs)).
Proof.
  intros ok P Hfile Hreset Htimer Hset Hdel transport inputs.
  unfold Handshake.run.
  induction inputs as [|i inputs IH]; intros sys Hok HP; [exact HP|].
  inversion Hok as [|x l Hi Hrest]; subst.
  cbn [fold_left]. apply IH; [exact Hrest|]. clear IH Hok Hrest.
  destruct i as [h random h'|event|f k|k|d]; cbn [Handshake.step].
  - destruct (existsb _ _); [|exact HP].
    destruct (Handshake.frame (Handshake.service sys)) as [f|]; [|exact HP].
    cbn [Handshake.settle Handshake.service].
    destruct (handshake_connectToFrame_shape transport
                (Handshake.service sys) f random h')
      as [-> | [Hno [-> | ->]]].
    + exact HP.
    + apply Hreset; assumption.
    + apply Htimer, Hreset; assumption.
  - cbn [Handshake.settle Handshake.service]. unfold Handshake.listener.
    destruct (negb _); [exact HP|].
    destruct (truthy (data event)); [|exact HP].
    cbn [handshake_input_ok] in Hi.
    destruct (data event) as [p|m|m];
      try (rewrite handshake_dispatchEvent_after; exact HP).
    destruct (str_truthy (Init.state m));
      [|rewrite handshake_dispatchEvent_after; exact HP].
    destruct (handshake_initialize_shape transport (Handshake.service sys)
                m (source event)) as [-> | [c [-> [Ht [Hc [Hs Hd]]]]]].
    + exact HP.
    + apply (Hfile _ c m); assumption.
  - cbn [Handshake.service Handshake.addMessageHandler fst].
    apply Hset. exact HP.
  - cbn [Handshake.service]. unfold Handshake.removeMessageHandler.
    destruct (map_has Z.eqb _ _); [apply Hdel; exact HP | exact HP].
  - cbn [Handshake.settle Handshake.service].
    rewrite handshake_postMessage_after. exact HP.
Qed.

Lemma handshake_any_input_ok :
  forall inputs, Forall (handshake_input_ok (fun _ => True)) inputs.
Proof.
  induction inputs as [|i inputs IH]; constructor; [|exact IH].
  destruct i as [h random h'|event|f k|k|d]; cbn; try exact I.
  destruct (data event); exact I.
Qed.

(** X15. In every state the generation with channel states reaches from
    its construction, [initialized] follows the state of each record (false
    with destination [UNKNOWN_DESTINATION] in "SYN" and "SYN+ACK", true in
    "ACK" and "FIN"), every record is filed under its own token, and no
    token is filed twice. *)
Theorem handshake_registry_is_coherent :
  forall transport target frame overrideId random h sys inputs,
    Handshake.boot target frame overrideId random h = Some sys ->
    let s := Handshake.service (Handshake.run transport sys inputs) in
    (forall c, In c (map_values (Handshake.channels s)) ->
               state_coherent c) /\
    handshake_registry_keyed s.
Proof.
  intros transport target frame overrideId random h sys inputs Hboot s.
  subst s.
  apply (handshake_run_invariant (fun _ => True)
           (fun s => (forall c, In c (map_values (Handshake.channels s)) ->
                                state_coherent c) /\
                     handshake_registry_keyed s)).
  - intros s c m [Hco [Hk Hnd]] _ _ Hc _ _. split; [|split].
    + intros x Hin. unfold handshake_files in Hin.
      cbn [Handshake.set_channels Handshake.channels] in Hin.
      apply map_set_values_in in Hin.
      destruct Hin as [-> | Hin]; [exact Hc | exact (Hco x Hin)].
    + intros k x Hin. unfold handshake_files in Hin.
      cbn [Handshake.set_channels Handshake.channels] in Hin.
      apply map_set_in in Hin. destruct Hin as [Hin|Hin].
      * injection Hin as Hkey Hrec. rewrite Hkey, Hrec. reflexivity.
      * exact (Hk k x Hin).
    + unfold handshake_files.
      cbn [Handshake.set_channels Handshake.channels].
      apply (map_set_keys_nodup _ _ String.eqb string_eqb_spec). exact Hnd.
  - intros s f token _ _. split; [|split].
    + intros x [<-|[]]. split; reflexivity.
    + intros k x [Hin|[]]. injection Hin as <- <-. reflexivity.
    + cbn. constructor; [intros [] | constructor].
  - intros s h' H. exact H.
  - intros s k x H. exact H.
  - intros s k H. exact H.
  - apply handshake_any_input_ok.
  - unfold handshake_registry_keyed.
    rewrite (handshake_boot_channels _ _ _ _ _ _ Hboot). cbn.
    split; [intros c [] | split; [intros k c [] | constructor]].
Qed.

(** The initiator after a tick and the reply of "B". *)
Lemma handshake_registry_is_coherent_witness :
  handshake_registry_keyed
    (Handshake.service
       (Handshake.run accept_all handshake_initiator
          [Handshake.Tick 1%positive "t1" 2%positive;
           Handshake.Deliver synack_from_B])).
Proof.
  exact (proj2 (handshake_registry_is_coherent accept_all sample_origin
                  (Some frame_of_B) (Some "A") "0" 1%positive
                  handshake_initiator
                  [Handshake.Tick 1%positive "t1" 2%positive;
                   Handshake.Deliver synack_from_B] eq_refl)).
Defined.

(** X16. In the generation with channel states too, in every state reached
    from construction, a record with [initialized == true] has a destination
    other than [UNKNOWN_DESTINATION], as long as no inbound handshake
    message announces the sentinel as its source. *)
Theorem handshake_initialized_knows_destination :
  forall transport target frame overrideId random h sys inputs
         (c : Handshake.Channel),
    Handshake.boot target frame overrideId random h = Some sys ->
    Forall (handshake_input_ok
              (fun m => Init.source m <> UNKNOWN_DESTINATION)) inputs ->
    In c (map_values
            (Handshake.channels
               (Handshake.service (Handshake.run transport sys inputs)))) ->
    Handshake.initialized c = true ->
    Handshake.destination c <> UNKNOWN_DESTINATION.
Proof.
  intros transport target frame overrideId random h sys inputs c Hboot Hok.
  revert c.
  apply (handshake_run_invariant
           (fun m => Init.source m <> UNKNOWN_DESTINATION)
           (fun s => forall c, In c (map_values (Handshake.channels s)) ->
                               Handshake.initialized c = true ->
                               Handshake.destination c
                               <> UNKNOWN_DESTINATION)).
  - intros s c m HP Hm _ _ _ Hd x Hin Hi. unfold handshake_files in Hin.
    cbn [Handshake.set_channels Handshake.channels] in Hin.
    apply map_set_values_in in Hin. destruct Hin as [-> | Hin].
    + rewrite (Hd Hi). exact Hm.
    + exact (HP x Hin Hi).
  - intros s f token _ _ x [<-|[]] Hi. discriminate Hi.
  - intros s h' H. exact H.
  - intros s k x H. exact H.
  - intros s k H. exact H.
  - exact Hok.
  - rewrite (handshake_boot_channels _ _ _ _ _ _ Hboot). intros c [].
Qed.

(** The channel of the initiator after the reply of "B". *)
Lemma handshake_initialized_knows_destination_witness :
  Handshake.destination
    {| Handshake.destination := "B"; Handshake.initialized := true;
       Handshake.token := "t1"; Handshake.state := Handshake.ACK;
       Handshake.window := Some 9 |} <> UNKNOWN_DESTINATION.
Proof.
  apply (handshake_initialized_knows_destination accept_all sample_origin
           (Some frame_of_B) (Some "A") "0" 1%positive handshake_initiator
           [Handshake.Tick 1%positive "t1" 2%positive;
            Handshake.Deliver synack_from_B]).
  - reflexivity.
  - constructor; [exact I|]. constructor; [simpl; discriminate|].
    constructor.
  - simpl. left. reflexivity.
  - reflexivity.
Defined.

Lemma map_get_in_values_of_set :
  forall (k : string) (c : Handshake.Channel) (m : JsMap string Handshake.Channel),
    In c (map_values (map_set String.eqb k c m)).
Proof.
  intros k c m. unfold map_values. induction m as [|[k0 v0] m IH]; simpl.
  - left. reflexivity.
  - destruct (String.eqb k k0); simpl; [left; reflexivity | right; exact IH].
Qed.

(** X17. Once a channel has left the state [SYN], the generation with
    channel states never drops a channel again: after any run some channel
    is still out of [SYN], so the guard of [connectToFrame] keeps holding,
    and every token that was filed is still filed. *)
Theorem progressed_registry_is_kept :
  forall transport (sys : Handshake.System) (inputs : list Handshake.Input),
    Handshake.initialization_ongoing
      (map_values (Handshake.channels (Handshake.service sys))) = true ->
    let s' := Handshake.service (Handshake.run transport sys inputs) in
    Handshake.initialization_ongoing (map_values (Handshake.channels s'))
    = true /\
    (forall t, map_has String.eqb t
                 (Handshake.channels (Handshake.service sys)) = true ->
               map_has String.eqb t (Handshake.channels s') = true).
Proof.
  intros transport sys inputs Hon s'. subst s'.
  apply (handshake_run_invariant (fun _ => True)
           (fun x =>
              Handshake.initialization_ongoing
                (map_values (Handshake.channels x)) = true /\
              (forall t, map_has String.eqb t
                           (Handshake.channels (Handshake.service sys))
                         = true ->
                         map_has String.eqb t (Handshake.channels x) = true))).
  - intros s c m [Hong Hhas] _ _ _ Hs _. split.
    + apply initialization_ongoing_exists. exists c. split; [|exact Hs].
      unfold handshake_files.
      cbn [Handshake.set_channels Handshake.channels].
      apply (map_get_in_values_of_set (Handshake.token c) c
               (Handshake.channels s)).
    + intros t Ht. specialize (Hhas t Ht). unfold handshake_files, map_has.
      cbn [Handshake.set_channels Handshake.channels].
      destruct (String.eqb_spec t (Handshake.token c)) as [->|Hne].
      * rewrite (map_get_set_same _ _ String.eqb string_eqb_spec).
        reflexivity.
      * rewrite (map_get_set_other _ _ String.eqb string_eqb_spec)
          by exact Hne.
        exact Hhas.
  - intros s f token [Hong _] Hno. congruence.
  - intros s h' H. exact H.
  - intros s k x H. exact H.
  - intros s k H. exact H.
  - apply handshake_any_input_ok.
  - split; [exact Hon | intros t Ht; exact Ht].
Qed.

(** The responder has received a [SYN]; nothing that follows drops "t1". *)
Lemma progressed_registry_is_kept_witness :
  map_has String.eqb "t1"
    (Handshake.channels
       (Handshake.service
          (Handshake.run accept_all
             (Handshake.run accept_all handshake_initiator
                [Handshake.Deliver syn_from_A])
             [Handshake.Tick 1%positive "t2" 2%positive])))
  = true.
Proof.
  refine (proj2 (progressed_registry_is_kept accept_all
                   (Handshake.run accept_all handshake_initiator
                      [Handshake.Deliver syn_from_A])
                   [Handshake.Tick 1%positive "t2" 2%positive] eq_refl)
                "t1" eq_refl).
Defined.

(** ** The timeout of the generation with channel states *)

Lemma handshake_internal_sets_no_timer :
  forall transport s data channel,
    sets_no_timer
      (fst (Handshake.postMessageInternal transport s data channel)).
Proof.
  intros transport s data channel. unfold Handshake.postMessageInternal.
  destruct (Handshake.window channel) as [w|]; [|apply sets_no_timer_nil].
  destruct (transport w data); [|apply sets_no_timer_nil].
  intros h [H|[]]. discriminate H.
Qed.

Lemma handshake_clear_sets_no_timer :
  forall s, sets_no_timer (Handshake.clear_interval s).
Proof.
  intros s h. unfold Handshake.clear_interval.
  destruct (Handshake.interval s); [intros [H|[]]; discriminate H | intros []].
Qed.

Lemma handshake_initialize_sets_no_timer :
  forall transport s m src,
    sets_no_timer (trace (Handshake.initialize transport s m src)).
Proof.
  intros transport s m src. unfold Handshake.initialize,
    Handshake.postInitializationMessage.
  destruct (String.eqb (Init.state m) "SYN+ACK").
  - destruct (map_has String.eqb _ _); cbn [negb]; [|apply sets_no_timer_nil].
    destruct (map_get String.eqb _ _) as [c|]; [|apply sets_no_timer_nil].
    match goal with
    | |- context [Handshake.postMessageInternal ?t ?s1 ?x ?y] =>
        pose proof (handshake_internal_sets_no_timer t s1 x y) as Hc;
        destruct (Handshake.postMessageInternal t s1 x y) as [tr [|e]]
    end; cbn [fst trace returns throws] in *.
    + apply sets_no_timer_app; [exact Hc|].
      apply handshake_clear_sets_no_timer.
    + exact Hc.
  - destruct (String.eqb (Init.state m) "SYN").
    + match goal with
      | |- context [Handshake.postMessageInternal ?t ?s1 ?x ?y] =>
          pose proof (handshake_internal_sets_no_timer t s1 x y) as Hc;
          destruct (Handshake.postMessageInternal t s1 x y) as [tr c]
      end. exact Hc.
    + destruct (String.eqb (Init.state m) "ACK"); [|apply sets_no_timer_nil].
      destruct (map_has String.eqb _ _); cbn [negb];
        [|apply sets_no_timer_nil].
      destruct (map_get String.eqb _ _) as [c|]; apply sets_no_timer_nil.
Qed.

Lemma handshake_dispatch_only_calls :
  forall s x, only_calls_handlers (trace (Handshake.dispatchEvent s x)).
Proof.
  intros s x. unfold Handshake.dispatchEvent.
  destruct (token_of x); [|intros e []].
  destruct (negb _); [intros e []|].
  pose proof (call_handlers_only_calls (Handshake.handlers s) (data_of x))
    as Hc.
  destruct (call_handlers _ _) as [tr c]. exact Hc.
Qed.

Lemma handshake_listener_sets_no_timer :
  forall transport s event,
    sets_no_timer (trace (Handshake.listener transport s event)).
Proof.
  intros transport s event. unfold Handshake.listener.
  destruct (negb _); [apply sets_no_timer_nil|].
  destruct (truthy (data event)); [|apply sets_no_timer_nil].
  destruct (data event) as [p|m|m];
    try (apply calls_set_no_timer, handshake_dispatch_only_calls).
  destruct (str_truthy (Init.state m)).
  - apply handshake_initialize_sets_no_timer.
  - apply calls_set_no_timer, handshake_dispatch_only_calls.
Qed.

Lemma handshake_post_each_sets_no_timer :
  forall transport s d cs,
    sets_no_timer (fst (Handshake.post_each transport s d cs)).
Proof.
  intros transport s d cs. induction cs as [|c cs IH]; simpl.
  - apply sets_no_timer_nil.
  - destruct (negb (Handshake.initialized c)); [exact IH|].
    pose proof (handshake_internal_sets_no_timer transport s
                  (PApp {| App.token := Handshake.token c; App.data := d |})
                  c) as Hc.
    destruct (Handshake.postMessageInternal _ _ _ _) as [tr [|e]].
    + destruct (Handshake.post_each transport s d cs) as [tr' c'].
      simpl in *. apply sets_no_timer_app; assumption.
    + exact Hc.
Qed.

Lemma handshake_postMessage_sets_no_timer :
  forall transport s d,
    sets_no_timer (trace (Handshake.postMessage transport s d)).
Proof.
  intros transport s d. unfold Handshake.postMessage.
  destruct (Nat.eqb _ 0); [apply sets_no_timer_nil|].
  destruct (negb _); [apply sets_no_timer_nil|].
  pose proof (handshake_post_each_sets_no_timer transport s d
                (map_values (Handshake.channels s))) as Hc.
  destruct (Handshake.post_each _ _ _ _) as [tr c]. exact Hc.
Qed.

Lemma handshake_listener_interval :
  forall transport s event,
    Handshake.interval (after (Handshake.listener transport s event))
    = Handshake.interval s.
Proof.
  intros transport s event. unfold Handshake.listener.
  destruct (negb _); [reflexivity|].
  destruct (truthy (data event)); [|reflexivity].
  destruct (data event) as [p|m|m];
    try (rewrite handshake_dispatchEvent_after; reflexivity).
  destruct (str_truthy (Init.state m));
    [|rewrite handshake_dispatchEvent_after; reflexivity].
  destruct (handshake_initialize_shape transport s m (source event))
    as [-> | [c [-> _]]]; reflexivity.
Qed.

Lemma apply_effects_none :
  forall tr, sets_no_timer tr -> apply_effects tr [] = [].
Proof.
  intros tr Hno. destruct (apply_effects tr []) as [|y l] eqn:E;
    [reflexivity|].
  assert (Hy : In y (apply_effects tr [])) by (rewrite E; left; reflexivity).
  destruct (apply_effects_incl tr [] Hno y Hy).
Qed.

Lemma apply_effects_one :
  forall tr h,
    sets_no_timer tr ->
    apply_effects tr [h] = [] \/ apply_effects tr [h] = [h].
Proof.
  induction tr as [|e tr IH]; intros h Hno; [right; reflexivity|].
  assert (Hno' : sets_no_timer tr).
  { intros x Hx. apply (Hno x). right. exact Hx. }
  destruct e as [w m o|i d|h'|h']; cbn [apply_effects].
  - apply IH. exact Hno'.
  - apply IH. exact Hno'.
  - cbn [filter]. destruct (negb (Pos.eqb h' h)).
    + apply IH. exact Hno'.
    + left. apply apply_effects_none. exact Hno'.
  - elim (Hno h'). left. reflexivity.
Qed.

Lemma handshake_settle_timer :
  forall sys (r : Result Handshake.MessagingService),
    handshake_timer_known sys ->
    sets_no_timer (trace r) ->
    Handshake.interval (after r)
    = Handshake.interval (Handshake.service sys) ->
    handshake_timer_known (Handshake.settle (Handshake.live sys) r).
Proof.
  intros sys r Hk Hno Hiv. unfold handshake_timer_known in *.
  cbn [Handshake.settle Handshake.live Handshake.service].
  destruct Hk as [-> | [h [-> Hh]]].
  - left. apply apply_effects_none. exact Hno.
  - destruct (apply_effects_one (trace r) h Hno) as [-> | ->].
    + left. reflexivity.
    + right. exists h. split; [reflexivity | congruence].
Qed.

Lemma handshake_tick_live :
  forall transport sys h random h',
    handshake_timer_known sys ->
    let sys' := Handshake.step transport sys (Handshake.Tick h random h') in
    handshake_timer_known sys' /\
    (existsb (Pos.eqb h) (Handshake.live sys) = true ->
     Handshake.live sys' = [] \/
     exists f w,
       Handshake.frame (Handshake.service sys) = Some f /\
       Handshake.initialization_ongoing
         (map_values (Handshake.channels (Handshake.service sys))) = false /\
       (contentWindow f = None \/
        contentWindow f = Some w /\
        transport w (syn_message (Handshake.id (Handshake.service sys))
                       random) = true)).
Proof.
  intros transport sys h random h' Hk sys'. subst sys'.
  cbn [Handshake.step].
  destruct (existsb (Pos.eqb h) (Handshake.live sys)) eqn:Hex;
    [|split; [exact Hk | discriminate]].
  assert (Hfil : filter (fun x => negb (Pos.eqb h x)) (Handshake.live sys)
                 = []).
  { destruct Hk as [Hl | [h0 [Hl _]]]; rewrite Hl in *; [reflexivity|].
    cbn in Hex. rewrite Bool.orb_false_r in Hex. cbn. rewrite Hex.
    reflexivity. }
  rewrite Hfil.
  destruct (Handshake.frame (Handshake.service sys)) as [f|];
    [|split; [left; reflexivity | intros _; left; reflexivity]].
  unfold Handshake.connectToFrame.
  destruct (Handshake.initialization_ongoing _) eqn:Hon;
    [split; [left; reflexivity | intros _; left; reflexivity]|].
  unfold Handshake.postInitializationMessage, Handshake.postMessageInternal,
    Handshake.delayConnectToFrame, syn_message.
  cbn [Handshake.window Handshake.set_channels Handshake.id
       Handshake.channels].
  destruct (contentWindow f) as [w|] eqn:Hw.
  - destruct (transport w _) eqn:Ht.
    + split.
      * right. exists h'. split; reflexivity.
      * intros _. right. exists f, w.
        split; [reflexivity|]. split; [reflexivity|].
        right. split; [exact Hw | exact Ht].
    + split; [left; reflexivity | intros _; left; reflexivity].
  - split.
    + right. exists h'. split; reflexivity.
    + intros _. right. exists f, 0.
      split; [reflexivity|]. split; [reflexivity|]. left. exact Hw.
Qed.

Lemma handshake_step_timer :
  forall transport sys i,
    handshake_timer_known sys ->
    handshake_timer_known (Handshake.step transport sys i).
Proof.
  intros transport sys i Hk. destruct i as [h random h'|event|f k|k|d].
  - exact (proj1 (handshake_tick_live transport sys h random h' Hk)).
  - cbn [Handshake.step]. apply handshake_settle_timer; [exact Hk | |].
    + apply handshake_listener_sets_no_timer.
    + apply handshake_listener_interval.
  - exact Hk.
  - cbn [Handshake.step]. unfold handshake_timer_known in *.
    cbn [Handshake.live Handshake.service].
    unfold Handshake.removeMessageHandler.
    destruct (map_has Z.eqb _ _); exact Hk.
  - cbn [Handshake.step]. apply handshake_settle_timer; [exact Hk | |].
    + apply handshake_postMessage_sets_no_timer.
    + rewrite handshake_postMessage_after. reflexivity.
Qed.

Lemma handshake_run_timer :
  forall transport inputs sys,
    handshake_timer_known sys ->
    handshake_timer_known (Handshake.run transport sys inputs).
Proof.
  intros transport inputs. unfold Handshake.run.
  induction inputs as [|i inputs IH]; intros sys Hk; [exact Hk|].
  cbn [fold_left]. apply IH, handshake_step_timer, Hk.
Qed.

Lemma handshake_boot_timer :
  forall target frame overrideId random h sys,
    Handshake.boot target frame overrideId random h = Some sys ->
    handshake_timer_known sys /\
    (frame = None -> Handshake.live sys = []).
Proof.
  intros target frame overrideId random h sys.
  unfold Handshake.boot, Handshake.constructor.
  destruct (String.eqb target WILDCARD_TARGET); [discriminate|].
  destruct frame as [f|]; intros [= <-]; cbn.
  - split; [|discriminate]. right. exists h. split; reflexivity.
  - split; [left; reflexivity | reflexivity].
Qed.

Lemma handshake_step_stays_idle :
  forall transport sys i,
    Handshake.live sys = [] -> Handshake.live (Handshake.step transport sys i) = [].
Proof.
  intros transport sys i Hl. destruct i as [h random h'|event|f k|k|d];
    cbn [Handshake.step].
  - rewrite Hl. cbn [existsb]. exact Hl.
  - cbn [Handshake.settle Handshake.live]. rewrite Hl.
    apply apply_effects_none, handshake_listener_sets_no_timer.
  - exact Hl.
  - exact Hl.
  - cbn [Handshake.settle Handshake.live]. rewrite Hl.
    apply apply_effects_none, handshake_postMessage_sets_no_timer.
Qed.

Lemma handshake_run_stays_idle :
  forall transport inputs sys,
    Handshake.live sys = [] ->
    Handshake.live (Handshake.run transport sys inputs) = [].
Proof.
  intros transport inputs. unfold Handshake.run.
  induction inputs as [|i inputs IH]; intros sys Hl; [exact Hl|].
  cbn [fold_left]. apply IH, handshake_step_stays_idle, Hl.
Qed.

(** X18. In the generation with channel states the host never holds more
    than one timeout of the service, and that one is the handle the service
    remembers in [interval]; a service constructed without a frame never has
    a timer at all. *)
Theorem handshake_at_most_one_timeout :
  forall transport target frame overrideId random h sys inputs,
    Handshake.boot target frame overrideId random h = Some sys ->
    let sys' := Handshake.run transport sys inputs in
    handshake_timer_known sys' /\
    (frame = None -> Handshake.live sys' = []).
Proof.
  intros transport target frame overrideId random h sys inputs Hboot sys'.
  subst sys'.
  destruct (handshake_boot_timer _ _ _ _ _ _ Hboot) as [Hk Hnone]. split.
  - apply handshake_run_timer. exact Hk.
  - intro Hf. apply handshake_run_stays_idle. exact (Hnone Hf).
Qed.

(** The initiator after two timeouts holds the second handle only. *)
Lemma handshake_at_most_one_timeout_witness :
  Handshake.live
    (Handshake.run accept_all handshake_initiator
       [Handshake.Tick 1%positive "t1" 2%positive;
        Handshake.Tick 2%positive "t2" 3%positive]) = [3%positive] /\
  handshake_timer_known
    (Handshake.run accept_all handshake_initiator
       [Handshake.Tick 1%positive "t1" 2%positive;
        Handshake.Tick 2%positive "t2" 3%positive]).
Proof.
  split; [reflexivity|].
  exact (proj1 (handshake_at_most_one_timeout accept_all sample_origin
                  (Some frame_of_B) (Some "A") "0" 1%positive
                  handshake_initiator
                  [Handshake.Tick 1%positive "t1" 2%positive;
                   Handshake.Tick 2%positive "t2" 3%positive] eq_refl)).
Defined.

(** X19. The bootstrap of the generation with channel states ends for good
    when a timeout fires and finds a channel that has left [SYN] (the guard
    returns before [delayConnectToFrame]), or when the post of the [SYN]
    throws (the exception skips [delayConnectToFrame]): no timer is
    scheduled afterwards, whatever follows. *)
Theorem bootstrap_ends_without_rearming :
  forall transport target frame overrideId random0 h0 sys0 pre
         (h : positive) (random : string) (h' : positive)
         (post : list Handshake.Input),
    Handshake.boot target frame overrideId random0 h0 = Some sys0 ->
    let sys := Handshake.run transport sys0 pre in
    existsb (Pos.eqb h) (Handshake.live sys) = true ->
    Handshake.initialization_ongoing
      (map_values (Handshake.channels (Handshake.service sys))) = true \/
    (exists f w,
        Handshake.frame (Handshake.service sys) = Some f /\
        contentWindow f = Some w /\
        transport w (syn_message (Handshake.id (Handshake.service sys))
                       random) = false) ->
    Handshake.live
      (Handshake.run transport sys (Handshake.Tick h random h' :: post)) = [].
Proof.
  intros transport target frame overrideId random0 h0 sys0 pre h random h'
         post Hboot sys Hlive Hcase.
  assert (Hk : handshake_timer_known sys).
  { apply handshake_run_timer.
    exact (proj1 (handshake_boot_timer _ _ _ _ _ _ Hboot)). }
  change (Handshake.run transport sys (Handshake.Tick h random h' :: post))
    with (Handshake.run transport
            (Handshake.step transport sys (Handshake.Tick h random h')) post).
  apply handshake_run_stays_idle.
  destruct (proj2 (handshake_tick_live transport sys h random h' Hk) Hlive)
    as [Hl | [f [w [Hf [Hon Hw]]]]]; [exact Hl|].
  destruct Hcase as [Hon' | [f' [w' [Hf' [Hw' Ht']]]]]; [congruence|].
  rewrite Hf in Hf'. injection Hf' as <-.
  destruct Hw as [Hw | [Hw Ht]]; [congruence|].
  rewrite Hw in Hw'. injection Hw' as <-. congruence.
Qed.

(** The initiator has received a [SYN] of its peer before its first
    timeout: the timeout finds a channel in state "SYN+ACK" and the
    bootstrap is over. *)
Lemma bootstrap_ends_without_rearming_witness :
  Handshake.live
    (Handshake.run accept_all
       (Handshake.run accept_all handshake_initiator
          [Handshake.Deliver syn_from_A])
       [Handshake.Tick 1%positive "t2" 2%positive;
        Handshake.Tick 2%positive "t3" 3%positive]) = [].
Proof.
  apply (bootstrap_ends_without_rearming accept_all sample_origin
           (Some frame_of_B) (Some "A") "0" 1%positive handshake_initiator
           [Handshake.Deliver syn_from_A] 1%positive "t2" 2%positive
           [Handshake.Tick 2%positive "t3" 3%positive] eq_refl eq_refl).
  left. reflexivity.
Defined.

(** ** What [postMessage] posts (the generation with channel states) *)




(** ** The gate of [postMessage] ([src/connection.ts]) *)

(** X21. [AtLeastOneInitializedChannel], the flag set in a [forEach], is
    true exactly when some channel of the registry is initialized. *)
Theorem AtLeastOneInitializedChannel_iff :
  forall s : Connection.MessagingService,
    Connection.AtLeastOneInitializedChannel s = true <->
    exists c, In c (map_values (Connection.channels s)) /\
              Connection.initialized c = true.
Proof.
  intro s. rewrite connection_at_least_one_existsb. apply existsb_exists.
Qed.

Lemma connection_user_calls_keep_channels :
  forall transport inputs sys,
    Forall user_call inputs ->
    Connection.channels (Connection.service
                           (Connection.run transport sys inputs))
    = Connection.channels (Connection.service sys).
Proof.
  intros transport inputs. unfold Connection.run.
  induction inputs as [|i inputs IH]; intros sys Hall; [reflexivity|].
  inversion Hall as [|x l Hi Hrest]; subst. cbn [fold_left].
  rewrite (IH _ Hrest). clear IH.
  destruct i as [h random|event|f k|k|d]; cbn [user_call] in Hi;
    try contradiction; cbn [Connection.step Connection.service].
  - reflexivity.
  - unfold Connection.removeMessageHandler.
    destruct (map_has Z.eqb _ _); reflexivity.
  - cbn [Connection.settle Connection.service].
    rewrite connection_postMessage_after. reflexivity.
Qed.

(** X22. No call of the user files a channel: from the construction of
    [src/connection.ts] on, through any sequence of [addMessageHandler],
    [removeMessageHandler] and [postMessage], the registry stays empty and
    [postMessage] keeps throwing "No channel." without posting; only a
    timer tick or an inbound handshake message can change that. *)
Theorem user_calls_file_no_channel :
  forall transport target frame overrideId random h sys inputs (d : JsVal),
    Connection.boot target frame overrideId random h = Some sys ->
    Forall user_call inputs ->
    let s := Connection.service (Connection.run transport sys inputs) in
    Connection.channels s = [] /\
    Connection.postMessage transport s d = throws s [] NoChannel.
Proof.
  intros transport target frame overrideId random h sys inputs d Hboot Hall s.
  assert (Hc : Connection.channels s = []).
  { subst s. rewrite (connection_user_calls_keep_channels _ _ _ Hall).
    exact (proj1 (proj2 (proj2 (proj2 (proj2 (proj2
             (connection_boot_service _ _ _ _ _ _ Hboot))))))). }
  split; [exact Hc|]. unfold Connection.postMessage. rewrite Hc. reflexivity.
Qed.

(** The page registers a handler and posts twice before any handshake. *)
Lemma user_calls_file_no_channel_witness :
  let s := Connection.service
             (Connection.run accept_all connection_initiator
                [Connection.AddHandler (fun _ => true) 5%Z;
                 Connection.Post (VPrim (JStr "x"))]) in
  Connection.postMessage accept_all s (VPrim (JStr "y"))
  = throws s [] NoChannel.
Proof.
  intro s.
  refine (proj2 (user_calls_file_no_channel accept_all sample_origin
                   (Some frame_of_B) (Some "A") "0" 1%positive
                   connection_initiator
                   [Connection.AddHandler (fun _ => true) 5%Z;
                    Connection.Post (VPrim (JStr "x"))]
                   (VPrim (JStr "y")) eq_refl _)).
  constructor; [exact I|]. constructor; [exact I|]. constructor.
Defined.

(** * The generation before the states ([src/unnamed/part_002], 102-350) *)

Lemma registry_answer_after :
  forall transport s1 message src,
    Registry.after (Registry.answer transport s1 message src) = s1.
Proof.
  intros transport s1 message src. unfold Registry.answer.
  destruct src as [w|]; [|reflexivity].
  destruct (Registry.postInitializationMessage _ _ _ _) as [tr [|e]];
    reflexivity.
Qed.

Lemma registry_dispatchEvent_after :
  forall s d, Registry.after (Registry.dispatchEvent s d) = s.
Proof.
  intros s d. unfold Registry.dispatchEvent.
  destruct (Registry.token_of d); [|reflexivity].
  destruct (negb _); [reflexivity|].
  destruct (Registry.call_handlers _ _). reflexivity.
Qed.

Lemma registry_initialize_keeps_final :
  forall transport s message src t c,
    map_get String.eqb t (Registry.channels s) = Some c ->
    Registry.initialized c = true ->
    map_get String.eqb t
      (Registry.channels
         (Registry.after (Registry.initialize transport s message src)))
    = Some c.
Proof.
  intros transport s message src t c Hget Hinit. unfold Registry.initialize.
  destruct (String.eqb_spec (Registry.hello_token message) t) as [E|E].
  - rewrite E. unfold map_has. rewrite Hget, Hinit. exact Hget.
  - assert (Hne : t <> Registry.hello_token message) by congruence.
    destruct (map_has String.eqb _ _).
    + destruct (map_get String.eqb (Registry.hello_token message) _)
        as [c0|]; [|exact Hget].
      destruct (Registry.initialized c0); [exact Hget|].
      rewrite registry_answer_after.
      cbn [Registry.set_channels Registry.channels].
      rewrite (map_get_set_other _ _ String.eqb string_eqb_spec) by exact Hne.
      exact Hget.
    + rewrite registry_answer_after.
      cbn [Registry.set_channels Registry.channels].
      rewrite (map_get_set_other _ _ String.eqb string_eqb_spec) by exact Hne.
      exact Hget.
Qed.

(** X23. In the generation before the states an initialized channel is
    final for the inbound side: through any sequence of inbound events,
    handshake messages with its own token included, the registry keeps the
    very record it holds under that token, so [initialized] never goes back
    to false there. *)
Theorem registry_initialized_channel_is_final :
  forall transport (s : Registry.MessagingService) (t : string)
         (c : Registry.Channel) (events : list Registry.MessageEvent),
    map_get String.eqb t (Registry.channels s) = Some c ->
    Registry.initialized c = true ->
    map_get String.eqb t
      (Registry.channels (Registry.listen_all transport s events))
    = Some c.
Proof.
  intros transport s t c events. revert s. unfold Registry.listen_all.
  induction events as [|event events IH]; intros s Hget Hinit; [exact Hget|].
  cbn [fold_left]. apply IH; [|exact Hinit].
  unfold Registry.listener.
  destruct (negb _); [exact Hget|].
  destruct (Registry.truthy (Registry.data event)); [|exact Hget].
  destruct (Registry.data event) as [p|m|m];
    try (rewrite registry_dispatchEvent_after; exact Hget).
  destruct (str_truthy (Registry.hello_source m));
    [|rewrite registry_dispatchEvent_after; exact Hget].
  apply registry_initialize_keeps_final; assumption.
Qed.

(** "t1" is opened by two messages of "A" and survives a third one and a
    message announcing "Z". *)
Lemma registry_initialized_channel_is_final_witness :
  let s := Registry.listen_all registry_accept_all registry_responder
             [hello_from_A (Some 7); hello_from_A (Some 7)] in
  map_get String.eqb "t1"
    (Registry.channels
       (Registry.listen_all registry_accept_all s
          [hello_from_A (Some 7);
           {| Registry.origin := sample_origin;
              Registry.data :=
                Registry.DHello {| Registry.hello_token := "t1";
                                   Registry.hello_source := "Z" |};
              Registry.source := Some 8 |}]))
  = Some {| Registry.destination := "A"; Registry.initialized := true;
            Registry.token := "t1"; Registry.window := Some 7 |}.
Proof.
  intro s.
  apply (registry_initialized_channel_is_final registry_accept_all s "t1").
  - reflexivity.
  - reflexivity.
Defined.

(** X24. The handshake of the generation before the states takes two
    messages per side and then stops. The first message for a token that is
    not filed files an uninitialized channel with the window of the event
    and is answered to that window with [{token, source: id}], after which
    the interval is cleared; the second message for the token initializes
    the channel with the announced source, keeps the window recorded first
    and is answered to the window it came from; a third message for the
    token changes nothing and is not answered. *)
Theorem registry_two_messages_open_a_channel :
  forall transport (s : Registry.MessagingService)
         (m1 m2 m3 : Registry.Hello) (w1 w2 : WindowProxy)
         (src3 : option WindowProxy),
    map_has String.eqb (Registry.hello_token m1) (Registry.channels s)
    = false ->
    Registry.hello_token m2 = Registry.hello_token m1 ->
    Registry.hello_token m3 = Registry.hello_token m1 ->
    (forall w m, transport w m = true) ->
    let answer_to w :=
      Registry.Sent w (Registry.PHello
                         {| Registry.hello_token := Registry.hello_token m1;
                            Registry.hello_source := Registry.id s |})
                    (Registry.target s) in
    let r1 := Registry.initialize transport s m1 (Some w1) in
    let r2 := Registry.initialize transport (Registry.after r1) m2
                (Some w2) in
    let r3 := Registry.initialize transport (Registry.after r2) m3 src3 in
    map_get String.eqb (Registry.hello_token m1)
      (Registry.channels (Registry.after r1))
    = Some {| Registry.destination := UNKNOWN_DESTINATION;
              Registry.initialized := false;
              Registry.token := Registry.hello_token m1;
              Registry.window := Some w1 |} /\
    Registry.trace r1 = answer_to w1 :: Registry.clear_interval s /\
    map_get String.eqb (Registry.hello_token m1)
      (Registry.channels (Registry.after r2))
    = Some {| Registry.destination := Registry.hello_source m2;
              Registry.initialized := true;
              Registry.token := Registry.hello_token m1;
              Registry.window := Some w1 |} /\
    Registry.trace r2 = answer_to w2 :: Registry.clear_interval s /\
    r3 = Registry.returns (Registry.after r2) [].
Proof.
  intros transport s m1 m2 m3 w1 w2 src3 Hfresh H2 H3 Hok answer_to r1 r2 r3.
  assert (E1 : r1 = Registry.returns
                      (Registry.set_channels s
                         (map_set String.eqb (Registry.hello_token m1)
                            {| Registry.destination := UNKNOWN_DESTINATION;
                               Registry.initialized := false;
                               Registry.token := Registry.hello_token m1;
                               Registry.window := Some w1 |}
                            (Registry.channels s)))
                      (answer_to w1 :: Registry.clear_interval s)).
  { subst r1 answer_to. unfold Registry.initialize. rewrite Hfresh.
    unfold Registry.answer, Registry.postInitializationMessage,
      Registry.postMessageInternal. rewrite Hok. reflexivity. }
  assert (G1 : map_get String.eqb (Registry.hello_token m1)
                 (Registry.channels (Registry.after r1))
               = Some {| Registry.destination := UNKNOWN_DESTINATION;
                         Registry.initialized := false;
                         Registry.token := Registry.hello_token m1;
                         Registry.window := Some w1 |}).
  { rewrite E1. cbn [Registry.after Registry.returns Registry.set_channels
                     Registry.channels].
    apply (map_get_set_same _ _ String.eqb string_eqb_spec). }
  assert (E2 : r2 = Registry.returns
                      (Registry.set_channels (Registry.after r1)
                         (map_set String.eqb (Registry.hello_token m1)
                            {| Registry.destination :=
                                 Registry.hello_source m2;
                               Registry.initialized := true;
                               Registry.token := Registry.hello_token m1;
                               Registry.window := Some w1 |}
                            (Registry.channels (Registry.after r1))))
                      (answer_to w2 :: Registry.clear_interval s)).
  { subst r2 answer_to. unfold Registry.initialize, map_has.
    rewrite H2, G1. cbn [Registry.initialized Registry.window].
    unfold Registry.answer, Registry.postInitializationMessage,
      Registry.postMessageInternal. rewrite Hok, H2, E1. reflexivity. }
  assert (G2 : map_get String.eqb (Registry.hello_token m1)
                 (Registry.channels (Registry.after r2))
               = Some {| Registry.destination := Registry.hello_source m2;
                         Registry.initialized := true;
                         Registry.token := Registry.hello_token m1;
                         Registry.window := Some w1 |}).
  { rewrite E2. cbn [Registry.after Registry.returns Registry.set_channels
                     Registry.channels].
    apply (map_get_set_same _ _ String.eqb string_eqb_spec). }
  split; [exact G1|]. split; [rewrite E1; reflexivity|].
  split; [exact G2|]. split; [rewrite E2; reflexivity|].
  subst r3. unfold Registry.initialize, map_has. rewrite H3, G2.
  reflexivity.
Qed.

(** The responder "B" hears "A" three times. *)
Lemma registry_two_messages_open_a_channel_witness :
  let r1 := Registry.listener registry_accept_all registry_responder
              (hello_from_A (Some 7)) in
  let r2 := Registry.listener registry_accept_all (Registry.after r1)
              (hello_from_A (Some 7)) in
  Registry.listener registry_accept_all (Registry.after r2)
    (hello_from_A (Some 7))
  = Registry.returns (Registry.after r2) [].
Proof.
  intros r1 r2.
  exact (proj2 (proj2 (proj2 (proj2
           (registry_two_messages_open_a_channel registry_accept_all
              registry_responder
              {| Registry.hello_token := "t1"; Registry.hello_source := "A" |}
              {| Registry.hello_token := "t1"; Registry.hello_source := "A" |}
              {| Registry.hello_token := "t1"; Registry.hello_source := "A" |}
              7 7 (Some 7) eq_refl eq_refl eq_refl
              (fun _ _ => eq_refl)))))).
Defined.

(** X25. In the generation before the states the answer is posted to
    [event.source] without a test: when the event has no source, a message
    that is not dropped files or initializes its channel and then throws on
    the null window, with nothing posted and the interval not cleared. *)
Theorem registry_null_source_throws_after_filing :
  forall transport (s : Registry.MessagingService) (message : Registry.Hello),
    Registry.is_initialized s (Registry.hello_token message) = false ->
    let r := Registry.initialize transport s message None in
    Registry.completion r = Throw Registry.NullWindow /\
    Registry.trace r = [] /\
    map_has String.eqb (Registry.hello_token message)
      (Registry.channels (Registry.after r)) = true /\
    Registry.is_initialized (Registry.after r) (Registry.hello_token message)
    = map_has String.eqb (Registry.hello_token message) (Registry.channels s).
Proof.
  intros transport s message Hnot r. subst r.
  unfold Registry.initialize, Registry.is_initialized, map_has in *.
  destruct (map_get String.eqb (Registry.hello_token message)
              (Registry.channels s)) as [c|] eqn:Hget.
  - rewrite Hnot.
    cbn [Registry.answer Registry.completion Registry.trace Registry.after
         Registry.throws Registry.set_channels Registry.channels].
    rewrite (map_get_set_same _ _ String.eqb string_eqb_spec).
    repeat split.
  - cbn [Registry.answer Registry.completion Registry.trace Registry.after
         Registry.throws Registry.set_channels Registry.channels].
    rewrite (map_get_set_same _ _ String.eqb string_eqb_spec).
    repeat split.
Qed.

(** A first message of "A" that comes without a source. *)
Lemma registry_null_source_throws_after_filing_witness :
  Registry.completion
    (Registry.listener registry_accept_all registry_responder
       (hello_from_A None))
  = Throw Registry.NullWindow.
Proof.
  exact (proj1 (registry_null_source_throws_after_filing registry_accept_all
                  registry_responder
                  {| Registry.hello_token := "t1";
                     Registry.hello_source := "A" |} eq_refl)).
Defined.

(** * The first generation ([src/unnamed/part_002], 1-102) *)

Lemma probe_dispatchEvent_after :
  forall s d, Probe.after (Probe.dispatchEvent s d) = s.
Proof.
  intros s d. unfold Probe.dispatchEvent.
  destruct (Probe.call_handlers 0 (Probe.handlers s) d). reflexivity.
Qed.

Lemma probe_postMessage_after :
  forall transport s d, Probe.after (Probe.postMessage transport s d) = s.
Proof.
  intros transport s d. unfold Probe.postMessage.
  destruct (negb _); [reflexivity|].
  destruct (Probe.frame s) as [f|];
    destruct (Probe.post _ _ _ _); reflexivity.
Qed.

Lemma probe_initialize_after :
  forall transport s, Probe.after (Probe.initialize transport s) = s.
Proof.
  intros transport s. unfold Probe.initialize.
  destruct (Probe.frame s) as [f|]; [|reflexivity].
  destruct (Probe.mainWindow s); [reflexivity|].
  destruct (Probe.post _ _ _ _). reflexivity.
Qed.

Lemma probe_step_keeps_initialized :
  forall transport s i,
    Probe.initialized s = true ->
    let s' := Probe.step transport s i in
    Probe.initialized s' = true /\
    Probe.mainWindow s' = Probe.mainWindow s /\
    Probe.target s' = Probe.target s /\
    Probe.frame s' = Probe.frame s.
Proof.
  intros transport s i Hinit s'. subst s'.
  destruct i as [|event|handler|d]; cbn [Probe.step].
  - rewrite probe_initialize_after. repeat split. exact Hinit.
  - unfold Probe.listener.
    destruct (negb _); [repeat split; exact Hinit|].
    destruct (Probe.truthy _); [|repeat split; exact Hinit].
    destruct (Probe.is_token_message _).
    + rewrite Hinit. repeat split. exact Hinit.
    + rewrite probe_dispatchEvent_after. repeat split. exact Hinit.
  - repeat split. exact Hinit.
  - rewrite probe_postMessage_after. repeat split. exact Hinit.
Qed.

(** X26. In the first generation the handshake happens once: when the
    service is initialized, a further [{token: TOKEN}] message changes
    nothing and is not answered, and through any sequence of timer ticks,
    inbound events, handler registrations and posts the service stays
    initialized and keeps the window, the target and the frame it has. *)
Theorem probe_handshake_happens_once :
  forall transport (s : Probe.MessagingService),
    Probe.initialized s = true ->
    (forall event,
        Probe.origin event = Probe.target s ->
        Probe.is_token_message (Probe.data event) = true ->
        Probe.listener transport s event = Probe.returns s []) /\
    (forall inputs,
        let s' := Probe.run transport s inputs in
        Probe.initialized s' = true /\
        Probe.mainWindow s' = Probe.mainWindow s /\
        Probe.target s' = Probe.target s /\
        Probe.frame s' = Probe.frame s).
Proof.
  intros transport s Hinit. split.
  - intros event Ho Htok. unfold Probe.listener.
    rewrite Ho, String.eqb_refl, Htok, Hinit. cbn [negb].
    destruct (Probe.data event) as [p|[t|] rest]; try discriminate Htok.
    reflexivity.
  - intros inputs. cbv zeta. revert s Hinit. unfold Probe.run.
    induction inputs as [|i inputs IH]; intros s Hinit.
    + repeat split. exact Hinit.
    + cbn [fold_left].
      destruct (probe_step_keeps_initialized transport s i Hinit)
        as [H1 [H2 [H3 H4]]].
      destruct (IH _ H1) as [G1 [G2 [G3 G4]]].
      repeat split; congruence.
Qed.

(** The frame has answered window [7]; a second token message from window
    [8] is ignored. *)
Lemma probe_handshake_happens_once_witness :
  let s := Probe.after (Probe.listener probe_accept_all probe_frame_side
                          (probe_event (Some 7))) in
  Probe.mainWindow s = Some 7 /\
  Probe.listener probe_accept_all s (probe_event (Some 8))
  = Probe.returns s [].
Proof.
  intro s. split; [reflexivity|].
  apply (proj1 (probe_handshake_happens_once probe_accept_all s eq_refl)
           (probe_event (Some 8))); reflexivity.
Defined.


(** X28. The first [{token: TOKEN}] message that an uninitialized service
    of the first generation receives from the trusted origin makes
    [event.source] its [mainWindow]. With a source that takes the answer,
    the answer [{token: TOKEN}] is posted to it without a target origin, the
    service is initialized and the interval is cleared. With a source that
    refuses the answer the exception leaves [mainWindow] set and the service
    uninitialized. Without a source nothing is posted and the service is
    initialized all the same; on the side without a frame every
    [postMessage] then returns without posting. *)
Theorem probe_first_token_message :
  forall transport (s : Probe.MessagingService) (event : Probe.MessageEvent),
    Probe.origin event = Probe.target s ->
    Probe.is_token_message (Probe.data event) = true ->
    Probe.initialized s = false ->
    let r := Probe.listener transport s event in
    Probe.mainWindow (Probe.after r) = Probe.source event /\
    match Probe.source event with
    | Some w =>
        if transport w Probe.token_message
        then Probe.initialized (Probe.after r) = true /\
             Probe.trace r = Probe.Sent w Probe.token_message None
                             :: Probe.clear_interval s /\
             Probe.completion r = Normal
        else Probe.initialized (Probe.after r) = false /\
             Probe.trace r = [] /\
             Probe.completion r = Throw (Probe.SendFailed w)
    | None =>
        Probe.initialized (Probe.after r) = true /\
        Probe.trace r = Probe.clear_interval s /\
        Probe.completion r = Normal /\
        (Probe.frame s = None ->
         forall d, Probe.postMessage transport (Probe.after r) d
                   = Probe.returns (Probe.after r) [])
    end.
Proof.
  intros transport s event Ho Htok Hinit r. subst r. unfold Probe.listener.
  rewrite Ho, String.eqb_refl, Htok, Hinit. cbn [negb].
  assert (Ht : Probe.truthy (Probe.data event) = true).
  { destruct (Probe.data event) as [p|t rest]; [discriminate Htok|].
    reflexivity. }
  rewrite Ht. unfold Probe.post. cbn [Probe.mainWindow].
  destruct (Probe.source event) as [w|].
  - destruct (transport w Probe.token_message);
      cbn [Probe.after Probe.returns Probe.throws Probe.mainWindow
           Probe.initialized Probe.trace Probe.completion];
      repeat split; exact Hinit.
  - cbn [Probe.after Probe.returns Probe.mainWindow Probe.initialized
         Probe.trace Probe.completion].
    split; [reflexivity|]. split; [reflexivity|]. split; [reflexivity|].
    split; [reflexivity|].
    intros Hf d. unfold Probe.postMessage.
    cbn [Probe.initialized Probe.frame Probe.mainWindow negb].
    rewrite Hf. reflexivity.
Qed.

(** The frame is reached by an event without source and swallows a post. *)
Lemma probe_first_token_message_witness :
  let r := Probe.listener probe_accept_all probe_frame_side
             (probe_event None) in
  Probe.initialized (Probe.after r) = true /\
  Probe.postMessage probe_accept_all (Probe.after r)
    (Probe.Prim (JStr "hello"))
  = Probe.returns (Probe.after r) [].
Proof.
  intro r.
  destruct (probe_first_token_message probe_accept_all probe_frame_side
              (probe_event None) eq_refl eq_refl eq_refl)
    as [_ [Hi [_ [_ Hp]]]].
  split; [exact Hi | exact (Hp eq_refl (Probe.Prim (JStr "hello")))].
Defined.

(** * The logger of [src/connection.ts] *)

Lemma erase_app :
  forall tr tr', Logged.erase (tr ++ tr') = Logged.erase tr ++ Logged.erase tr'.
Proof.
  induction tr as [|[e|l] tr IH]; intro tr'; simpl;
    [reflexivity | rewrite IH; reflexivity | apply IH].
Qed.

Lemma erase_log :
  forall logger line, Logged.erase (Logged.log logger line) = [].
Proof. intros [|] line; reflexivity. Qed.

Lemma erase_did :
  forall tr, Logged.erase (map Logged.Did tr) = tr.
Proof.
  induction tr as [|e tr IH]; simpl; [reflexivity | rewrite IH; reflexivity].
Qed.

Lemma logged_call_handlers_erase :
  forall hs d,
    Logged.erase (fst (Logged.call_handlers hs d)) = fst (call_handlers hs d) /\
    snd (Logged.call_handlers hs d) = snd (call_handlers hs d).
Proof.
  intros hs d. induction hs as [|[i h] hs IH]; simpl.
  - split; reflexivity.
  - destruct (h d); [|split; reflexivity].
    destruct (Logged.call_handlers hs d) as [tr c].
    destruct (call_handlers hs d) as [tr' c']. simpl in *.
    destruct IH as [-> ->]. split; reflexivity.
Qed.

Lemma logged_internal_erase :
  forall logger transport s data channel,
    Logged.erase
      (fst (Logged.postMessageInternal logger transport s data channel))
    = fst (Connection.postMessageInternal transport s data channel) /\
    snd (Logged.postMessageInternal logger transport s data channel)
    = snd (Connection.postMessageInternal transport s data channel).
Proof.
  intros logger transport s data channel.
  unfold Logged.postMessageInternal, Connection.postMessageInternal.
  destruct (Connection.window channel) as [w|]; [|split; reflexivity].
  destruct (transport w data); cbn [fst snd];
    repeat rewrite erase_app; repeat rewrite erase_log;
    split; reflexivity.
Qed.

Lemma logged_handshake_post_erase :
  forall logger transport s data channel,
    Logged.erase
      (fst (Logged.postInitializationMessage logger transport s data channel))
    = fst (Connection.postInitializationMessage transport s data channel) /\
    snd (Logged.postInitializationMessage logger transport s data channel)
    = snd (Connection.postInitializationMessage transport s data channel).
Proof.
  intros logger transport s data channel.
  unfold Logged.postInitializationMessage,
    Connection.postInitializationMessage.
  pose proof (logged_internal_erase logger transport s (PInit data) channel)
    as [H1 H2].
  destruct (Logged.postMessageInternal _ _ _ _ _) as [tr c].
  cbn [fst snd] in *. rewrite erase_app, erase_log, H1, H2.
  split; reflexivity.
Qed.

(** What [Logged] does is what [Connection] does, log lines apart. *)
Definition same_but_logs (r : Logged.Result)
  (r0 : Result Connection.MessagingService) : Prop :=
  Logged.after r = after r0 /\
  Logged.erase (Logged.trace r) = trace r0 /\
  Logged.completion r = completion r0.

Lemma logged_initialize_erase :
  forall logger transport s message src,
    same_but_logs (Logged.initialize logger transport s message src)
                  (Connection.initialize transport s message src).
Proof.
  intros logger transport s message src.
  unfold same_but_logs, Logged.initialize, Connection.initialize.
  assert (Hret : forall x line,
             Logged.after (Logged.returns x (Logged.log logger line))
             = after (returns x []) /\
             Logged.erase
               (Logged.trace (Logged.returns x (Logged.log logger line)))
             = trace (returns x []) /\
             Logged.completion (Logged.returns x (Logged.log logger line))
             = completion (returns x (@nil Effect))).
  { intros x line. cbn. rewrite erase_log. repeat split. }
  destruct (String.eqb (Init.state message) "SYN+ACK").
  - destruct (map_has String.eqb _ _); [|apply Hret].
    destruct (map_get String.eqb _ _) as [c|]; [|apply Hret].
    destruct (Connection.initialized c); [apply Hret|].
    match goal with
    | |- context [Logged.postInitializationMessage ?l ?t ?s1 ?x ?y] =>
        pose proof (logged_handshake_post_erase l t s1 x y) as [H1 H2];
        destruct (Logged.postInitializationMessage l t s1 x y) as [tr c1];
        destruct (Connection.postInitializationMessage t s1 x y) as [tr0 c0]
    end.
    cbn [fst snd] in H1, H2. subst c1 tr0.
    destruct c0 as [|e]; cbn; repeat rewrite erase_app;
      rewrite erase_log; unfold Logged.clear_interval;
      try rewrite erase_did; repeat split.
  - destruct (String.eqb (Init.state message) "SYN").
    + match goal with
      | |- context [Logged.postInitializationMessage ?l ?t ?s1 ?x ?y] =>
          pose proof (logged_handshake_post_erase l t s1 x y) as [H1 H2];
          destruct (Logged.postInitializationMessage l t s1 x y) as [tr c1];
          destruct (Connection.postInitializationMessage t s1 x y)
            as [tr0 c0]
      end.
      cbn [fst snd] in H1, H2. subst c1 tr0.
      cbn. rewrite erase_app, erase_log. repeat split.
    + destruct (String.eqb (Init.state message) "ACK"); [|apply Hret].
      destruct (map_has String.eqb _ _); [|apply Hret].
      destruct (map_get String.eqb _ _) as [c|]; [|apply Hret].
      destruct (Connection.initialized c); apply Hret.
Qed.

Lemma logged_dispatch_erase :
  forall logger s message,
    same_but_logs (Logged.dispatchEvent logger s message)
                  (Connection.dispatchEvent s message).
Proof.
  intros logger s message.
  unfold same_but_logs, Logged.dispatchEvent, Connection.dispatchEvent.
  destruct (token_of message) as [t|];
    [|cbn; rewrite erase_log; repeat split].
  destruct (negb _); [cbn; rewrite erase_log; repeat split|].
  pose proof (logged_call_handlers_erase (Connection.handlers s)
                (data_of message)) as [H1 H2].
  destruct (Logged.call_handlers _ _) as [tr c].
  destruct (call_handlers _ _) as [tr0 c0]. cbn [fst snd] in H1, H2.
  subst c tr0. cbn. rewrite erase_app, erase_log. repeat split.
Qed.

Lemma logged_prefixed_erase :
  forall logger line r r0,
    same_but_logs r r0 ->
    same_but_logs (Logged.prefixed (Logged.log logger line) r) r0.
Proof.
  intros logger line r r0 [H1 [H2 H3]]. unfold same_but_logs.
  cbn. rewrite erase_app, erase_log. repeat split; assumption.
Qed.

(** The listener with its logger does to the service, posts, calls and
    clears what the listener of [Connection] does; and without a logger its
    trace is that of [Connection], one for one. *)
Lemma logged_listener_erase :
  forall logger transport s event,
    same_but_logs (Logged.listener logger transport s event)
                  (Connection.listener transport s event).
Proof.
  intros logger transport s event.
  unfold Logged.listener, Connection.listener.
  destruct (negb _); [repeat split|].
  destruct (truthy (data event));
    [|unfold same_but_logs; cbn; rewrite erase_log; repeat split].
  destruct (data event) as [p|m|m];
    try (apply logged_prefixed_erase, logged_dispatch_erase).
  destruct (str_truthy (Init.state m)).
  - apply logged_prefixed_erase, logged_initialize_erase.
  - apply logged_prefixed_erase, logged_dispatch_erase.
Qed.

(** C10 (as the code has it). An inbound event of the configured origin
    whose payload is one of the falsy values [null], [undefined], [0], the
    empty string or [false] makes [listener] return with the service as it
    was, and nothing is posted, no handler is called and no timer is
    touched; the one thing it does, when the service was given a logger, is
    to log the line "receive message on <id>, type: <Window or Frame>",
    which comes before the test of the payload. Without a logger it does
    nothing at all. *)
Theorem falsy_payload_is_only_logged :
  forall (logger : bool) transport (s : Connection.MessagingService)
         (event : MessageEvent) (p : JsPrim),
    origin event = Connection.target s ->
    data event = DPrim p ->
    In p [JNull; JUndefined; JNum 0; JStr ""; JBool false] ->
    Logged.listener logger transport s event
    = Logged.returns s (if logger then [Logged.Log (receive_line s)] else []).
Proof.
  intros logger transport s event p Ho Hd Hp. unfold Logged.listener.
  rewrite Ho, String.eqb_refl, Hd. cbn [negb truthy].
  assert (Hf : prim_truthy p = false).
  { simpl in Hp.
    destruct Hp as [<-|[<-|[<-|[<-|[<-|[]]]]]]; reflexivity. }
  rewrite Hf. destruct logger; reflexivity.
Qed.

(** The number zero at a responder with a logger and at one without. *)
Lemma falsy_payload_is_only_logged_witness :
  Logged.listener true accept_all (Connection.service connection_responder)
    zero_event
  = Logged.returns (Connection.service connection_responder)
      [Logged.Log [Logged.Text "receive message on B, type: Frame"]] /\
  Logged.listener false accept_all (Connection.service connection_responder)
    zero_event
  = Logged.returns (Connection.service connection_responder) [].
Proof.
  split.
  - apply (falsy_payload_is_only_logged true accept_all
             (Connection.service connection_responder) zero_event (JNum 0));
      [reflexivity | reflexivity | simpl; right; right; left; reflexivity].
  - apply (falsy_payload_is_only_logged false accept_all
             (Connection.service connection_responder) zero_event (JNum 0));
      [reflexivity | reflexivity | simpl; right; right; left; reflexivity].
Defined.

(** C10, the claim as stated, fails for a service that was given a logger:
    the number zero from the trusted origin reaches the logger, so the event
    is told apart from no event at all, although the service, the posts, the
    handlers and the timer are as the claim says. *)
Lemma falsy_payload_reaches_the_logger :
  origin zero_event
  = Connection.target (Connection.service connection_responder) /\
  truthy (data zero_event) = false /\
  Logged.trace
    (Logged.listener true accept_all
       (Connection.service connection_responder) zero_event)
  = [Logged.Log [Logged.Text "receive message on B, type: Frame"]] /\
  Logged.trace
    (Logged.listener true accept_all
       (Connection.service connection_responder) zero_event) <> [].
Proof.
  repeat split. discriminate.
Qed.

(** * The hop counter is a JavaScript number *)

(** From [2^53] on, one more hop does not show: the reply to a [SYN] that
    carries the frame [9007199254740992] carries the same frame, and the
    reply to the frame [NaN] carries [NaN]. Below, the sum is exact. *)
Lemma frame_plus_one_is_a_float_sum :
  syn_ack_reply "B" {| Init.token := "t1"; Init.source := "A";
                       Init.state := "SYN";
                       Init.frame := 9007199254740992 |}
  = PInit {| Init.token := "t1"; Init.source := "B";
             Init.state := "SYN+ACK"; Init.frame := 9007199254740992 |} /\
  syn_ack_reply "B" {| Init.token := "t1"; Init.source := "A";
                       Init.state := "SYN"; Init.frame := nan |}
  = PInit {| Init.token := "t1"; Init.source := "B";
             Init.state := "SYN+ACK"; Init.frame := nan |} /\
  trace (Connection.listener accept_all
           (Connection.service connection_responder)
           (handshake_event "t1" "A" "SYN" 9007199254740992 (Some 7)))
  = [Sent 7 (PInit {| Init.token := "t1"; Init.source := "B";
                      Init.state := "SYN+ACK";
                      Init.frame := 9007199254740992 |}) sample_origin] /\
  trace (Connection.listener accept_all
           (Connection.service connection_responder) syn_from_A)
  = [Sent 7 (PInit {| Init.token := "t1"; Init.source := "B";
                      Init.state := "SYN+ACK"; Init.frame := 2 |})
          sample_origin].
Proof.
  repeat split.
Qed.
